(** * Weather aggregation service: normalisation, comparison and analytics

    A shallow embedding of the comparison / analytics core of the Weather
    dashboard (controllers/comparisonController.js, models/Weather.js,
    models/QueryLog.js, the three provider services and the weather
    controller), together with the properties stated for it.

    Numbers.  A JavaScript number is modelled by a rational [Q].  The
    success rates of the query-log analytics and the wind-speed conversions
    of the provider services are computed as the program computes them, in
    binary64 arithmetic: every operation is rounded to the nearest binary64
    number ([Float64]), since [Math.round] is applied to the result and a
    half can fall either way.  Elsewhere (the comparison statistics, the
    temperature and pressure conversions, the sums of response times) sums,
    products and quotients are exact; there the properties are stated for
    concrete inputs, as bounds, or as equalities between results of the
    same expression.  [NaN] and the infinities are outside the model.
    [Math.sqrt] is kept as the exact real square root of its argument (see
    [Math.surd]).  Equality of numbers is [Qeq] ([==]). *)

From stdpp Require Import gmap strings list.
From Stdlib Require Import ZArith QArith Qpower Qround Qabs Qminmax Lqa Lia Permutation Sorted.
From Stdlib Require Import Reals Qreals Lra Psatz.
From Stdlib Require Import Ascii.
From Stdlib Require SpecFloat.

Set Warnings "-register-all".

Local Open Scope Z_scope.
Local Open Scope Q_scope.

(** ** The [Math] object *)

Module Math.

(** [Math.round(x)]: the nearest integer, halves towards +infinity. *)
Definition round (x : Q) : Z := Qfloor (x + (1 # 2)).

(** [Math.floor(n / 2)] on an array length. *)
Definition floor_half (n : nat) : nat := Nat.div n 2.

(** [Math.pow(x, 2)]. *)
Definition pow2 (x : Q) : Q := x * x.

(** [Math.min(...values)] and [Math.max(...values)] for a spread with a
    first element [x] (the call sites guard against the empty array). *)
Definition min (x : Q) (rest : list Q) : Q := fold_left Qmin rest x.
Definition max (x : Q) (rest : list Q) : Q := fold_left Qmax rest x.

(** [Math.sqrt(v)] for a rational [v >= 0] is in general irrational.  The
    model keeps the result as the real number "square root of
    [radicand]" and defines exactly the two operations the program applies
    to it; [round_times_100_spec] and [surd_ltb_spec] below relate them to
    the square root of the real numbers. *)
Record surd : Type := Sqrt { radicand : Q }.

Definition sqrt (v : Q) : surd := Sqrt v.

(** [Math.round(s * 100)] for [s = Math.sqrt(v)]. *)
Definition round_times_100 (s : surd) : Z :=
  ((Z.sqrt (Qfloor (40000 * radicand s)) + 1) / 2)%Z.

(** [s < x] for [s = Math.sqrt(v)]. *)
Definition surd_ltb (s : surd) (x : Q) : bool :=
  match 0 ?= x with
  | Lt => match radicand s ?= x * x with Lt => true | _ => false end
  | _ => false
  end.

End Math.

(** [Math.round(x * 100) / 100], the two-decimal presentation rounding. *)
Definition round2 (x : Q) : Q := inject_Z (Math.round (x * 100)) / 100.

(** ** Binary64 arithmetic

    A finite binary64 number is [m * 2 ^ e] for integers [|m| < 2 ^ 53] and
    [-1074 <= e]; an arithmetic operation returns the binary64 number
    nearest to the exact result, the one with an even [m] when two are
    equally near.  Results of magnitude [2 ^ 1024] and more (the
    infinities) are not modelled. *)

Module Float64.

(** The nearest integer, the even one of two equally near. *)
Definition rne (x : Q) : Z :=
  let f := Qfloor x in
  match Qcompare (x - inject_Z f) (1 # 2) with
  | Lt => f
  | Gt => (f + 1)%Z
  | Eq => if Z.even f then f else (f + 1)%Z
  end.

(** For [x > 0], the integer [b] with [2 ^ b <= x < 2 ^ (b + 1)]. *)
Definition binade (x : Q) : Z :=
  let g := (Z.log2 (Qnum x) - Z.log2 (Zpos (Qden x)))%Z in
  if Qle_bool (2 ^ g) x then g else (g - 1)%Z.

(** The exponent [e] of the binary64 numbers around [x]: 53 significant
    bits, and no exponent below that of the subnormal numbers. *)
Definition exponent (x : Q) : Z := Z.max (binade (Qabs x) - 52) (-1074).

(** The multiple of [2 ^ e] nearest to [x]. *)
Definition scaled (e : Z) (x : Q) : Q := inject_Z (rne (x / 2 ^ e)) * 2 ^ e.

(** The binary64 number nearest to [x], as a reduced fraction.  It is
    also the value of a decimal literal: [fl (36 # 10)] is the number the
    program text [3.6] denotes. *)
Definition fl (x : Q) : Q :=
  if Qeq_bool x 0 then 0 else Qred (scaled (exponent x) x).

(** [x + y], [x - y], [x * y] and [x / y] *)
Definition add (x y : Q) : Q := fl (x + y).
Definition sub (x y : Q) : Q := fl (x - y).
Definition mul (x y : Q) : Q := fl (x * y).
Definition div (x y : Q) : Q := fl (x / y).

(** [Math.round(x * 100) / 100] *)
Definition round2 (x : Q) : Q := div (inject_Z (Math.round (mul x 100))) 100.

End Float64.

(** ** Arrays of numbers *)

(** [values.reduce((sum, val) => sum + val, 0)] *)
Definition sum (values : list Q) : Q := fold_left Qplus values 0.

(** [[...values].sort((a, b) => a - b)]: ascending and stable (an element
    is placed before the elements equal to it that follow it). *)
Fixpoint insert_sorted (x : Q) (l : list Q) : list Q :=
  match l with
  | [] => [x]
  | y :: r => if Qle_bool x y then x :: y :: r else y :: insert_sorted x r
  end.

Fixpoint sort (values : list Q) : list Q :=
  match values with
  | [] => []
  | x :: r => insert_sorted x (sort r)
  end.

(** [sorted[i]] for an index inside the array. *)
Definition at_index (sorted : list Q) (i : nat) : Q := nth i sorted 0.

Definition len (values : list Q) : Q := inject_Z (Z.of_nat (length values)).

(** The full-precision locals [mean], [variance] and [standardDeviation]
    that [Weather.compareMetricAcrossSources] and
    [ComparisonController.compareMetric] compute with the same text. *)
Definition mean_of (values : list Q) : Q := sum values / len values.

Definition variance_of (values : list Q) : Q :=
  let mean := mean_of values in
  fold_left (fun sum val => sum + Math.pow2 (val - mean)) values 0 / len values.

Definition standardDeviation_of (values : list Q) : Math.surd :=
  Math.sqrt (variance_of values).

(** ** JavaScript values

    Provider payloads and canonical records are plain JSON-like objects.
    An object is the list of its own properties in insertion order; a
    property is read at its first occurrence (the objects built here never
    repeat a key). *)

Inductive jsval : Type :=
| JUndefined
| JNull
| JBool (b : bool)
| JNumber (q : Q)
| JString (s : string)
| JArray (items : list jsval)
| JObject (props : list (string * jsval)).

(** Normal or abrupt completion of a call ([throw new Error(message)]). *)
Inductive completion (A : Type) : Type :=
| Return (a : A)
| Throw (message : string).
Arguments Return {A} a.
Arguments Throw {A} message.

Definition bind {A B : Type} (c : completion A) (k : A -> completion B) : completion B :=
  match c with
  | Return a => k a
  | Throw m => Throw m
  end.

Notation "'let*' x ':=' c 'in' k" := (bind c (fun x => k))
  (at level 10, x name, c at level 100, k at level 200).

Fixpoint assoc (k : string) (props : list (string * jsval)) : jsval :=
  match props with
  | [] => JUndefined
  | (k', v) :: rest => if String.eqb k k' then v else assoc k rest
  end.

(** [v?.k], and [v.k] when [v] is neither [null] nor [undefined]. *)
Definition get (v : jsval) (k : string) : jsval :=
  match v with
  | JObject props => assoc k props
  | _ => JUndefined
  end.

(** [v.k]: reading a property of [null] or [undefined] throws a
    [TypeError] (message as printed by V8). *)
Definition member (v : jsval) (k : string) : completion jsval :=
  match v with
  | JUndefined => Throw ("Cannot read properties of undefined (reading '" ++ k ++ "')")
  | JNull => Throw ("Cannot read properties of null (reading '" ++ k ++ "')")
  | _ => Return (get v k)
  end.

(** Truthiness: [undefined], [null], [false], [0] and [''] are falsy. *)
Definition truthy (v : jsval) : bool :=
  match v with
  | JUndefined | JNull => false
  | JBool b => b
  | JNumber q => negb (Qeq_bool q 0)
  | JString s => negb (String.eqb s "")
  | JArray _ | JObject _ => true
  end.

(** [a || b] and [a && b] *)
Definition js_or (a b : jsval) : jsval := if truthy a then a else b.
Definition js_and (a b : jsval) : jsval := if truthy a then b else a.

Infix "|||" := js_or (at level 50, left associativity).
Infix "&&&" := js_and (at level 40, left associativity).
Notation "v ~> k" := (get v k) (at level 25, left associativity).

(** [typeof v === 'number'] *)
Definition is_number (v : jsval) : bool :=
  match v with JNumber _ => true | _ => false end.

(** [Array.isArray(v)] *)
Definition isArray (v : jsval) : bool :=
  match v with JArray _ => true | _ => false end.

(** [v !== null && v !== undefined] *)
Definition not_nullish (v : jsval) : bool :=
  match v with JUndefined | JNull => false | _ => true end.

(** [Object.keys(v).length] *)
Definition keys_length (v : jsval) : nat :=
  match v with
  | JObject props => length props
  | JArray items => length items
  | JString s => String.length s
  | _ => 0%nat
  end.

(** [v.length > 0] for a truthy [v] *)
Definition length_positive (v : jsval) : bool :=
  match v with
  | JArray items => negb (Nat.eqb (length items) 0)
  | JString s => negb (Nat.eqb (String.length s) 0)
  | JObject props =>
      match assoc "length" props with
      | JNumber q => match 0 ?= q with Lt => true | _ => false end
      | _ => false
      end
  | _ => false
  end.

(** The numbers of an array, when every element is a number. *)
Fixpoint numbers (vs : list jsval) : option (list Q) :=
  match vs with
  | [] => Some []
  | JNumber q :: rest =>
      match numbers rest with Some qs => Some (q :: qs) | None => None end
  | _ :: _ => None
  end.

Local Open Scope string_scope.

(** ** models/Weather.js *)

Module Weather.

Record t : Type := {
  location : jsval;
  current : jsval;
  forecast : jsval;
  source : jsval;
  timestamp : jsval
}.

(** [new Weather(data)]; [now] is [new Date().toISOString()]. *)
Definition new (now : string) (data : jsval) : completion t :=
  let* location := member data "location" in
  Return {| location := location ||| JObject [];
            current := data ~> "current" ||| JObject [];
            forecast := data ~> "forecast" ||| JArray [];
            source := data ~> "source" ||| JString "unknown";
            timestamp := data ~> "timestamp" ||| JString now |}.

Definition getStandardizedLocation (this : t) : jsval :=
  JObject [
    ("name", location this ~> "name" ||| JString "Unknown");
    ("country", location this ~> "country" ||| JString "Unknown");
    ("region", location this ~> "region" ||| JNull);
    ("coordinates", JObject [
       ("lat", location this ~> "coordinates" ~> "lat" ||| JNull);
       ("lon", location this ~> "coordinates" ~> "lon" ||| JNull)]);
    ("timezone", location this ~> "timezone" ||| JNull)].

Definition getStandardizedCurrent (this : t) : jsval :=
  let current := current this in
  JObject [
    ("temperature", JObject [
       ("celsius", current ~> "temperature" ~> "celsius" ||| JNull);
       ("fahrenheit", current ~> "temperature" ~> "fahrenheit" ||| JNull);
       ("feelsLike", JObject [
          ("celsius", current ~> "temperature" ~> "feelsLike" ~> "celsius" ||| JNull);
          ("fahrenheit", current ~> "temperature" ~> "feelsLike" ~> "fahrenheit" ||| JNull)])]);
    ("humidity", current ~> "humidity" ||| JNull);
    ("pressure", JObject [
       ("hPa", current ~> "pressure" ~> "hPa" ||| JNull);
       ("inHg", current ~> "pressure" ~> "inHg" ||| JNull)]);
    ("visibility", JObject [
       ("km", current ~> "visibility" ~> "km" ||| JNull);
       ("miles", current ~> "visibility" ~> "miles" ||| JNull)]);
    ("wind", JObject [
       ("speed", JObject [
          ("mps", current ~> "wind" ~> "speed" ~> "mps" ||| JNull);
          ("mph", current ~> "wind" ~> "speed" ~> "mph" ||| JNull);
          ("kmh", current ~> "wind" ~> "speed" ~> "kmh" ||| JNull)]);
       ("direction", current ~> "wind" ~> "direction" ||| JNull);
       ("directionText", current ~> "wind" ~> "directionText" ||| JNull);
       ("gust", current ~> "wind" ~> "gust" ||| JNull)]);
    ("weather", JObject [
       ("main", current ~> "weather" ~> "main" ||| JString "Unknown");
       ("description", current ~> "weather" ~> "description" ||| JString "No description");
       ("icon", current ~> "weather" ~> "icon" ||| JNull);
       ("code", current ~> "weather" ~> "code" ||| JNull)]);
    ("clouds", current ~> "clouds" ||| JNull);
    ("uv", current ~> "uv" ||| JNull);
    ("airQuality", current ~> "airQuality" ||| JNull)].

(** The body of the [map] callback of [getStandardizedForecast]; its
    first read, [day.date], throws when the array holds [null] or
    [undefined]. *)
Definition standardizeDay (day : jsval) : completion jsval :=
  let* date := member day "date" in
  Return (JObject [
    ("date", date ||| JNull);
    ("temperature", JObject [
       ("celsius", JObject [
          ("min", day ~> "temperature" ~> "celsius" ~> "min" ||| JNull);
          ("max", day ~> "temperature" ~> "celsius" ~> "max" ||| JNull);
          ("avg", day ~> "temperature" ~> "celsius" ~> "avg" ||| JNull)]);
       ("fahrenheit", JObject [
          ("min", day ~> "temperature" ~> "fahrenheit" ~> "min" ||| JNull);
          ("max", day ~> "temperature" ~> "fahrenheit" ~> "max" ||| JNull);
          ("avg", day ~> "temperature" ~> "fahrenheit" ~> "avg" ||| JNull)])]);
    ("weather", JObject [
       ("main", day ~> "weather" ~> "main" ||| JString "Unknown");
       ("description", day ~> "weather" ~> "description" ||| JString "No description");
       ("icon", day ~> "weather" ~> "icon" ||| JNull)]);
    ("humidity", day ~> "humidity" ||| JNull);
    ("wind", JObject [
       ("speed", JObject [
          ("mps", day ~> "wind" ~> "speed" ~> "mps" ||| JNull);
          ("mph", day ~> "wind" ~> "speed" ~> "mph" ||| JNull);
          ("kmh", day ~> "wind" ~> "speed" ~> "kmh" ||| JNull)]);
       ("direction", day ~> "wind" ~> "direction" ||| JNull)]);
    ("visibility", JObject [
       ("km", day ~> "visibility" ~> "km" ||| JNull);
       ("miles", day ~> "visibility" ~> "miles" ||| JNull)]);
    ("uv", day ~> "uv" ||| JNull);
    ("precipitation", day ~> "precipitation" ||| JNull);
    ("sunrise", day ~> "sunrise" ||| JNull);
    ("sunset", day ~> "sunset" ||| JNull)]).

(** [array.map(f)] for a callback that may throw. *)
Fixpoint mapM (f : jsval -> completion jsval) (items : list jsval)
  : completion (list jsval) :=
  match items with
  | [] => Return []
  | x :: rest =>
      let* y := f x in
      let* ys := mapM f rest in
      Return (y :: ys)
  end.

Definition getStandardizedForecast (this : t) : completion jsval :=
  match forecast this with
  | JArray days =>
      let* standardized := mapM standardizeDay days in
      Return (JArray standardized)
  | _ => Return (JArray [])
  end.

Definition getStandardized (this : t) : completion jsval :=
  if truthy (current this) && negb (Nat.eqb (keys_length (current this)) 0)
     && truthy (current this ~> "temperature")
  then
    let* forecast := getStandardizedForecast this in
    Return (JObject [
      ("location", getStandardizedLocation this);
      ("current", getStandardizedCurrent this);
      ("forecast", forecast);
      ("source", source this);
      ("timestamp", timestamp this)])
  else if truthy (forecast this) && length_positive (forecast this)
  then
    let* forecast := getStandardizedForecast this in
    Return (JObject [
      ("location", getStandardizedLocation this);
      ("forecast", forecast);
      ("source", source this);
      ("timestamp", timestamp this)])
  else
    let* forecast := getStandardizedForecast this in
    Return (JObject [
      ("location", getStandardizedLocation this);
      ("current", getStandardizedCurrent this);
      ("forecast", forecast);
      ("source", source this);
      ("timestamp", timestamp this)]).

Definition hasValidLocation (this : t) : bool :=
  truthy (location this)
  && truthy (location this ~> "name")
  && truthy (location this ~> "coordinates")
  && is_number (location this ~> "coordinates" ~> "lat")
  && is_number (location this ~> "coordinates" ~> "lon").

Definition hasValidCurrent (this : t) : bool :=
  truthy (current this)
  && truthy (current this ~> "temperature")
  && is_number (current this ~> "temperature" ~> "celsius").

Definition isValid (this : t) : bool :=
  hasValidLocation this && hasValidCurrent this.

Definition hasValidForecast (this : t) : bool :=
  isArray (forecast this) && length_positive (forecast this).

(** The [switch (metric)] of [compareMetricAcrossSources], applied to a
    standardized [current]. *)
Definition metricValue (metric : string) (current : jsval) : jsval :=
  if String.eqb metric "temperature" then current ~> "temperature" ~> "celsius"
  else if String.eqb metric "humidity" then current ~> "humidity"
  else if String.eqb metric "pressure" then current ~> "pressure" ~> "hPa"
  else if String.eqb metric "windSpeed" then current ~> "wind" ~> "speed" ~> "mph"
  else JNull.

Definition calculateMedian (values : list Q) : Q :=
  let sorted := sort values in
  let middle := Math.floor_half (length sorted) in
  if Nat.eqb (length sorted mod 2) 0
  then (at_index sorted (middle - 1) + at_index sorted middle) / 2
  else at_index sorted middle.

Record MetricComparison : Type := {
  values : list Q;
  count : nat;
  min : Q;
  max : Q;
  mean : Q;
  median : Q;
  standardDeviation : Q;
  variance : Q
}.

(** What [compareMetricAcrossSources] returns: [null], an object, or a
    value outside the model when a non-numeric value reaches the
    arithmetic. *)
Inductive comparison : Type :=
| NotNumeric
| Null
| Result (r : MetricComparison).

(** The part of [compareMetricAcrossSources] after the values have been
    extracted. *)
Definition statistics (values : list Q) : option MetricComparison :=
  match values with
  | [] => None
  | first :: others =>
      let mean := mean_of values in
      let variance := variance_of values in
      let standardDeviation := standardDeviation_of values in
      Some {| values := values;
              count := length values;
              min := Math.min first others;
              max := Math.max first others;
              mean := round2 mean;
              median := calculateMedian values;
              standardDeviation := inject_Z (Math.round_times_100 standardDeviation) / 100;
              variance := round2 variance |}
  end.

Definition metricValues (weatherArray : list t) (metric : string) : list jsval :=
  List.filter not_nullish
    (List.map (fun weather => metricValue metric (getStandardizedCurrent weather))
              weatherArray).

Definition compareMetricAcrossSources (weatherArray : list t) (metric : string)
  : comparison :=
  match numbers (metricValues weatherArray metric) with
  | None => NotNumeric
  | Some values =>
      match statistics values with
      | None => Null
      | Some r => Result r
      end
  end.




End Weather.

(** ** Strings

    A string is the list of its characters.  Only one-byte (ASCII)
    characters are modelled, so the white space of [trim] and of [\s] is
    tab, line feed, vertical tab, form feed, carriage return and space. *)

Definition chars (s : string) : list ascii := String.list_ascii_of_string s.
Definition str (l : list ascii) : string := String.string_of_list_ascii l.

Definition code (c : ascii) : nat := nat_of_ascii c.

Definition is_ws (c : ascii) : bool :=
  (Nat.leb 9 (code c) && Nat.leb (code c) 13) || Nat.eqb (code c) 32.

Definition is_digit (c : ascii) : bool :=
  Nat.leb 48 (code c) && Nat.leb (code c) 57.

Definition is_upper (c : ascii) : bool :=
  Nat.leb 65 (code c) && Nat.leb (code c) 90.

Definition is_lower (c : ascii) : bool :=
  Nat.leb 97 (code c) && Nat.leb (code c) 122.

(** [c.toUpperCase()] on a one-byte character. *)
Definition upper (c : ascii) : ascii :=
  if is_lower c then ascii_of_nat (code c - 32) else c.

Fixpoint skip_ws (l : list ascii) : list ascii :=
  match l with
  | c :: rest => if is_ws c then skip_ws rest else l
  | [] => []
  end.

(** [s.trim()] *)
Definition trim (s : string) : string :=
  str (rev (skip_ws (rev (skip_ws (chars s))))).

(** [s.toUpperCase()] *)
Definition toUpperCase (s : string) : string := str (List.map upper (chars s)).

(** [c.toLowerCase()] on a one-byte character, and [s.toLowerCase()] *)
Definition lower (c : ascii) : ascii :=
  if is_upper c then ascii_of_nat (code c + 32) else c.

Definition toLowerCase (s : string) : string := str (List.map lower (chars s)).

(** [s.replace(/\s+/g, ' ')]: every maximal run of white space becomes one
    space; [in_run] tells that the previous character was white space. *)
Fixpoint collapse_ws (in_run : bool) (l : list ascii) : list ascii :=
  match l with
  | [] => []
  | c :: rest =>
      if is_ws c
      then if in_run then collapse_ws true rest else " "%char :: collapse_ws true rest
      else c :: collapse_ws false rest
  end.

Definition replace_ws (s : string) : string := str (collapse_ws false (chars s)).

(** [s.includes(' ')] *)
Definition includes_space (s : string) : bool :=
  existsb (Ascii.eqb " "%char) (chars s).

(** [s.slice(0, -3)] and [s.slice(-3)] *)
Definition slice_front3 (s : string) : string :=
  str (firstn (String.length s - 3) (chars s)).
Definition slice_last3 (s : string) : string :=
  str (skipn (String.length s - 3) (chars s)).

(** [s.substring(0, n)] *)
Definition substring0 (n : nat) (s : string) : string := str (firstn n (chars s)).

(** ** Plain objects used as maps

    An object literal [{}] used as a map is modelled by a [gmap].  The two
    differ on the names every object inherits from [Object.prototype],
    which are found in [{}] although never stored; a function that looks
    up computed keys in such an object is modelled only for keys outside
    this list. *)
Definition inherited : list string :=
  ["constructor"; "__proto__"; "hasOwnProperty"; "isPrototypeOf";
   "propertyIsEnumerable"; "toLocaleString"; "toString"; "valueOf";
   "__defineGetter__"; "__defineSetter__"; "__lookupGetter__"; "__lookupSetter__"].

Definition is_inherited (key : string) : bool := existsb (String.eqb key) inherited.

(** A key that is a string of digits: [Object.keys] lists such keys
    first, in numeric order, and the others in the order in which they
    were added. *)
Definition is_index (key : string) : bool :=
  negb (String.eqb key "") && forallb is_digit (chars key).

(** [array.map(f)] for a callback that may throw. *)
Fixpoint traverse {A B : Type} (f : A -> completion B) (items : list A)
  : completion (list B) :=
  match items with
  | [] => Return []
  | x :: rest =>
      let* y := f x in
      let* ys := traverse f rest in
      Return (y :: ys)
  end.

(** [v.k1.k2...]: each step throws on [null] and [undefined]. *)
Definition read (v : jsval) (path : list string) : completion jsval :=
  fold_left (fun c k => let* v := c in member v k) path (Return v).

(** [v !== null] *)
Definition not_null (v : jsval) : bool :=
  match v with JNull => false | _ => true end.

(** The strings of an array, when every element is a string. *)
Fixpoint strings (vs : list jsval) : option (list string) :=
  match vs with
  | [] => Some []
  | JString s :: rest =>
      match strings rest with Some ss => Some (s :: ss) | None => None end
  | _ :: _ => None
  end.

(** ** Provider services as seen by the controllers

    A provider service is a black box: [isAvailable()] tells whether its
    API key is configured, and awaiting [getCurrentWeather(location)]
    either yields a payload or throws. *)

Record service : Type := {
  isAvailable : bool;
  getCurrentWeather : string -> completion jsval
}.

(** The [services] array of both controllers. *)
Definition services (openWeatherService weatherApiService accuWeatherService : service)
  : list (string * service) :=
  [("OpenWeatherMap", openWeatherService);
   ("WeatherAPI", weatherApiService);
   ("AccuWeather", accuWeatherService)].

(** What one callback of [services.map(async ({ name, service }) => ...)]
    ends with: an error description, or the standardized record it
    stores.  The callback is the same in [compareCurrentWeather] and in
    [getAllCurrentWeather]. *)
Definition settle (now cleanLocation : string) (service : service) : string + jsval :=
  if negb (isAvailable service)
  then inl "Service not available (API key not configured)"
  else
    match
      (let* data := getCurrentWeather service cleanLocation in
       let* weather := Weather.new now data in
       if Weather.isValid weather
       then let* standardized := Weather.getStandardized weather in
            Return (Some standardized)
       else Return None)
    with
    | Return (Some standardized) => inr standardized
    | Return None => inl "Invalid weather data received"
    | Throw message => inl message
    end.

(** ** controllers/comparisonController.js *)

Module ComparisonController.

(** [calculateMedian]: note the [Math.round] on the even-length branch. *)
Definition calculateMedian (values : list Q) : Q :=
  if Nat.eqb (length values) 0 then 0
  else
    let sorted := sort values in
    let middle := Math.floor_half (length sorted) in
    if Nat.eqb (length sorted mod 2) 0
    then inject_Z (Math.round ((at_index sorted (middle - 1) + at_index sorted middle) / 2))
    else at_index sorted middle.

Record ComparisonResult : Type := {
  values : list Q;
  count : nat;
  min : Q;
  max : Q;
  mean : Q;
  median : Q;
  standardDeviation : Q;
  variance : Q;
  range : Q;
  agreement : bool
}.

Inductive comparison : Type :=
| NotNumeric
| Null
| Result (r : ComparisonResult).

(** The part of [compareMetric] after the values have been extracted. *)
Definition statistics (values : list Q) : option ComparisonResult :=
  match values with
  | [] => None
  | first :: others =>
      let mean := mean_of values in
      let variance := variance_of values in
      let standardDeviation := standardDeviation_of values in
      Some {| values := values;
              count := length values;
              min := Math.min first others;
              max := Math.max first others;
              mean := round2 mean;
              median := calculateMedian values;
              standardDeviation := inject_Z (Math.round_times_100 standardDeviation) / 100;
              variance := round2 variance;
              range := Math.max first others - Math.min first others;
              agreement := Math.surd_ltb standardDeviation (mean * (1 # 10)) |}
  end.

Definition metricValues (weatherObjects : list Weather.t) (metric : string)
  : list jsval :=
  List.filter not_nullish
    (List.map (fun weather =>
                 Weather.metricValue metric (Weather.getStandardizedCurrent weather))
              weatherObjects).

Definition compareMetric (weatherObjects : list Weather.t) (metric : string)
  : comparison :=
  match numbers (metricValues weatherObjects metric) with
  | None => NotNumeric
  | Some values =>
      match statistics values with
      | None => Null
      | Some r => Result r
      end
  end.

(** [compareCurrentWeather], lines 10-70: the fan-out over the three
    services and the 503 answer.  [results] and [errors] are the two
    objects the callbacks write to; [settled] lists the services in the
    order in which their callbacks finish.  [now] stands for the clock
    ([new Date().toISOString()]). *)
Definition store (now cleanLocation : string)
    (acc : gmap string jsval * gmap string string) (entry : string * service)
  : gmap string jsval * gmap string string :=
  let '(results, errors) := acc in
  let '(name, service) := entry in
  match settle now cleanLocation service with
  | inr standardized =>
      (<[name := JObject [("data", standardized);
                          ("success", JBool true);
                          ("source", JString name)]]> results, errors)
  | inl message => (results, <[name := message]> errors)
  end.

Definition fanOut (now cleanLocation : string) (settled : list (string * service))
  : gmap string jsval * gmap string string :=
  fold_left (store now cleanLocation) settled (∅, ∅).

(** The answers of [compareCurrentWeather].  The 200 body also carries
    [comparison], [accuracy], [timestamp] and [responseTime], which are
    computed from [results] and the clock and are left out here. *)
Inductive response : Type :=
| BadRequest (error : string)
| ServiceUnavailable (error : string) (location : string)
                     (errors : gmap string string)
| Success (location : string) (successful failed total : nat)
          (results : gmap string jsval) (errors : option (gmap string string)).

Definition respond (cleanLocation : string) (total : nat)
    (collected : gmap string jsval * gmap string string) : response :=
  let '(results, errors) := collected in
  let successCount := size results in
  let errorCount := size errors in
  if Nat.eqb successCount 0
  then ServiceUnavailable "No weather data available" cleanLocation errors
  else Success cleanLocation successCount errorCount total results
               (if Nat.ltb 0 errorCount then Some errors else None).

Definition compareCurrentWeather (now location : string)
    (settled : list (string * service)) : response :=
  let cleanLocation := trim location in
  if String.eqb cleanLocation ""
  then BadRequest "Location required"
  else respond cleanLocation (length settled) (fanOut now cleanLocation settled).


(** ** [performDetailedComparison] and [calculateAccuracyMetrics]

    Both take the [results] object of [compareCurrentWeather]; it is given
    here by the list of its entries in the order of [Object.keys], which
    is the order in which the providers were stored (the keys are service
    names). *)

Module Consensus.
Record t : Type := {
  temperature : option Z;
  humidity : option Z;
  pressure : option Z;
  windSpeed : option Q
}.
End Consensus.

Module Detailed.
Record t : Type := {
  temperature : option ComparisonResult;
  humidity : option ComparisonResult;
  pressure : option ComparisonResult;
  windSpeed : option ComparisonResult;
  consensus : Consensus.t
}.
End Detailed.

(** What [performDetailedComparison] returns: [null], the comparison, or
    a value outside the model when a metric is not numeric. *)
Inductive detailed : Type :=
| DetailedNotNumeric
| DetailedNull
| Compared (d : Detailed.t).

(** [performDetailedComparison] once [weatherObjects] is built. *)
Definition compareAll (weatherObjects : list Weather.t) : detailed :=
  let result c := match c with Result r => Some r | _ => None end in
  let numeric c := match c with NotNumeric => false | _ => true end in
  let temperature := compareMetric weatherObjects "temperature" in
  let humidity := compareMetric weatherObjects "humidity" in
  let pressure := compareMetric weatherObjects "pressure" in
  let windSpeed := compareMetric weatherObjects "windSpeed" in
  if numeric temperature && numeric humidity && numeric pressure && numeric windSpeed
  then
    Compared
      {| Detailed.temperature := result temperature;
         Detailed.humidity := result humidity;
         Detailed.pressure := result pressure;
         Detailed.windSpeed := result windSpeed;
         Detailed.consensus :=
           {| Consensus.temperature :=
                option_map (fun r => Math.round (mean r)) (result temperature);
              Consensus.humidity :=
                option_map (fun r => Math.round (mean r)) (result humidity);
              Consensus.pressure :=
                option_map (fun r => Math.round (mean r)) (result pressure);
              Consensus.windSpeed :=
                option_map (fun r => inject_Z (Math.round (mean r * 10)) / 10)
                           (result windSpeed) |} |}
  else DetailedNotNumeric.

Definition performDetailedComparison (now : string) (results : list (string * jsval))
  : completion detailed :=
  if Nat.ltb (length results) 2 then Return DetailedNull
  else
    let* weatherObjects :=
      traverse (fun entry => let* data := member (snd entry) "data" in
                             Weather.new now data) results in
    Return (compareAll weatherObjects).

Module Spread.
Record t : Type := {
  agreement : bool;
  maxDifference : Q;
  standardDeviation : Math.surd
}.
End Spread.

Module Condition.
Record t : Type := {
  consensus : option string;
  agreement : option Q;
  allConditions : list (string * nat)
}.
End Condition.

Module Accuracy.
Record t : Type := {
  temperature : option Spread.t;
  humidity : option Spread.t;
  weatherCondition : option Condition.t
}.
End Accuracy.

(** The block computed for [temperatures], with a tolerance of 2, and
    for [humidities], with a tolerance of 10. *)
Definition spread (tolerance : Q) (values : list Q) : option Spread.t :=
  match values with
  | first :: others =>
      if Nat.ltb 1 (length values)
      then
        let mean := mean_of values in
        Some {| Spread.agreement :=
                  forallb (fun value => Qle_bool (Qabs (value - mean)) tolerance) values;
                Spread.maxDifference := Math.max first others - Math.min first others;
                Spread.standardDeviation := Math.sqrt (variance_of values) |}
      else None
  | [] => None
  end.

(** [conditionCounts[condition] = (conditionCounts[condition] || 0) + 1],
    on the entries of [conditionCounts] in the order of [Object.keys]. *)
Fixpoint bump (conditionCounts : list (string * nat)) (condition : string)
  : list (string * nat) :=
  match conditionCounts with
  | [] => [(condition, 1%nat)]
  | (key, count) :: rest =>
      if String.eqb key condition then (key, S count) :: rest
      else (key, count) :: bump rest condition
  end.

(** [conditionCounts[key]]; the key [null] is read as ['null']. *)
Fixpoint countOf (conditionCounts : list (string * nat)) (key : string) : option nat :=
  match conditionCounts with
  | [] => None
  | (key', count) :: rest =>
      if String.eqb key' key then Some count else countOf rest key
  end.

Definition keyOf (a : option string) : string :=
  match a with Some a => a | None => "null" end.

(** The callback of [reduce]:
    [(a, b) => conditionCounts[a] > conditionCounts[b] ? a : b]. *)
Definition moreCommon (conditionCounts : list (string * nat))
    (a : option string) (b : string) : option string :=
  match countOf conditionCounts (keyOf a), countOf conditionCounts b with
  | Some count_a, Some count_b => if Nat.ltb count_b count_a then a else Some b
  | _, _ => Some b
  end.

(** What [calculateAccuracyMetrics] returns: [null], the metrics, or a
    value outside the model: when a temperature or humidity is not a
    number, when a condition is not a string, or when a condition is an
    inherited name or a string of digits. *)
Inductive accuracy : Type :=
| AccuracyNotModelled
| AccuracyNull
| Metrics (m : Accuracy.t).

Definition calculateAccuracyMetrics (results : list (string * jsval))
  : completion accuracy :=
  if Nat.ltb (length results) 2 then Return AccuracyNull
  else
    let* weatherData := traverse (fun entry => member (snd entry) "data") results in
    let* temperatures :=
      traverse (fun data => read data ["current"; "temperature"; "celsius"]) weatherData in
    let* humidities :=
      traverse (fun data => read data ["current"; "humidity"]) weatherData in
    let* conditions :=
      traverse (fun data => read data ["current"; "weather"; "main"]) weatherData in
    match numbers (List.filter not_null temperatures),
          numbers (List.filter not_null humidities),
          strings (List.filter truthy conditions) with
    | Some temperatures, Some humidities, Some conditions =>
        if forallb (fun c => negb (is_inherited c) && negb (is_index c)) conditions
        then
          let conditionCounts := fold_left bump conditions [] in
          let mostCommonCondition :=
            fold_left (moreCommon conditionCounts) (List.map fst conditionCounts) None in
          Return (Metrics
            {| Accuracy.temperature := spread 2 temperatures;
               Accuracy.humidity := spread 10 humidities;
               Accuracy.weatherCondition :=
                 if Nat.ltb 1 (length conditions)
                 then Some
                   {| Condition.consensus := mostCommonCondition;
                      Condition.agreement :=
                        option_map
                          (fun count => inject_Z (Z.of_nat count)
                                        / inject_Z (Z.of_nat (length conditions)))
                          (countOf conditionCounts (keyOf mostCommonCondition));
                      Condition.allConditions := conditionCounts |}
                 else None |})
        else Return AccuracyNotModelled
    | _, _, _ => Return AccuracyNotModelled
    end.

End ComparisonController.

(** ** middleware/errorHandler.js *)

(** [s.includes(pattern)] *)
Definition includes (s pattern : string) : bool :=
  match String.index 0 pattern s with
  | Some _ => true
  | None => false
  end.

Module ErrorHandler.

(** An error object, with the properties the handler reads.  [status],
    [code] and [response] are [None] when the property is missing;
    [response] holds [error.response.status] and
    [error.response.data?.message]. *)
Record jsError : Type := {
  name : string;
  message : string;
  status : option Z;
  code : option string;
  response : option (option Z * option string)
}.

(** [new Error(message)] *)
Definition Error (message : string) : jsError :=
  {| name := "Error"; message := message; status := None; code := None;
     response := None |}.

(** A number used as a condition: [undefined] and [0] are falsy. *)
Definition truthy_status (status : option Z) : option Z :=
  match status with
  | Some n => if (n =? 0)%Z then None else Some n
  | None => None
  end.

Definition has_name (error : jsError) (n : string) : bool := String.eqb (name error) n.

Definition has_code (error : jsError) (c : string) : bool :=
  match code error with
  | Some c' => String.eqb c' c
  | None => false
  end.

Definition getErrorTypeFromStatus (statusCode : Z) : string :=
  if (statusCode =? 400)%Z then "Bad Request"
  else if (statusCode =? 401)%Z then "Unauthorized"
  else if (statusCode =? 403)%Z then "Forbidden"
  else if (statusCode =? 404)%Z then "Not Found"
  else if (statusCode =? 405)%Z then "Method Not Allowed"
  else if (statusCode =? 408)%Z then "Request Timeout"
  else if (statusCode =? 409)%Z then "Conflict"
  else if (statusCode =? 422)%Z then "Unprocessable Entity"
  else if (statusCode =? 429)%Z then "Too Many Requests"
  else if (statusCode =? 500)%Z then "Internal Server Error"
  else if (statusCode =? 501)%Z then "Not Implemented"
  else if (statusCode =? 502)%Z then "Bad Gateway"
  else if (statusCode =? 503)%Z then "Service Unavailable"
  else if (statusCode =? 504)%Z then "Gateway Timeout"
  else if (500 <=? statusCode)%Z then "Server Error" else "Client Error".

(** What the handler answers: [statusCode], [error.type] and
    [error.message] of the response.  The environment-dependent [details],
    [stack] and [requestId], the timestamp and the request path are left
    out. *)
Record answer : Type := {
  statusCode : Z;
  errorType : string;
  text : string
}.

Definition defaultMessage : string := "An unexpected error occurred".

(** [a || b] on two messages *)
Definition or_message (a b : string) : string := if String.eqb a "" then b else a.

(** The last branch, [else if (error.message)], and the defaults kept
    when no branch applies. *)
Definition byMessage (error : jsError) : answer :=
  if String.eqb (message error) ""
  then {| statusCode := 500; errorType := "Internal Server Error";
          text := defaultMessage |}
  else if includes (message error) "API key"
  then {| statusCode := 401; errorType := "Authentication Error";
          text := "Invalid or missing API key" |}
  else if includes (message error) "Circuit breaker"
  then {| statusCode := 503; errorType := "Service Unavailable";
          text := "Service temporarily unavailable due to repeated failures" |}
  else if includes (message error) "rate limit" || includes (message error) "quota"
  then {| statusCode := 429; errorType := "Rate Limit Exceeded";
          text := message error |}
  else {| statusCode := 500; errorType := "Internal Server Error";
          text := message error |}.

Definition errorHandler (error : jsError) : answer :=
  if has_name error "ValidationError"
  then {| statusCode := 400; errorType := "Validation Error"; text := "Invalid input data" |}
  else if has_name error "CastError"
  then {| statusCode := 400; errorType := "Cast Error"; text := "Invalid data format" |}
  else if has_name error "UnauthorizedError"
  then {| statusCode := 401; errorType := "Unauthorized"; text := "Authentication required" |}
  else if has_name error "ForbiddenError"
  then {| statusCode := 403; errorType := "Forbidden"; text := "Access denied" |}
  else if has_name error "NotFoundError"
  then {| statusCode := 404; errorType := "Not Found"; text := "Resource not found" |}
  else if has_name error "TimeoutError" || has_code error "ECONNABORTED"
  then {| statusCode := 408; errorType := "Request Timeout"; text := "Request timed out" |}
  else if has_code error "ECONNREFUSED" || has_code error "ENOTFOUND"
  then {| statusCode := 503; errorType := "Service Unavailable";
          text := "External service unavailable" |}
  else if has_name error "RateLimitError"
  then {| statusCode := 429; errorType := "Rate Limit Exceeded"; text := "Too many requests" |}
  else
    match truthy_status (status error) with
    | Some st =>
        {| statusCode := st; errorType := getErrorTypeFromStatus st;
           text := or_message (message error) defaultMessage |}
    | None =>
        match response error with
        | Some (responseStatus, dataMessage) =>
            match truthy_status responseStatus with
            | Some st =>
                {| statusCode := st; errorType := getErrorTypeFromStatus st;
                   text := or_message (match dataMessage with Some m => m | None => "" end)
                             (or_message (message error) defaultMessage) |}
            | None => byMessage error
            end
        | None => byMessage error
        end
    end.

(** The errors the module builds. *)
Definition notFoundHandler (method originalUrl : string) : jsError :=
  {| name := "NotFoundError";
     message := "Route " ++ method ++ " " ++ originalUrl ++ " not found";
     status := Some 404%Z; code := None; response := None |}.

Definition validationErrorHandler : jsError :=
  {| name := "ValidationError"; message := "Validation failed";
     status := Some 400%Z; code := None; response := None |}.

Definition apiErrorHandler (apiName : string) (error : jsError) : jsError :=
  let text := apiName ++ " API Error: " ++ message error in
  match response error with
  | Some (responseStatus, dataMessage) =>
      {| name := "ExternalAPIError"; message := text; status := responseStatus;
         code := None; response := Some (responseStatus, dataMessage) |}
  | None =>
      if has_code error "ECONNABORTED"
      then {| name := "TimeoutError"; message := text; status := Some 408%Z;
              code := None; response := None |}
      else if has_code error "ECONNREFUSED" || has_code error "ENOTFOUND"
      then {| name := "ExternalAPIError"; message := text; status := Some 503%Z;
              code := None; response := None |}
      else {| name := "ExternalAPIError"; message := text; status := None;
              code := None; response := None |}
  end.

Definition circuitBreakerError (serviceName : string) : jsError :=
  {| name := "CircuitBreakerError";
     message := "Circuit breaker is OPEN for " ++ serviceName
                ++ " - service temporarily unavailable";
     status := Some 503%Z; code := None; response := None |}.

Definition rateLimitError (message : string) : jsError :=
  {| name := "RateLimitError"; message := message;
     status := Some 429%Z; code := None; response := None |}.

Definition apiKeyError (apiName : string) : jsError :=
  {| name := "APIKeyError";
     message := apiName ++ " API key not configured or invalid";
     status := Some 401%Z; code := None; response := None |}.

Definition locationNotFoundError (location : string) : jsError :=
  {| name := "LocationNotFoundError";
     message := "Location '" ++ location ++ "' not found";
     status := Some 404%Z; code := None; response := None |}.

Definition databaseErrorHandler (error : jsError) : jsError :=
  if has_code error "SQLITE_BUSY"
  then {| name := "DatabaseError"; message := "Database is busy, please try again";
          status := Some 503%Z; code := None; response := None |}
  else if has_code error "SQLITE_CORRUPT"
  then {| name := "DatabaseError"; message := "Database corruption detected";
          status := Some 500%Z; code := None; response := None |}
  else if has_code error "SQLITE_READONLY"
  then {| name := "DatabaseError"; message := "Database is read-only";
          status := Some 503%Z; code := None; response := None |}
  else {| name := "DatabaseError"; message := "Database operation failed";
          status := Some 500%Z; code := None; response := None |}.

(** The errors built by one of the functions above. *)
Inductive built : jsError -> Prop :=
| built_notFound method originalUrl : built (notFoundHandler method originalUrl)
| built_validation : built validationErrorHandler
| built_api apiName error : built (apiErrorHandler apiName error)
| built_circuitBreaker serviceName : built (circuitBreakerError serviceName)
| built_rateLimit message : built (rateLimitError message)
| built_apiKey apiName : built (apiKeyError apiName)
| built_locationNotFound location : built (locationNotFoundError location)
| built_database error : built (databaseErrorHandler error).

End ErrorHandler.

(** ** config/apis.js: [ukConfig.postcodeRegex]

    [/^[A-Z]{1,2}[0-9R][0-9A-Z]? [0-9][ABD-HJLNP-UW-Z]{2}$/i],
    written as the backtracking matcher of that expression. *)

Module ukConfig.

(** [[A-Z]] under the [i] flag *)
Definition letter (c : ascii) : bool := is_upper (upper c).

(** [[0-9R]] under the [i] flag *)
Definition digit_or_R (c : ascii) : bool :=
  is_digit c || Ascii.eqb (upper c) "R"%char.

(** [[0-9A-Z]] under the [i] flag *)
Definition digit_or_letter (c : ascii) : bool := is_digit c || letter c.

(** [[ABD-HJLNP-UW-Z]] under the [i] flag *)
Definition unit_letter (c : ascii) : bool :=
  let n := code (upper c) in
  (Nat.leb 65 n && Nat.leb n 66) || (Nat.leb 68 n && Nat.leb n 72)
  || Nat.eqb n 74 || Nat.eqb n 76 || Nat.eqb n 78
  || (Nat.leb 80 n && Nat.leb n 85) || (Nat.leb 87 n && Nat.leb n 90).

(** [ [0-9][ABD-HJLNP-UW-Z]{2}$] *)
Definition inward (l : list ascii) : bool :=
  match l with
  | [sp; d; u1; u2] =>
      Ascii.eqb sp " "%char && is_digit d && unit_letter u1 && unit_letter u2
  | _ => false
  end.

(** [[0-9R][0-9A-Z]?] followed by the inward part *)
Definition district (l : list ascii) : bool :=
  match l with
  | c :: rest =>
      digit_or_R c
      && (match rest with
          | c' :: rest' => digit_or_letter c' && inward rest'
          | [] => false
          end
          || inward rest)
  | [] => false
  end.

(** [postcodeRegex.test(s)] *)
Definition postcodeRegex_test (s : string) : bool :=
  match chars s with
  | c :: rest =>
      letter c
      && (match rest with
          | c' :: rest' => letter c' && district rest'
          | [] => false
          end
          || district rest)
  | [] => false
  end.

End ukConfig.

(** ** controllers/weatherController.js *)

Module WeatherController.

(** The object literal [postcodeAreas], in source order.  The key ['SY']
    is written twice with the same value. *)
Definition postcodeAreas_entries : list (string * string) :=
  [("E", "London"); ("EC", "London"); ("N", "London"); ("NW", "London");
   ("SE", "London"); ("SW", "London"); ("W", "London"); ("WC", "London");
   ("B", "Birmingham"); ("M", "Manchester"); ("L", "Liverpool");
   ("LS", "Leeds"); ("S", "Sheffield"); ("NG", "Nottingham");
   ("LE", "Leicester"); ("CV", "Coventry"); ("DE", "Derby");
   ("DN", "Doncaster"); ("HD", "Huddersfield"); ("HU", "Hull");
   ("NE", "Newcastle"); ("SR", "Sunderland"); ("TS", "Middlesbrough");
   ("YO", "York"); ("BD", "Bradford"); ("HG", "Harrogate");
   ("WF", "Wakefield"); ("OL", "Oldham"); ("SK", "Stockport");
   ("WA", "Warrington"); ("WN", "Wigan"); ("BL", "Bolton");
   ("BB", "Blackburn"); ("PR", "Preston"); ("FY", "Blackpool");
   ("LA", "Lancaster"); ("CA", "Carlisle"); ("DL", "Darlington");
   ("DH", "Durham"); ("NR", "Norwich"); ("IP", "Ipswich");
   ("CB", "Cambridge"); ("PE", "Peterborough"); ("NN", "Northampton");
   ("MK", "Milton Keynes"); ("LU", "Luton"); ("AL", "St Albans");
   ("HP", "Hemel Hempstead"); ("SL", "Slough"); ("RG", "Reading");
   ("OX", "Oxford"); ("SN", "Swindon"); ("BA", "Bath"); ("BS", "Bristol");
   ("GL", "Gloucester"); ("HR", "Hereford"); ("WR", "Worcester");
   ("DY", "Dudley"); ("WV", "Wolverhampton"); ("WS", "Walsall");
   ("ST", "Stoke-on-Trent"); ("TF", "Telford"); ("SY", "Shrewsbury");
   ("CH", "Chester"); ("CW", "Crewe"); ("CF", "Cardiff"); ("NP", "Newport");
   ("SA", "Swansea"); ("LD", "Llandrindod Wells"); ("SY", "Shrewsbury");
   ("LL", "Llandudno"); ("AB", "Aberdeen"); ("DD", "Dundee");
   ("EH", "Edinburgh"); ("FK", "Falkirk"); ("G", "Glasgow");
   ("IV", "Inverness"); ("KA", "Kilmarnock"); ("KY", "Kirkcaldy");
   ("ML", "Motherwell"); ("PA", "Paisley"); ("PH", "Perth");
   ("BT", "Belfast")].

Definition postcodeAreas : gmap string string :=
  list_to_map postcodeAreas_entries.

(** [postcode.match(/^([A-Z]{1,2})/)?.[1]] *)
Definition area (postcode : string) : option string :=
  match chars postcode with
  | c :: rest =>
      if is_upper c
      then match rest with
           | c' :: _ => if is_upper c' then Some (str [c; c']) else Some (str [c])
           | [] => Some (str [c])
           end
      else None
  | [] => None
  end.

(** [[0-9]{1,2}] after the letters [pre] *)
Definition digits12 (pre rest : list ascii) : option string :=
  match rest with
  | d :: rest' =>
      if is_digit d
      then match rest' with
           | d' :: _ => if is_digit d' then Some (str (pre ++ [d; d'])%list)
                        else Some (str (pre ++ [d])%list)
           | [] => Some (str (pre ++ [d])%list)
           end
      else None
  | [] => None
  end.

(** [postcode.match(/^([A-Z]{1,2}[0-9]{1,2})/)?.[1]] *)
Definition longerArea (postcode : string) : option string :=
  match chars postcode with
  | c :: rest =>
      if is_upper c
      then match rest with
           | c' :: rest' =>
               if is_upper c' then digits12 [c; c'] rest' else digits12 [c] rest
           | [] => None
           end
      else None
  | [] => None
  end.

(** [key && postcodeAreas[key]], when truthy *)
Definition lookupArea (key : option string) : option string :=
  match key with
  | Some k =>
      if String.eqb k "" then None
      else match postcodeAreas !! k with
           | Some city => if String.eqb city "" then None else Some city
           | None => None
           end
  | None => None
  end.

Definition getNearbyCityForPostcode (postcode : string) : string :=
  match lookupArea (area postcode) with
  | Some city => city
  | None =>
      match lookupArea (longerArea postcode) with
      | Some city => city
      | None => "United Kingdom"
      end
  end.

Definition cleanLocation (location : string) : completion string :=
  if String.eqb location "" then Throw "Location is required"
  else
    let cleaned := trim location in
    if ukConfig.postcodeRegex_test cleaned
    then
      let cleaned := replace_ws (toUpperCase cleaned) in
      let cleaned :=
        if Nat.ltb 3 (String.length cleaned) && negb (includes_space cleaned)
        then slice_front3 cleaned ++ " " ++ slice_last3 cleaned
        else cleaned in
      Return (getNearbyCityForPostcode cleaned)
    else
      let cleaned := substring0 100 (replace_ws cleaned) in
      if Nat.ltb (String.length cleaned) 2
      then Throw "Location must be at least 2 characters long"
      else Return cleaned.

(** [getAllCurrentWeather]: here [results] and [apiErrors] are arrays,
    filled by [push] in the order in which the callbacks finish. *)
Definition push (now cleanLocation : string)
    (acc : list (string * jsval) * list (string * string)) (entry : string * service)
  : list (string * jsval) * list (string * string) :=
  let '(results, apiErrors) := acc in
  let '(name, service) := entry in
  match settle now cleanLocation service with
  | inr standardized => ((results ++ [(name, standardized)])%list, apiErrors)
  | inl message => (results, (apiErrors ++ [(name, message)])%list)
  end.

Inductive response : Type :=
| ServiceUnavailable (error : string) (location : string)
                     (errors : list (string * string))
| Success (location : string) (results : list (string * jsval))
          (errors : option (list (string * string)))
          (totalSources successfulSources failedSources : nat).

(** The request is taken to have passed [validationResult]. *)
Definition getAllCurrentWeather (now location : string)
    (settled : list (string * service)) : completion response :=
  let* cleanLocation := cleanLocation location in
  let '(results, apiErrors) :=
    fold_left (push now cleanLocation) settled ([], []) in
  if Nat.eqb (length results) 0
  then Return (ServiceUnavailable "No weather data available" cleanLocation apiErrors)
  else Return (Success cleanLocation results
                 (if Nat.ltb 0 (length apiErrors) then Some apiErrors else None)
                 (length settled) (length results) (length apiErrors)).

(** What a route handler wrapped in [asyncHandler] ends with: a response
    it sends itself, or an error handed to [next]. *)
Inductive reply : Type :=
| Json (status : Z) (body : jsval)
| Next (error : ErrorHandler.jsError).

(** The [switch (source.toLowerCase())] of [getCurrentWeather] and
    [getForecast], with [service.name] beside the service it picks. *)
Definition select (source : string)
    (openWeatherService weatherApiService accuWeatherService : service)
  : option (string * service) :=
  let source := toLowerCase source in
  if String.eqb source "openweather" || String.eqb source "openweathermap"
  then Some ("OpenWeatherMap", openWeatherService)
  else if String.eqb source "weatherapi"
  then Some ("WeatherAPI", weatherApiService)
  else if String.eqb source "accuweather"
  then Some ("AccuWeather", accuWeatherService)
  else None.

(** [getCurrentWeather]: [valid] is [validationResult(req).isEmpty()],
    [source] is [req.query.source], a string or missing; [now] and [now']
    are the two readings of the clock.  What is thrown is kept by its
    message: it is an [Error], or the [TypeError] of the [Weather]
    constructor, which the error handler does not tell apart. *)
Definition getCurrentWeather (now now' : string) (valid : bool) (location : string)
    (source : option string)
    (openWeatherService weatherApiService accuWeatherService : service) : reply :=
  if negb valid then Next ErrorHandler.validationErrorHandler
  else
    match cleanLocation location with
    | Throw message => Next (ErrorHandler.Error message)
    | Return cleanLocation =>
        let source := match source with Some source => source | None => "openweather" end in
        match select source openWeatherService weatherApiService accuWeatherService with
        | None =>
            Json 400 (JObject [
              ("error", JString "Invalid weather source");
              ("message", JString ("Source '" ++ source ++ "' is not supported"));
              ("supportedSources", JArray [JString "openweather"; JString "weatherapi";
                                           JString "accuweather"])])
        | Some (name, service) =>
            if negb (isAvailable service)
            then Json 503 (JObject [
                   ("error", JString "Service unavailable");
                   ("message",
                    JString (name ++ " is not available (API key not configured)"));
                   ("source", JString name)])
            else
              match
                (let* rawData := getCurrentWeather service cleanLocation in
                 let* weatherData := Weather.new now rawData in
                 if negb (Weather.isValid weatherData)
                 then Return None
                 else let* standardized := Weather.getStandardized weatherData in
                      Return (Some standardized))
              with
              | Throw message => Next (ErrorHandler.Error message)
              | Return None => Next (ErrorHandler.locationNotFoundError cleanLocation)
              | Return (Some standardized) =>
                  Json 200 (JObject [
                    ("success", JBool true);
                    ("data", standardized);
                    ("source", JString name);
                    ("location", JString cleanLocation);
                    ("timestamp", JString now');
                    ("cached", JBool false)])
              end
        end
    end.

End WeatherController.

(** ** models/QueryLog.js and services/loggerService.js *)

(** A query-log entry, with the fields the statistics read.  [responseTime]
    is [None] when the property is missing ([undefined] or [null]). *)
Record QueryLogEntry : Type := {
  apiName : string;
  responseTime : option Q;
  status : string
}.

(** [log.responseTime || 0] *)
Definition responseTime_or_0 (log : QueryLogEntry) : Q :=
  match responseTime log with
  | Some time => if Qeq_bool time 0 then 0 else time
  | None => 0
  end.

(** [time > 0] *)
Definition positive (time : Q) : bool :=
  match (0 ?= time)%Q with Lt => true | _ => false end.

Module QueryLog.

Definition calculateMedian (values : list Q) : Q :=
  if Nat.eqb (length values) 0 then 0
  else
    let sorted := sort values in
    let middle := Math.floor_half (length sorted) in
    if Nat.eqb (length sorted mod 2) 0
    then inject_Z (Math.round ((at_index sorted (middle - 1) + at_index sorted middle) / 2))
    else at_index sorted middle.

Record Stats : Type := {
  total : nat;
  successful : nat;
  failed : nat;
  successRate : Z;
  averageResponseTime : Z;
  medianResponseTime : Q;
  minResponseTime : Q;
  maxResponseTime : Q
}.

(** The local [responseTimes] of [calculateStats]. *)
Definition responseTimes (logs : list QueryLogEntry) : list Q :=
  sort (List.filter positive (List.map responseTime_or_0 logs)).

Definition calculateStats (logs : list QueryLogEntry) : Stats :=
  if Nat.eqb (length logs) 0
  then {| total := 0; successful := 0; failed := 0; successRate := 0;
          averageResponseTime := 0; medianResponseTime := 0;
          minResponseTime := 0; maxResponseTime := 0 |}
  else
    let responseTimes := responseTimes logs in
    let successful :=
      length (List.filter (fun log => String.eqb (status log) "success") logs) in
    let failed :=
      length (List.filter (fun log => String.eqb (status log) "error") logs) in
    {| total := length logs;
       successful := successful;
       failed := failed;
       successRate :=
         if Nat.ltb 0 (length logs)
         then Math.round
                (Float64.mul
                   (Float64.div (inject_Z (Z.of_nat successful))
                                (inject_Z (Z.of_nat (length logs)))) 100)
         else 0%Z;
       averageResponseTime :=
         if Nat.ltb 0 (length responseTimes)
         then Math.round (sum responseTimes / len responseTimes)
         else 0%Z;
       medianResponseTime :=
         if Nat.ltb 0 (length responseTimes)
         then calculateMedian responseTimes
         else 0;
       minResponseTime :=
         match responseTimes with
         | first :: others => Math.min first others
         | [] => 0
         end;
       maxResponseTime :=
         match responseTimes with
         | first :: others => Math.max first others
         | [] => 0
         end |}.


(** [calculateApiBreakdown]: the entry of one API while the logs are
    read, and the entry it returns. *)
Module Running.
Record t : Type := {
  total : nat;
  successful : nat;
  failed : nat;
  totalResponseTime : Q;
  responseTimes : list Q
}.
End Running.

Module Api.
Record t : Type := {
  total : nat;
  successful : nat;
  failed : nat;
  successRate : Z;
  averageResponseTime : Z;
  medianResponseTime : Q
}.
End Api.

(** [log.apiName || 'unknown'] *)
Definition apiNameOf (log : QueryLogEntry) : string :=
  if String.eqb (apiName log) "" then "unknown" else apiName log.

(** The body of [logs.forEach(log => ...)]. *)
Definition tally (breakdown : gmap string Running.t) (log : QueryLogEntry)
  : gmap string Running.t :=
  let apiName := apiNameOf log in
  let api :=
    match breakdown !! apiName with
    | Some api => api
    | None => {| Running.total := 0; Running.successful := 0; Running.failed := 0;
                 Running.totalResponseTime := 0; Running.responseTimes := [] |}
    end in
  <[apiName :=
      {| Running.total := S (Running.total api);
         Running.successful :=
           if String.eqb (status log) "success"
           then S (Running.successful api) else Running.successful api;
         Running.failed :=
           if String.eqb (status log) "success"
           then Running.failed api else S (Running.failed api);
         Running.totalResponseTime :=
           Running.totalResponseTime api + responseTime_or_0 log;
         Running.responseTimes :=
           (Running.responseTimes api ++ [responseTime_or_0 log])%list |}]> breakdown.

(** The body of [Object.keys(breakdown).forEach(apiName => ...)]. *)
Definition finish (api : Running.t) : Api.t :=
  {| Api.total := Running.total api;
     Api.successful := Running.successful api;
     Api.failed := Running.failed api;
     Api.successRate :=
       if Nat.ltb 0 (Running.total api)
       then Math.round
              (Float64.mul
                 (Float64.div (inject_Z (Z.of_nat (Running.successful api)))
                              (inject_Z (Z.of_nat (Running.total api)))) 100)
       else 0%Z;
     Api.averageResponseTime :=
       if Nat.ltb 0 (Running.total api)
       then Math.round
              (Running.totalResponseTime api / inject_Z (Z.of_nat (Running.total api)))
       else 0%Z;
     Api.medianResponseTime :=
       calculateMedian (List.filter positive (Running.responseTimes api)) |}.

(** [None] when an API name is one of the inherited names. *)
Definition calculateApiBreakdown (logs : list QueryLogEntry)
  : option (gmap string Api.t) :=
  if existsb (fun log => is_inherited (apiNameOf log)) logs then None
  else Some (finish <$> fold_left tally logs ∅).

(** [filterByApi] and [filterByStatus] *)
Definition filterByApi (logs : list QueryLogEntry) (name : string)
  : list QueryLogEntry :=
  List.filter (fun log => String.eqb (apiName log) name) logs.

Definition filterByStatus (logs : list QueryLogEntry) (wanted : string)
  : list QueryLogEntry :=
  List.filter (fun log => String.eqb (status log) wanted) logs.


(** [toCsvRow].  The seven values of a row, in order [timestamp],
    [apiName], [location], [queryParams], [responseTime], [status] and
    [errorMessage], are given as the strings [String(value)] makes of
    them, [None] standing for [null] and [undefined]. *)
Definition comma : ascii := ascii_of_nat 44.
Definition quote : ascii := ascii_of_nat 34.
Definition lineFeed : ascii := ascii_of_nat 10.

(** The [replace] of [escape]: every double quote is written twice. *)
Fixpoint doubleQuotes (l : list ascii) : list ascii :=
  match l with
  | [] => []
  | c :: rest =>
      if Ascii.eqb c quote then quote :: quote :: doubleQuotes rest
      else c :: doubleQuotes rest
  end.

Definition special (c : ascii) : bool :=
  Ascii.eqb c comma || Ascii.eqb c quote || Ascii.eqb c lineFeed.

Definition escape (value : option string) : string :=
  match value with
  | None => EmptyString
  | Some s =>
      if existsb special (chars s)
      then str (quote :: doubleQuotes (chars s) ++ [quote])%list
      else s
  end.

(** [array.join(',')] *)
Fixpoint join (fields : list string) : string :=
  match fields with
  | [] => EmptyString
  | [field] => field
  | field :: rest => field ++ String comma (join rest)
  end.

Definition toCsvRow (values : list (option string)) : string :=
  join (List.map escape values).

End QueryLog.

Module LoggerService.

(** The counters of [getQueryStats]; its per-API, per-location and per-day
    breakdowns are left out.  The rows read [response_time] where
    [QueryLog] reads [responseTime]. *)
Record QueryStats : Type := {
  totalQueries : nat;
  successfulQueries : nat;
  failedQueries : nat;
  averageResponseTime : Z;
  successRate : Z
}.

Definition getQueryStats (logs : list QueryLogEntry) : QueryStats :=
  let successfulQueries :=
    length (List.filter (fun log => String.eqb (status log) "success") logs) in
  let failedQueries :=
    length (List.filter (fun log => String.eqb (status log) "error") logs) in
  if Nat.ltb 0 (length logs)
  then
    let totalResponseTime :=
      fold_left (fun sum log => sum + responseTime_or_0 log) logs 0 in
    {| totalQueries := length logs;
       successfulQueries := successfulQueries;
       failedQueries := failedQueries;
       averageResponseTime := Math.round (totalResponseTime / inject_Z (Z.of_nat (length logs)));
       successRate :=
         Math.round
           (Float64.mul
              (Float64.div (inject_Z (Z.of_nat successfulQueries))
                           (inject_Z (Z.of_nat (length logs)))) 100) |}
  else
    {| totalQueries := length logs;
       successfulQueries := successfulQueries;
       failedQueries := failedQueries;
       averageResponseTime := 0;
       successRate := 0 |}.

End LoggerService.

(** ** The provider services: circuit breaker and wind speed

    [getCurrentWeather] has the same text in the OpenWeatherMap and the
    WeatherAPI service, up to the service name and the wording of its
    errors; the AccuWeather service has one more step, the location search
    (see [AccuWeatherService.getCurrentWeather]). *)

Inductive breakerState : Type := CLOSED | OPEN | HALF_OPEN.

Record circuitBreaker : Type := {
  failures : nat;
  lastFailureTime : option Z;
  state : breakerState
}.

(** The breaker a service is constructed with. *)
Definition initialBreaker : circuitBreaker :=
  {| failures := 0; lastFailureTime := None; state := CLOSED |}.

Record provider : Type := {
  name : string;
  notConfigured : string;
  errorPrefix : string
}.

(** Where the [try] block of a call stops. *)
Inductive attempt : Type :=
| CacheHit (cachedData : jsval)
| Fetched (responseData : jsval)
| CacheReadFails (message : string)
| TransportFails (message : string)
| TransformFails (message : string)
| CacheWriteFails (message : string).

(** One call: [Date.now()] when it starts, the time it takes, and what its
    collaborators (cache, transport) do. *)
Record call : Type := {
  startTime : Z;
  duration : Z;
  outcome : attempt
}.

(** What a call does to its collaborators, in order. *)
Inductive event : Type :=
| CacheGet
| HttpGet
| CacheSet
| LogQuery (status : string) (responseTime : Z).

Definition circuitOpenMessage : string :=
  "Circuit breaker is OPEN - service temporarily unavailable".

(** [Date.now() - this.circuitBreaker.lastFailureTime]; [null] counts as 0. *)
Definition timeSinceFailure (cb : circuitBreaker) (now : Z) : Z :=
  (now - match lastFailureTime cb with Some t => t | None => 0 end)%Z.

(** The [if (this.circuitBreaker.state === 'OPEN')] block. *)
Definition gate (cb : circuitBreaker) (now : Z) : completion circuitBreaker :=
  match state cb with
  | OPEN =>
      if (timeSinceFailure cb now <? 60000)%Z
      then Throw circuitOpenMessage
      else Return {| failures := failures cb;
                     lastFailureTime := lastFailureTime cb;
                     state := HALF_OPEN |}
  | _ => Return cb
  end.

(** The [catch] block; [status] is the local of that name when the
    block is entered. *)
Definition recordFailure (p : provider) (cb : circuitBreaker) (c : call)
    (status message : string) (done : list event)
  : circuitBreaker * completion jsval * list event :=
  let failures := S (failures cb) in
  ({| failures := failures;
      lastFailureTime := Some (startTime c + duration c)%Z;
      state := if Nat.leb 5 failures then OPEN else state cb |},
   Throw (errorPrefix p ++ message),
   (done ++ [LogQuery status (duration c)])%list).

(** The [try] block.  [status] is 'error' until the transport has
    answered and 'success' from then on, also when the transformation or
    the cache write throws afterwards. *)
Definition tryFetch (p : provider) (cb : circuitBreaker) (c : call)
  : circuitBreaker * completion jsval * list event :=
  match outcome c with
  | CacheHit cachedData =>
      (cb, Return cachedData, [CacheGet; LogQuery "success" 0])
  | Fetched responseData =>
      ({| failures := 0; lastFailureTime := lastFailureTime cb; state := CLOSED |},
       Return responseData,
       [CacheGet; HttpGet; CacheSet; LogQuery "success" (duration c)])
  | CacheReadFails message => recordFailure p cb c "error" message [CacheGet]
  | TransportFails message => recordFailure p cb c "error" message [CacheGet; HttpGet]
  | TransformFails message => recordFailure p cb c "success" message [CacheGet; HttpGet]
  | CacheWriteFails message =>
      recordFailure p cb c "success" message [CacheGet; HttpGet; CacheSet]
  end.

Definition callCurrentWeather (p : provider) (available : bool)
    (cb : circuitBreaker) (c : call)
  : circuitBreaker * completion jsval * list event :=
  if negb available then (cb, Throw (notConfigured p), [])
  else
    match gate cb (startTime c) with
    | Throw message => (cb, Throw message, [])
    | Return cb' => tryFetch p cb' c
    end.

(** A sequence of calls on one service, oldest first. *)
Fixpoint callsCurrentWeather (p : provider) (cb : circuitBreaker) (calls : list call)
  : circuitBreaker :=
  match calls with
  | [] => cb
  | c :: rest => callsCurrentWeather p (fst (fst (callCurrentWeather p true cb c))) rest
  end.

(** [current.wind.speed] of a normalized record. *)
Record windSpeed : Type := { mps : Q; mph : Q; kmh : Q }.

Module OpenWeatherService.

Definition this : provider :=
  {| name := "OpenWeatherMap";
     notConfigured := "OpenWeatherMap API key not configured";
     errorPrefix := "OpenWeatherMap API error: " |}.

Definition getCurrentWeather := callCurrentWeather this.

(** [wind.speed] in [transformCurrentWeatherData]; [speed] is
    [data.wind.speed], in metres per second. *)
Definition transformWindSpeed (speed : Q) : windSpeed :=
  {| mps := speed;
     mph := Float64.round2 (Float64.mul speed (Float64.fl (2237 # 1000)));
     kmh := Float64.round2 (Float64.mul speed (Float64.fl (36 # 10))) |}.


(** What [transformCurrentWeatherData] reads of a current-weather
    payload: the values it computes with are numbers, the others are
    passed on as they are.  [visibility] and [gust] are [None] when the
    property is missing; [main], [description] and [icon] are those of
    [data.weather[0]].  A payload that lacks one of the objects read from
    makes the function throw and has no such record. *)
Record CurrentData : Type := {
  city : jsval;
  country : jsval;
  lat : jsval;
  lon : jsval;
  temp : Q;
  feels_like : Q;
  humidity : jsval;
  pressure : Q;
  visibility : option Q;
  speed : Q;
  deg : jsval;
  gust : option Q;
  main : jsval;
  description : jsval;
  icon : jsval;
  clouds : jsval;
  dt : Q;
  sunrise : Q;
  sunset : Q
}.

(** [toISOString] stands for [ms => new Date(ms).toISOString()]. *)
Definition transformCurrentWeatherData (toISOString : Q -> string) (data : CurrentData)
  : jsval :=
  JObject [
    ("location", JObject [
       ("name", city data);
       ("country", country data);
       ("coordinates", JObject [("lat", lat data); ("lon", lon data)])]);
    ("current", JObject [
       ("temperature", JObject [
          ("celsius", JNumber (inject_Z (Math.round (temp data))));
          ("fahrenheit", JNumber (inject_Z (Math.round (temp data * 9 / 5 + 32))));
          ("feelsLike", JObject [
             ("celsius", JNumber (inject_Z (Math.round (feels_like data))));
             ("fahrenheit",
              JNumber (inject_Z (Math.round (feels_like data * 9 / 5 + 32))))])]);
       ("humidity", humidity data);
       ("pressure", JObject [
          ("hPa", JNumber (pressure data));
          ("inHg", JNumber (round2 (pressure data * (2953 # 100000))))]);
       ("visibility",
        match visibility data with
        | Some meters =>
            if Qeq_bool meters 0 then JNull
            else JObject [("meters", JNumber meters);
                          ("miles", JNumber (round2 (meters * (621371 # 1000000000))))]
        | None => JNull
        end);
       ("wind", JObject [
          ("speed", JObject [
             ("mps", JNumber (mps (transformWindSpeed (speed data))));
             ("mph", JNumber (mph (transformWindSpeed (speed data))));
             ("kmh", JNumber (kmh (transformWindSpeed (speed data))))]);
          ("direction", deg data);
          ("gust",
           match gust data with
           | Some gust =>
               if Qeq_bool gust 0 then JNull
               else JObject [("mps", JNumber gust);
                             ("mph", JNumber (round2 (gust * (2237 # 1000))))]
           | None => JNull
           end)]);
       ("weather", JObject [
          ("main", main data);
          ("description", description data);
          ("icon", icon data)]);
       ("clouds", clouds data);
       ("uv", JNull)]);
    ("timestamp", JString (toISOString (dt data * 1000)));
    ("sunrise", JString (toISOString (sunrise data * 1000)));
    ("sunset", JString (toISOString (sunset data * 1000)));
    ("source", JString "OpenWeatherMap")].


(** [transformForecastData]: the daily entries built from the three-hour
    items of [data.list]. *)
Module Forecast.

(** What is read of an item.  [day] is the UTC day of [item.dt], which the
    code handles as the date part of its ISO string; [precipitation] is
    the value of [item.rain ? item.rain['3h'] || 0 : 0]; [main],
    [description] and [icon] are those of [item.weather[0]]. *)
Module Item.
Record t : Type := {
  day : Z;
  temp : Q;
  temp_min : Q;
  temp_max : Q;
  main : jsval;
  description : jsval;
  icon : jsval;
  humidity : jsval;
  pressure : Q;
  speed : Q;
  deg : jsval;
  clouds : jsval;
  precipitation : jsval
}.
End Item.

Record Range : Type := { min : Q; max : Q }.

(** An entry of [dailyForecasts]; [temperature] holds [temperature.min]
    and [temperature.max], [speed_mps] and [speed_mph] are
    [wind.speed.mps] and [wind.speed.mph]. *)
Record Day : Type := {
  date : Z;
  temperature : Range;
  celsius : Range;
  fahrenheit : Range;
  weather : jsval;
  humidity : jsval;
  hPa : Q;
  inHg : Q;
  speed_mps : Q;
  speed_mph : Q;
  direction : jsval;
  clouds : jsval;
  precipitation : jsval
}.

(** The branch [if (!dailyForecasts[date])]. *)
Definition create (item : Item.t) : Day :=
  {| date := Item.day item;
     temperature := {| min := Item.temp item; max := Item.temp item |};
     celsius := {| min := inject_Z (Math.round (Item.temp_min item));
                   max := inject_Z (Math.round (Item.temp_max item)) |};
     fahrenheit :=
       {| min := inject_Z (Math.round (Item.temp_min item * 9 / 5 + 32));
          max := inject_Z (Math.round (Item.temp_max item * 9 / 5 + 32)) |};
     weather := JObject [("main", Item.main item);
                         ("description", Item.description item);
                         ("icon", Item.icon item)];
     humidity := Item.humidity item;
     hPa := Item.pressure item;
     inHg := round2 (Item.pressure item * (2953 # 100000));
     speed_mps := Item.speed item;
     speed_mph := round2 (Item.speed item * (2237 # 1000));
     direction := Item.deg item;
     clouds := Item.clouds item;
     precipitation := Item.precipitation item |}.

(** The branch [else]: only the six extremes change. *)
Definition update (entry : Day) (item : Item.t) : Day :=
  {| date := date entry;
     temperature := {| min := Qmin (min (temperature entry)) (Item.temp item);
                       max := Qmax (max (temperature entry)) (Item.temp item) |};
     celsius :=
       {| min := Qmin (min (celsius entry)) (inject_Z (Math.round (Item.temp_min item)));
          max := Qmax (max (celsius entry)) (inject_Z (Math.round (Item.temp_max item))) |};
     fahrenheit :=
       {| min := Qmin (min (fahrenheit entry))
                      (inject_Z (Math.round (Item.temp_min item * 9 / 5 + 32)));
          max := Qmax (max (fahrenheit entry))
                      (inject_Z (Math.round (Item.temp_max item * 9 / 5 + 32))) |};
     weather := weather entry;
     humidity := humidity entry;
     hPa := hPa entry;
     inHg := inHg entry;
     speed_mps := speed_mps entry;
     speed_mph := speed_mph entry;
     direction := direction entry;
     clouds := clouds entry;
     precipitation := precipitation entry |}.

(** The callback of [data.list.forEach], on the entries of
    [dailyForecasts] in the order in which their dates were added. *)
Fixpoint add (dailyForecasts : list Day) (item : Item.t) : list Day :=
  match dailyForecasts with
  | [] => [create item]
  | entry :: rest =>
      if Z.eqb (date entry) (Item.day item) then update entry item :: rest
      else entry :: add rest item
  end.

(** The [forecast] array of the result: [Object.values(dailyForecasts)]
    once every item has been read. *)
Definition transformForecastData (items : list Item.t) : list Day :=
  fold_left add items [].

End Forecast.

End OpenWeatherService.

Module WeatherApiService.

Definition this : provider :=
  {| name := "WeatherAPI";
     notConfigured := "WeatherAPI key not configured";
     errorPrefix := "WeatherAPI error: " |}.

Definition getCurrentWeather := callCurrentWeather this.

(** [wind.speed] in [transformCurrentWeatherData], from
    [current.wind_mph] and [current.wind_kph]. *)
Definition transformWindSpeed (wind_mph wind_kph : Q) : windSpeed :=
  {| mph := wind_mph;
     kmh := wind_kph;
     mps := Float64.round2 (Float64.div wind_kph (Float64.fl (36 # 10))) |}.


(** What [transformCurrentWeatherData] reads: [data.location] and
    [data.current] are passed on field by field, except for the
    temperatures and the wind speed, which are numbers it computes
    with; [text], [icon] and [code] are those of [current.condition]. *)
Record CurrentData : Type := {
  location : jsval;
  temp_c : Q;
  temp_f : Q;
  feelslike_c : Q;
  feelslike_f : Q;
  wind_mph : Q;
  wind_kph : Q;
  text : jsval;
  icon : jsval;
  code : jsval;
  current : jsval
}.

(** [now] is [new Date().toISOString()]. *)
Definition transformCurrentWeatherData (now : string) (data : CurrentData) : jsval :=
  let current := current data in
  let location := location data in
  JObject [
    ("location", JObject [
       ("name", location ~> "name");
       ("country", location ~> "country");
       ("region", location ~> "region");
       ("coordinates", JObject [("lat", location ~> "lat"); ("lon", location ~> "lon")]);
       ("timezone", location ~> "tz_id");
       ("localtime", location ~> "localtime")]);
    ("current", JObject [
       ("temperature", JObject [
          ("celsius", JNumber (inject_Z (Math.round (temp_c data))));
          ("fahrenheit", JNumber (inject_Z (Math.round (temp_f data))));
          ("feelsLike", JObject [
             ("celsius", JNumber (inject_Z (Math.round (feelslike_c data))));
             ("fahrenheit", JNumber (inject_Z (Math.round (feelslike_f data))))])]);
       ("humidity", current ~> "humidity");
       ("pressure", JObject [
          ("hPa", current ~> "pressure_mb");
          ("inHg", current ~> "pressure_in")]);
       ("visibility", JObject [
          ("km", current ~> "vis_km");
          ("miles", current ~> "vis_miles")]);
       ("wind", JObject [
          ("speed", JObject [
             ("mph", JNumber (mph (transformWindSpeed (wind_mph data) (wind_kph data))));
             ("kmh", JNumber (kmh (transformWindSpeed (wind_mph data) (wind_kph data))));
             ("mps", JNumber (mps (transformWindSpeed (wind_mph data) (wind_kph data))))]);
          ("direction", current ~> "wind_degree");
          ("directionText", current ~> "wind_dir");
          ("gust", JObject [
             ("mph", current ~> "gust_mph");
             ("kmh", current ~> "gust_kph")])]);
       ("weather", JObject [
          ("main", text data);
          ("description", text data);
          ("icon", icon data);
          ("code", code data)]);
       ("clouds", current ~> "cloud");
       ("uv", current ~> "uv");
       ("airQuality",
        if truthy (current ~> "air_quality")
        then JObject [
          ("co", current ~> "air_quality" ~> "co");
          ("no2", current ~> "air_quality" ~> "no2");
          ("o3", current ~> "air_quality" ~> "o3");
          ("so2", current ~> "air_quality" ~> "so2");
          ("pm2_5", current ~> "air_quality" ~> "pm2_5");
          ("pm10", current ~> "air_quality" ~> "pm10");
          ("usEpaIndex", current ~> "air_quality" ~> "us-epa-index");
          ("gbDefraIndex", current ~> "air_quality" ~> "gb-defra-index")]
        else JNull)]);
    ("timestamp", JString now);
    ("source", JString "WeatherAPI")].

End WeatherApiService.

Module AccuWeatherService.

Definition this : provider :=
  {| name := "AccuWeather";
     notConfigured := "AccuWeather API key not configured";
     errorPrefix := "AccuWeather API error: " |}.

(** [wind.speed] in [transformCurrentWeatherData], from
    [wind.Speed.Metric.Value] and [wind.Speed.Imperial.Value]. *)
Definition transformWindSpeed (metric imperial : Q) : windSpeed :=
  {| kmh := metric;
     mph := imperial;
     mps := Float64.round2 (Float64.div metric (Float64.fl (36 # 10))) |}.


(** [getLocationKey]: [locationCache] is the [Map] of the service, a call
    comes with what the location search does and the time it takes. *)
Inductive search : Type :=
| SearchFails (message : string)
| SearchReturns (data : jsval).

(** [data[0]] for a truthy [data] with [data.length > 0] *)
Definition first (data : jsval) : jsval :=
  match data with
  | JArray (item :: _) => item
  | JString (String c _) => JString (String c EmptyString)
  | JObject props => assoc "0" props
  | _ => JUndefined
  end.

(** The object stored in the cache. *)
Definition locationEntry (locationData : jsval) : completion jsval :=
  let* locationKey := member locationData "Key" in
  let* name := member locationData "LocalizedName" in
  let* Country := member locationData "Country" in
  let* country := member Country "LocalizedName" in
  let* GeoPosition := member locationData "GeoPosition" in
  let* lat := member GeoPosition "Latitude" in
  let* GeoPosition' := member locationData "GeoPosition" in
  let* lon := member GeoPosition' "Longitude" in
  Return (JObject [("key", locationKey);
                   ("name", name);
                   ("country", country);
                   ("coordinates", JObject [("lat", lat); ("lon", lon)])]).

Definition getLocationKey (locationCache : gmap string jsval) (location : string)
    (outcome : search) (duration : Z)
  : gmap string jsval * completion jsval * list event :=
  match locationCache !! location with
  | Some cached => (locationCache, Return cached, [])
  | None =>
      let failed message :=
        (locationCache,
         Throw ("AccuWeather location search error: " ++ message),
         [HttpGet; LogQuery "error" duration]) in
      match outcome with
      | SearchFails message => failed message
      | SearchReturns data =>
          if truthy data && length_positive data
          then
            match locationEntry (first data) with
            | Return entry =>
                (<[location := entry]> locationCache,
                 Return entry,
                 [HttpGet; LogQuery "success" duration])
            | Throw message => failed message
            end
          else failed "Location not found"
      end
  end.


(** [getCurrentWeather]: as in the other two services, with the location
    search between the cache read and the request.  [lookup] and
    [lookupDuration] are what [getLocationKey] meets if it is called; a
    failed search is caught like a failed request, before [status] is set
    to 'success'. *)
Definition getCurrentWeather (available : bool) (locationCache : gmap string jsval)
    (location : string) (cb : circuitBreaker) (c : call)
    (lookup : search) (lookupDuration : Z)
  : gmap string jsval * (circuitBreaker * completion jsval * list event) :=
  if negb available then (locationCache, (cb, Throw (notConfigured this), []))
  else
    match gate cb (startTime c) with
    | Throw message => (locationCache, (cb, Throw message, []))
    | Return cb' =>
        match outcome c with
        | CacheHit _ | CacheReadFails _ => (locationCache, tryFetch this cb' c)
        | reached =>
            let '(locationCache', locationData, searched) :=
              getLocationKey locationCache location lookup lookupDuration in
            let done := (CacheGet :: searched)%list in
            (locationCache',
             match locationData with
             | Throw message => recordFailure this cb' c "error" message done
             | Return _ =>
                 match reached with
                 | Fetched responseData =>
                     ({| failures := 0;
                         lastFailureTime := lastFailureTime cb';
                         state := CLOSED |},
                      Return responseData,
                      (done ++ [HttpGet; CacheSet; LogQuery "success" (duration c)])%list)
                 | TransportFails message =>
                     recordFailure this cb' c "error" message (done ++ [HttpGet])%list
                 | TransformFails message =>
                     recordFailure this cb' c "success" message (done ++ [HttpGet])%list
                 | CacheWriteFails message =>
                     recordFailure this cb' c "success" message
                       (done ++ [HttpGet; CacheSet])%list
                 | _ => tryFetch this cb' c
                 end
             end)
        end
    end.

(** What [transformCurrentWeatherData] reads of [response.data[0]]: the
    temperatures, the pressure and the metric wind speed are numbers it
    computes with, the others are passed on.  [Temperature],
    [RealFeelTemperature] and [WindSpeed] hold the metric and the imperial
    value; so do [Pressure] and [Visibility], which are [None] when the
    property is missing.  [Degrees] and [Localized] are those of
    [Wind.Direction]. *)
Record CurrentData : Type := {
  Temperature : Q * Q;
  RealFeelTemperature : Q * Q;
  RelativeHumidity : jsval;
  Pressure : option (Q * Q);
  Visibility : option (jsval * jsval);
  WindSpeed : Q * Q;
  Degrees : jsval;
  Localized : jsval;
  WeatherText : jsval;
  WeatherIcon : jsval;
  UVIndex : jsval;
  CloudCover : jsval;
  LocalObservationDateTime : jsval
}.

Definition transformCurrentWeatherData (data : CurrentData) (locationData : jsval)
  : jsval :=
  let wind := transformWindSpeed (fst (WindSpeed data)) (snd (WindSpeed data)) in
  JObject [
    ("location", JObject [
       ("name", locationData ~> "name");
       ("country", locationData ~> "country");
       ("coordinates", locationData ~> "coordinates")]);
    ("current", JObject [
       ("temperature", JObject [
          ("celsius", JNumber (inject_Z (Math.round (fst (Temperature data)))));
          ("fahrenheit", JNumber (inject_Z (Math.round (snd (Temperature data)))));
          ("feelsLike", JObject [
             ("celsius", JNumber (inject_Z (Math.round (fst (RealFeelTemperature data)))));
             ("fahrenheit",
              JNumber (inject_Z (Math.round (snd (RealFeelTemperature data)))))])]);
       ("humidity", RelativeHumidity data);
       ("pressure",
        match Pressure data with
        | Some (metric, imperial) =>
            JObject [("hPa", JNumber (inject_Z (Math.round metric)));
                     ("inHg", JNumber (round2 imperial))]
        | None => JNull
        end);
       ("visibility",
        match Visibility data with
        | Some (metric, imperial) => JObject [("km", metric); ("miles", imperial)]
        | None => JNull
        end);
       ("wind", JObject [
          ("speed", JObject [
             ("kmh", JNumber (kmh wind));
             ("mph", JNumber (mph wind));
             ("mps", JNumber (mps wind))]);
          ("direction", Degrees data);
          ("directionText", Localized data)]);
       ("weather", JObject [
          ("main", WeatherText data);
          ("description", WeatherText data);
          ("icon", WeatherIcon data)]);
       ("uv", UVIndex data);
       ("cloudCover", CloudCover data)]);
    ("timestamp", LocalObservationDateTime data);
    ("source", JString "AccuWeather")].

End AccuWeatherService.

(** ** Records used in the statements *)

(** A canonical record of provider [source] with the given [current]
    block; two such records with the same block differ only by source. *)
Definition recordOf (source : string) (current : jsval) : Weather.t :=
  {| Weather.location :=
       JObject [("name", JString "London");
                ("coordinates", JObject [("lat", JNumber (515 # 10));
                                         ("lon", JNumber (- (1 # 10)))])];
     Weather.current := current;
     Weather.forecast := JArray [];
     Weather.source := JString source;
     Weather.timestamp := JString "2024-01-01T00:00:00.000Z" |}.

Definition withCelsius (celsius : Q) : jsval :=
  JObject [("temperature", JObject [("celsius", JNumber celsius)])].

Definition withWindMph (mph : Q) : jsval :=
  JObject [("wind", JObject [("speed", JObject [("mph", JNumber mph)])])].

(** [current.temperature.celsius] of a record, before standardization. *)
Definition celsiusOf (w : Weather.t) : jsval :=
  Weather.current w ~> "temperature" ~> "celsius".

(** The records whose standardized value for [metric] is neither [null]
    nor [undefined]. *)
Definition usable (metric : string) (w : Weather.t) : bool :=
  not_nullish (Weather.metricValue metric (Weather.getStandardizedCurrent w)).

(** Values with at most two decimals. *)
Definition two_decimals (v : Q) : Prop := exists k : Z, v == inject_Z k / 100.

(** The response times of the entries with [responseTime > 0], in log
    order, and the three classes of status. *)
Definition positiveTimes (logs : list QueryLogEntry) : list Q :=
  List.filter positive (List.map responseTime_or_0 logs).

Definition isSuccess (log : QueryLogEntry) : bool := String.eqb (status log) "success".
Definition isError (log : QueryLogEntry) : bool := String.eqb (status log) "error".
Definition isOther (log : QueryLogEntry) : bool := negb (isSuccess log) && negb (isError log).

(** [n] as a number. *)
Definition num (n : nat) : Q := inject_Z (Z.of_nat n).

(** The attempts that end in the [catch] block. *)
Definition isFailure (a : attempt) : bool :=
  match a with
  | CacheHit _ | Fetched _ => false
  | _ => true
  end.

(** The breaker, the result and the events of a call. *)
Definition breakerAfter (r : circuitBreaker * completion jsval * list event)
  : circuitBreaker := fst (fst r).
Definition resultOf (r : circuitBreaker * completion jsval * list event)
  : completion jsval := snd (fst r).
Definition eventsOf (r : circuitBreaker * completion jsval * list event)
  : list event := snd r.

(** [v.k1.k2...] along a path of property names. *)
Definition at_path (v : jsval) (path : list string) : jsval :=
  fold_left get path v.

(** The numeric leaves of a standardized [current] block. *)
Definition numericPaths : list (list string) :=
  [["temperature"; "celsius"]; ["temperature"; "fahrenheit"];
   ["temperature"; "feelsLike"; "celsius"]; ["temperature"; "feelsLike"; "fahrenheit"];
   ["humidity"]; ["pressure"; "hPa"]; ["pressure"; "inHg"];
   ["visibility"; "km"]; ["visibility"; "miles"];
   ["wind"; "speed"; "mps"]; ["wind"; "speed"; "mph"]; ["wind"; "speed"; "kmh"];
   ["wind"; "direction"]; ["clouds"]; ["uv"]].

(** A [current] block with a genuine zero for humidity, UV index and wind
    direction at 0 degrees Celsius, and the same block without those three
    fields. *)
Definition currentWithZeros : jsval :=
  JObject [("temperature", JObject [("celsius", JNumber 0); ("fahrenheit", JNumber 32)]);
           ("humidity", JNumber 0);
           ("wind", JObject [("speed", JObject [("mph", JNumber 5)]);
                             ("direction", JNumber 0)]);
           ("uv", JNumber 0)].

Definition currentWithoutThem : jsval :=
  JObject [("temperature", JObject [("fahrenheit", JNumber 32)]);
           ("wind", JObject [("speed", JObject [("mph", JNumber 5)])])].

(** The entry [compareCurrentWeather] stores for a provider that
    succeeded. *)
Definition resultEntry (name : string) (standardized : jsval) : jsval :=
  JObject [("data", standardized); ("success", JBool true); ("source", JString name)].

(** A payload every check accepts, a service that answers with it and a
    service that throws. *)
Definition londonPayload (source : string) : jsval :=
  JObject [("location", JObject [("name", JString "London");
                                 ("coordinates", JObject [("lat", JNumber (515 # 10));
                                                          ("lon", JNumber (- (1 # 10)))])]);
           ("current", JObject [("temperature", JObject [("celsius", JNumber 15)])]);
           ("source", JString source)].



(** The providers that succeeded and those that failed, in the order in
    which they settled. *)
Fixpoint succeeded (now cleanLocation : string) (settled : list (string * service))
  : list (string * jsval) :=
  match settled with
  | [] => []
  | (name, service) :: rest =>
      match settle now cleanLocation service with
      | inr standardized => (name, standardized) :: succeeded now cleanLocation rest
      | inl _ => succeeded now cleanLocation rest
      end
  end.

Fixpoint failing (now cleanLocation : string) (settled : list (string * service))
  : list (string * string) :=
  match settled with
  | [] => []
  | (name, service) :: rest =>
      match settle now cleanLocation service with
      | inr _ => failing now cleanLocation rest
      | inl message => (name, message) :: failing now cleanLocation rest
      end
  end.


(** ** Further notions used in the statements *)

(** Records that differ only by source: the same [current] block under
    each of the given provider names. *)
Definition recordsFrom (sources : list string) (current : jsval) : list Weather.t :=
  List.map (fun source => recordOf source current) sources.


(** Any history of calls on one service: each call comes with what
    [isAvailable()] answers at that moment. *)
Fixpoint serve (p : provider) (cb : circuitBreaker) (history : list (bool * call))
  : circuitBreaker :=
  match history with
  | [] => cb
  | (available, c) :: rest =>
      serve p (breakerAfter (callCurrentWeather p available cb c)) rest
  end.

(** What holds of the breaker of a service at every moment. *)
Definition breakerInvariant (cb : circuitBreaker) : Prop :=
  (state cb = CLOSED <-> (failures cb < 5)%nat)
  /\ (state cb <> CLOSED -> lastFailureTime cb <> None).

(** ** Requests from end to end *)

(** The HTTP status a request is answered with: the one the handler sends,
    or the one the error handler gives to the error passed on. *)
Definition statusOf (r : WeatherController.reply) : Z :=
  match r with
  | WeatherController.Json status _ => status
  | WeatherController.Next error =>
      ErrorHandler.statusCode (ErrorHandler.errorHandler error)
  end.

(** The service object of provider [p] as a controller sees it during one
    call [c], with breaker [cb]. *)
Definition backedBy (p : provider) (available : bool) (cb : circuitBreaker) (c : call)
  : service :=
  {| isAvailable := available;
     getCurrentWeather := fun _ => resultOf (callCurrentWeather p available cb c) |}.

(** A list of characters that does not start with white space and whose
    only white space is single spaces; [after_space] tells that the
    previous character was a space (or that there is none). *)
Fixpoint single_spaced (after_space : bool) (l : list ascii) : bool :=
  match l with
  | [] => true
  | c :: rest =>
      if is_ws c
      then Ascii.eqb c " "%char && negb after_space && single_spaced true rest
      else single_spaced false rest
  end.

(** ** The logs of one API *)

(** The entries [calculateApiBreakdown] files under [name]. *)
Definition logsOfApi (name : string) (logs : list QueryLogEntry) : list QueryLogEntry :=
  List.filter (fun log => String.eqb (QueryLog.apiNameOf log) name) logs.

(** The running entry of an API after its logs [own] have been read. *)
Definition runningOf (own : list QueryLogEntry) : option QueryLog.Running.t :=
  match own with
  | [] => None
  | _ =>
      Some {| QueryLog.Running.total := length own;
              QueryLog.Running.successful := length (List.filter isSuccess own);
              QueryLog.Running.failed :=
                length (List.filter (fun log => negb (isSuccess log)) own);
              QueryLog.Running.totalResponseTime :=
                fold_left Qplus (List.map responseTime_or_0 own) 0;
              QueryLog.Running.responseTimes := List.map responseTime_or_0 own |}
  end.

(** ** Entries of [results] *)

(** The entry stored for provider [name] when its standardized record
    reports the given temperature, humidity and condition. *)
Definition reported (name : string) (celsius humidity : Q) (main : string)
  : string * jsval :=
  (name,
   resultEntry name
     (JObject [("current",
                JObject [("temperature", JObject [("celsius", JNumber celsius)]);
                         ("humidity", JNumber humidity);
                         ("weather", JObject [("main", JString main)])])])).

Definition threeReports : list (string * jsval) :=
  [reported "OpenWeatherMap" 14 60 "Clouds";
   reported "WeatherAPI" 15 70 "Clouds";
   reported "AccuWeather" 17 65 "Rain"].

(** The providers whose records were accepted, in the order in which they
    were stored: the name, the record and its standardized object. *)
Definition resultsOf (stored : list (string * Weather.t * jsval)) : list (string * jsval) :=
  List.map (fun entry => (fst (fst entry), resultEntry (fst (fst entry)) (snd entry))) stored.

Definition recordsOf (stored : list (string * Weather.t * jsval)) : list Weather.t :=
  List.map (fun entry => snd (fst entry)) stored.

(** A record made by [new Weather(data)] that passed [isValid()], with
    the object [getStandardized()] returned for it. *)
Definition accepted (w : Weather.t) (standardized : jsval) : Prop :=
  (exists now data, now <> "" /\ Weather.new now data = Return w)
  /\ Weather.isValid w = true
  /\ Weather.getStandardized w = Return standardized.

(** The record made from [londonPayload] and its standardized object. *)
Definition londonRecord (source : string) : Weather.t :=
  match Weather.new "2024-05-01T12:00:00.000Z" (londonPayload source) with
  | Return w => w
  | Throw _ => recordOf source (JObject [])
  end.

Definition londonStandardized (source : string) : jsval :=
  match Weather.getStandardized (londonRecord source) with
  | Return standardized => standardized
  | Throw _ => JNull
  end.

Definition twoStored : list (string * Weather.t * jsval) :=
  [("OpenWeatherMap", londonRecord "OpenWeatherMap", londonStandardized "OpenWeatherMap");
   ("WeatherAPI", londonRecord "WeatherAPI", londonStandardized "WeatherAPI")].

(** ** Location look-ups *)

(** The cache after a series of look-ups, oldest first. *)
Fixpoint lookUp (locationCache : gmap string jsval)
    (history : list (string * AccuWeatherService.search * Z)) : gmap string jsval :=
  match history with
  | [] => locationCache
  | (location, outcome, duration) :: rest =>
      lookUp (fst (fst (AccuWeatherService.getLocationKey
                          locationCache location outcome duration))) rest
  end.

(** ** CSV rows *)

(** The text a value stands for in a row: [null] and [undefined] are
    written as the empty string. *)
Definition textOf (value : option string) : string :=
  match value with
  | Some s => s
  | None => EmptyString
  end.

(** What can follow a field in a row: nothing, or a comma and the rest of
    the row. *)
Definition afterField (tail : list ascii) : Prop :=
  tail = [] \/ exists rest, tail = QueryLog.comma :: rest.

(** ** The items of one day *)

Definition itemsOf (day : Z) (items : list OpenWeatherService.Forecast.Item.t)
  : list OpenWeatherService.Forecast.Item.t :=
  List.filter (fun item => Z.eqb (OpenWeatherService.Forecast.Item.day item) day) items.

(** The entry of a day once its items [own] have been read. *)
Definition dayOf (own : list OpenWeatherService.Forecast.Item.t)
  : option OpenWeatherService.Forecast.Day :=
  match own with
  | [] => None
  | first :: others =>
      Some (fold_left OpenWeatherService.Forecast.update others
                      (OpenWeatherService.Forecast.create first))
  end.

(** [dailyForecasts[date]] *)
Fixpoint entryOf (date : Z) (dailyForecasts : list OpenWeatherService.Forecast.Day)
  : option OpenWeatherService.Forecast.Day :=
  match dailyForecasts with
  | [] => None
  | entry :: rest =>
      if Z.eqb (OpenWeatherService.Forecast.date entry) date then Some entry
      else entryOf date rest
  end.

(** Three items: two on one day, one on the next. *)
Definition itemAt (day : Z) (temp : Q) : OpenWeatherService.Forecast.Item.t :=
  {| OpenWeatherService.Forecast.Item.day := day;
     OpenWeatherService.Forecast.Item.temp := temp;
     OpenWeatherService.Forecast.Item.temp_min := temp - 1;
     OpenWeatherService.Forecast.Item.temp_max := temp + 1;
     OpenWeatherService.Forecast.Item.main := JString "Clouds";
     OpenWeatherService.Forecast.Item.description := JString "broken clouds";
     OpenWeatherService.Forecast.Item.icon := JString "04d";
     OpenWeatherService.Forecast.Item.humidity := JNumber 70;
     OpenWeatherService.Forecast.Item.pressure := 1012;
     OpenWeatherService.Forecast.Item.speed := 4;
     OpenWeatherService.Forecast.Item.deg := JNumber 200;
     OpenWeatherService.Forecast.Item.clouds := JNumber 75;
     OpenWeatherService.Forecast.Item.precipitation := JNumber 0 |}.

Definition threeItems : list OpenWeatherService.Forecast.Item.t :=
  [itemAt 19844 11; itemAt 19844 14; itemAt 19845 9].

(** [v === null || v === undefined] *)
Definition nullish (v : jsval) : bool := negb (not_nullish v).

(** The binary64 number written [k / 100], two decimals. *)
Definition hundredths (k : Z) : Q := Float64.div (inject_Z k) 100.

(** [Math.round((part / whole) * 100)], the expression of the success
    rates, on two counts. *)
Definition percentage (part whole : nat) : Z :=
  Math.round (Float64.mul (Float64.div (num part) (num whole)) 100).

(** Forty calls: twenty answered after 120 ms, three served from the cache
    and logged with response time 0, seventeen failed after 300 ms. *)
Definition fortyCalls : list QueryLogEntry :=
  (repeat {| apiName := "OpenWeatherMap"; responseTime := Some 120; status := "success" |} 20
   ++ repeat {| apiName := "OpenWeatherMap"; responseTime := Some 0; status := "success" |} 3
   ++ repeat {| apiName := "WeatherAPI"; responseTime := Some 300; status := "error" |} 17)%list.

(** The entries that are successes or errors. *)
Definition knownStatus (logs : list QueryLogEntry) : list QueryLogEntry :=
  List.filter (fun log => negb (isOther log)) logs.

(** The call as the circuit breaker of the AccuWeather service sees it: a
    failed location search counts like a failed request. *)
Definition afterLookup (locationData : completion jsval) (c : call) : call :=
  match outcome c, locationData with
  | CacheHit _, _ | CacheReadFails _, _ => c
  | _, Throw message =>
      {| startTime := startTime c; duration := duration c;
         outcome := TransportFails message |}
  | _, Return _ => c
  end.

(** ** Binary64 arithmetic against the library's specification

    [SpecFloat] is the specification of IEEE 754 arithmetic that comes
    with the prover; binary64 is its instance with 53 bits of precision
    and infinities at exponent 1024. *)

(** The value of a finite number of [SpecFloat]. *)
Definition valueOf (f : SpecFloat.spec_float) : option Q :=
  match f with
  | SpecFloat.S754_zero _ => Some 0
  | SpecFloat.S754_finite s m e =>
      Some (Qred ((if s then - (1) else 1) * inject_Z (Zpos m) * 2 ^ e))
  | _ => None
  end.

(** The binary64 number of an integer. *)
Definition binary64 (n : Z) : SpecFloat.spec_float :=
  SpecFloat.binary_normalize 53 1024 n 0 false.

Definition sameNumber (f : SpecFloat.spec_float) (q : Q) : bool :=
  match valueOf f with
  | Some p => Qeq_bool p q
  | None => false
  end.

(** [(part / whole) * 100] on two counts, both ways. *)
Definition sameRate (part whole : Z) : bool :=
  sameNumber
    (SpecFloat.SFmul 53 1024
       (SpecFloat.SFdiv 53 1024 (binary64 part) (binary64 whole)) (binary64 100))
    (Float64.mul (Float64.div (inject_Z part) (inject_Z whole)) 100).

(** The decimal [n / 100], its quotient by 3.6 and its product with 3.6,
    each times 100, and a sum and a difference, both ways. *)
Definition sameSpeed (n : Z) : bool :=
  let x := SpecFloat.SFdiv 53 1024 (binary64 n) (binary64 100) in
  let c := SpecFloat.SFdiv 53 1024 (binary64 36) (binary64 10) in
  let x' := Float64.fl (inject_Z n / 100) in
  let c' := Float64.fl (36 # 10) in
  sameNumber x x' && sameNumber c c'
  && sameNumber (SpecFloat.SFmul 53 1024 (SpecFloat.SFdiv 53 1024 x c) (binary64 100))
                (Float64.mul (Float64.div x' c') 100)
  && sameNumber (SpecFloat.SFmul 53 1024 (SpecFloat.SFmul 53 1024 x c) (binary64 100))
                (Float64.mul (Float64.mul x' c') 100)
  && sameNumber (SpecFloat.SFadd 53 1024 x c) (Float64.add x' c')
  && sameNumber (SpecFloat.SFsub 53 1024 x c) (Float64.sub x' c').

Definition upTo (n : nat) : list Z := List.map Z.of_nat (seq 1 n).

(** A provider that fails with the location it was queried with as its
    message; the answers of the controllers then show what the providers
    were asked. *)
Definition echo : service :=
  {| isAvailable := true; getCurrentWeather := fun location => Throw location |}.

(** * Properties *)

Local Open Scope Q_scope.

(** ** Rounding *)

Lemma Qfloor_unique (x : Q) (n : Z) :
  inject_Z n <= x -> x < inject_Z (n + 1) -> Qfloor x = n.
Proof.
  intros Hlo Hhi.
  assert (Hge : (n <= Qfloor x)%Z).
  { rewrite <- (Qfloor_Z n). apply Qfloor_resp_le. exact Hlo. }
  assert (Hlt : (Qfloor x < n + 1)%Z).
  { rewrite Zlt_Qlt. eapply Qle_lt_trans; [apply Qfloor_le | exact Hhi]. }
  lia.
Qed.

Lemma round_bounds (x : Q) :
  inject_Z (Math.round x) - (1 # 2) <= x /\ x < inject_Z (Math.round x) + (1 # 2).
Proof.
  unfold Math.round.
  pose proof (Qfloor_le (x + (1 # 2))) as Hlo.
  pose proof (Qlt_floor (x + (1 # 2))) as Hhi.
  rewrite inject_Z_plus in Hhi. change (inject_Z 1) with 1 in Hhi.
  split; lra.
Qed.

Lemma round_unique (x : Q) (n : Z) :
  inject_Z n - (1 # 2) <= x -> x < inject_Z n + (1 # 2) -> Math.round x = n.
Proof.
  intros Hlo Hhi. unfold Math.round. apply Qfloor_unique.
  - lra.
  - rewrite inject_Z_plus. change (inject_Z 1) with 1. lra.
Qed.

Lemma round_integer (n : Z) : Math.round (inject_Z n) = n.
Proof. apply round_unique; lra. Qed.

Lemma round_monotone (x y : Q) : x <= y -> (Math.round x <= Math.round y)%Z.
Proof.
  intros H. unfold Math.round. apply Qfloor_resp_le. lra.
Qed.

Lemma round_comp (x y : Q) : x == y -> Math.round x = Math.round y.
Proof. intros H. unfold Math.round. now rewrite H. Qed.

(** The two-decimal rounding is within half a hundredth of its argument. *)
Lemma round2_close (x : Q) :
  round2 x - (1 # 200) <= x /\ x < round2 x + (1 # 200).
Proof.
  unfold round2. destruct (round_bounds (x * 100)) as [Hlo Hhi].
  set (k := inject_Z (Math.round (x * 100))) in *.
  assert (Hk : k / 100 == k * (1 # 100)) by (field; discriminate).
  rewrite Hk. split; lra.
Qed.

(** ** Binary64 rounding

    What the properties below use of [Float64.fl]: it depends on the value
    of its argument only, keeps the sign, is monotone, leaves the integers
    below [2 ^ 53] as they are, and is within [2 ^ (b - 53)] of an
    argument of magnitude at most [2 ^ b]. *)

(** The integer [rne x] is the floor of [x] or the next integer, and
    within one half of [x]. *)
Lemma rne_cases (x : Q) :
  let f := Qfloor x in
  (Float64.rne x = f /\ x - inject_Z f <= 1 # 2)
  \/ (Float64.rne x = (f + 1)%Z /\ 1 # 2 <= x - inject_Z f).
Proof.
  cbv zeta. unfold Float64.rne.
  destruct (Qcompare_spec (x - inject_Z (Qfloor x)) (1 # 2)).
  - destruct (Z.even (Qfloor x)); [left|right]; split; auto; lra.
  - left. split; auto; lra.
  - right. split; auto; lra.
Qed.

Lemma floor_bounds (x : Q) :
  inject_Z (Qfloor x) <= x /\ x < inject_Z (Qfloor x) + 1.
Proof.
  split; [apply Qfloor_le|].
  pose proof (Qlt_floor x) as H. rewrite inject_Z_plus in H. exact H.
Qed.

Lemma rne_close (x : Q) : Qabs (inject_Z (Float64.rne x) - x) <= 1 # 2.
Proof.
  destruct (floor_bounds x) as [Hlo Hhi].
  apply Qabs_Qle_condition.
  destruct (rne_cases x) as [[-> H]|[-> H]].
  - split; lra.
  - rewrite inject_Z_plus. change (inject_Z 1) with 1. split; lra.
Qed.

Lemma rne_comp (x y : Q) : x == y -> Float64.rne x = Float64.rne y.
Proof.
  intros H. unfold Float64.rne. rewrite (Qfloor_comp _ _ H).
  assert (E : x - inject_Z (Qfloor y) == y - inject_Z (Qfloor y)) by (rewrite H; reflexivity).
  now rewrite (Qcompare_comp _ _ E _ _ (Qeq_refl (1 # 2))).
Qed.

Lemma rne_Z (n : Z) : Float64.rne (inject_Z n) = n.
Proof.
  unfold Float64.rne. rewrite Qfloor_Z.
  assert (E : inject_Z n - inject_Z n == 0) by ring.
  now rewrite (Qcompare_comp _ _ E _ _ (Qeq_refl (1 # 2))).
Qed.

Lemma rne_monotone (x y : Q) : x <= y -> (Float64.rne x <= Float64.rne y)%Z.
Proof.
  intros H.
  pose proof (Qfloor_resp_le _ _ H) as Hf.
  destruct (floor_bounds x) as [Hx1 Hx2]. destruct (floor_bounds y) as [Hy1 Hy2].
  unfold Float64.rne.
  destruct (Z.eq_dec (Qfloor x) (Qfloor y)) as [E|N].
  - rewrite <- E in *.
    destruct (Qcompare_spec (x - inject_Z (Qfloor x)) (1 # 2));
      destruct (Qcompare_spec (y - inject_Z (Qfloor x)) (1 # 2));
      try (exfalso; lra); destruct (Z.even (Qfloor x)); lia.
  - assert (Qfloor x + 1 <= Qfloor y)%Z by lia.
    destruct (Qcompare (x - inject_Z (Qfloor x)) (1 # 2));
      destruct (Qcompare (y - inject_Z (Qfloor y)) (1 # 2));
      destruct (Z.even (Qfloor x)); destruct (Z.even (Qfloor y)); lia.
Qed.

(** Powers of two. *)
Lemma pow2_pos (e : Z) : 0 < 2 ^ e.
Proof. apply Qpower_0_lt. reflexivity. Qed.

Lemma pow2_plus (a b : Z) : 2 ^ (a + b) == 2 ^ a * 2 ^ b.
Proof. apply Qpower_plus. discriminate. Qed.

Lemma pow2_succ (a : Z) : 2 ^ (a + 1) == 2 * 2 ^ a.
Proof. rewrite pow2_plus. change (2 ^ 1) with 2. ring. Qed.

Lemma pow2_pred (a : Z) : 2 ^ (a - 1) == 2 ^ a * (1 # 2).
Proof.
  assert (E : 2 ^ a == 2 ^ (a - 1 + 1)) by (now replace (a - 1 + 1)%Z with a by lia).
  rewrite E, pow2_succ. field.
Qed.

Lemma pow2_le (a b : Z) : (a <= b)%Z -> 2 ^ a <= 2 ^ b.
Proof. intros H. apply Qpower_le_compat_l; [exact H | discriminate]. Qed.

Lemma pow2_le_inv (a b : Z) : 2 ^ a <= 2 ^ b -> (a <= b)%Z.
Proof. intros H. apply (Qpower_le_compat_l_inv 2); [exact H | reflexivity]. Qed.

Lemma pow2_lt_inv (a b : Z) : 2 ^ a < 2 ^ b -> (a < b)%Z.
Proof. intros H. apply (Qpower_lt_compat_l_inv 2); [exact H | reflexivity]. Qed.

Lemma pow2_Z (k : Z) : (0 <= k)%Z -> inject_Z (2 ^ k) == 2 ^ k.
Proof. intros H. apply (Zpower_Qpower 2 k H). Qed.

Lemma log2_bounds (n : Z) :
  (0 < n)%Z -> 2 ^ Z.log2 n <= inject_Z n /\ inject_Z n < 2 * 2 ^ Z.log2 n.
Proof.
  intros H. destruct (Z.log2_spec n H) as [Hlo Hhi].
  pose proof (Z.log2_nonneg n) as Hnn.
  rewrite <- pow2_succ, <- !pow2_Z by lia.
  split; [now rewrite <- Zle_Qle | now rewrite <- Zlt_Qlt].
Qed.

(** [binade x] is the integer [b] with [2 ^ b <= x < 2 ^ (b + 1)]. *)
Lemma binade_spec (x : Q) :
  0 < x -> 2 ^ Float64.binade x <= x /\ x < 2 ^ (Float64.binade x + 1).
Proof.
  intros Hx. destruct x as [n d].
  assert (Hn : (0 < n)%Z) by (unfold Qlt in Hx; simpl in Hx; lia).
  destruct (log2_bounds n Hn) as [Hn1 Hn2].
  destruct (log2_bounds (Zpos d) eq_refl) as [Hd1 Hd2].
  pose proof (pow2_pos (Z.log2 n)) as Ha. pose proof (pow2_pos (Z.log2 (Zpos d))) as Hb.
  assert (Hxd : (n # d) * inject_Z (Zpos d) == inject_Z n).
  { rewrite (Qmake_Qdiv n d). field. discriminate. }
  unfold Float64.binade. cbn [Qnum Qden].
  set (ln := Z.log2 n) in *. set (ld := Z.log2 (Zpos d)) in *.
  assert (Eg : 2 ^ (ln - ld) == 2 ^ ln / 2 ^ ld).
  { unfold Z.sub. rewrite pow2_plus, Qpower_opp. reflexivity. }
  set (X := n # d) in *. set (N := inject_Z n) in *. set (D := inject_Z (Zpos d)) in *.
  set (A := 2 ^ ln) in *. set (B := 2 ^ ld) in *.
  assert (Hup : X < 2 * (A / B)).
  { assert (E : 2 * (A / B) == 2 * A / B) by (field; lra). rewrite E.
    apply Qlt_shift_div_l; [exact Hb|]. nra. }
  assert (Hdown : A / B * (1 # 2) <= X).
  { assert (E : A / B * (1 # 2) == A / (2 * B)) by (field; lra). rewrite E.
    apply Qle_shift_div_r; [lra|]. nra. }
  destruct (Qle_bool (2 ^ (ln - ld)) X) eqn:E.
  - apply Qle_bool_iff in E. split; [exact E|].
    rewrite pow2_succ, Eg. exact Hup.
  - assert (Hlt : X < 2 ^ (ln - ld)).
    { apply Qnot_le_lt. intros Hc. apply Qle_bool_iff in Hc. congruence. }
    replace (ln - ld - 1 + 1)%Z with (ln - ld)%Z by lia.
    split; [|exact Hlt]. rewrite pow2_pred, Eg. exact Hdown.
Qed.

Lemma binade_unique (x : Q) (b : Z) :
  2 ^ b <= x -> x < 2 ^ (b + 1) -> Float64.binade x = b.
Proof.
  intros Hlo Hhi.
  assert (Hx : 0 < x) by (eapply Qlt_le_trans; [apply (pow2_pos b) | exact Hlo]).
  destruct (binade_spec x Hx) as [Blo Bhi].
  assert (Float64.binade x < b + 1)%Z by (apply pow2_lt_inv; lra).
  assert (b < Float64.binade x + 1)%Z by (apply pow2_lt_inv; lra).
  lia.
Qed.

Lemma binade_comp (x y : Q) : 0 < x -> x == y -> Float64.binade x = Float64.binade y.
Proof.
  intros Hx E. destruct (binade_spec x Hx) as [Blo Bhi].
  symmetry. apply binade_unique; rewrite <- E; assumption.
Qed.

Lemma binade_monotone (x y : Q) :
  0 < x -> x <= y -> (Float64.binade x <= Float64.binade y)%Z.
Proof.
  intros Hx Hxy.
  destruct (binade_spec x Hx) as [Blo _].
  destruct (binade_spec y) as [_ Bhi]; [lra|].
  assert (Float64.binade x < Float64.binade y + 1)%Z by (apply pow2_lt_inv; lra).
  lia.
Qed.

Lemma binade_le (x : Q) (b : Z) : 0 < x -> x <= 2 ^ b -> (Float64.binade x <= b)%Z.
Proof.
  intros Hx Hb. destruct (binade_spec x Hx) as [Blo _].
  apply pow2_le_inv. lra.
Qed.

Lemma Qabs_pos_iff (x : Q) : ~ x == 0 -> 0 < Qabs x.
Proof.
  intros H. apply Qabs_case; intros; destruct (Qeq_dec x 0); try contradiction; lra.
Qed.

Lemma exponent_comp (x y : Q) :
  ~ x == 0 -> x == y -> Float64.exponent x = Float64.exponent y.
Proof.
  intros Hx E. unfold Float64.exponent.
  rewrite (binade_comp (Qabs x) (Qabs y)); [reflexivity | now apply Qabs_pos_iff |].
  now rewrite E.
Qed.

(** Rounding to a multiple of [2 ^ e]. *)
Lemma scaled_comp (e : Z) (x y : Q) : x == y -> Float64.scaled e x == Float64.scaled e y.
Proof.
  intros E. unfold Float64.scaled.
  assert (E' : x / 2 ^ e == y / 2 ^ e) by (now rewrite E).
  now rewrite (rne_comp _ _ E').
Qed.

Lemma scaled_monotone (e : Z) (x y : Q) :
  x <= y -> Float64.scaled e x <= Float64.scaled e y.
Proof.
  intros H. unfold Float64.scaled. pose proof (pow2_pos e) as He.
  apply Qmult_le_compat_r; [|lra].
  rewrite <- Zle_Qle. apply rne_monotone.
  apply Qmult_le_compat_r; [exact H|].
  apply Qlt_le_weak, Qinv_lt_0_compat, He.
Qed.

Lemma scaled_exact (e n : Z) :
  Float64.scaled e (inject_Z n * 2 ^ e) == inject_Z n * 2 ^ e.
Proof.
  unfold Float64.scaled. pose proof (pow2_pos e) as He.
  assert (E : inject_Z n * 2 ^ e / 2 ^ e == inject_Z n) by (field; lra).
  now rewrite (rne_comp _ _ E), rne_Z.
Qed.

Lemma scaled_close (e : Z) (x : Q) :
  Qabs (Float64.scaled e x - x) <= 2 ^ e * (1 # 2).
Proof.
  unfold Float64.scaled. pose proof (pow2_pos e) as He.
  pose proof (rne_close (x / 2 ^ e)) as H.
  set (r := inject_Z (Float64.rne (x / 2 ^ e))) in *.
  assert (E : r * 2 ^ e - x == (r - x / 2 ^ e) * 2 ^ e) by (field; lra).
  rewrite E, Qabs_Qmult, (Qabs_pos (2 ^ e)) by lra.
  rewrite (Qmult_comm (2 ^ e)). apply Qmult_le_compat_r; lra.
Qed.

Lemma fl_0 : Float64.fl 0 = 0.
Proof. reflexivity. Qed.

(** [fl x] is [x] rounded to a multiple of [2 ^ exponent x]. *)
Lemma fl_scaled (x : Q) :
  ~ x == 0 -> Float64.fl x == Float64.scaled (Float64.exponent x) x.
Proof.
  intros H. unfold Float64.fl.
  destruct (Qeq_bool x 0) eqn:E; [apply Qeq_bool_iff in E; contradiction|].
  apply Qred_correct.
Qed.

Lemma fl_comp (x y : Q) : x == y -> Float64.fl x = Float64.fl y.
Proof.
  intros E. unfold Float64.fl.
  destruct (Qeq_bool x 0) eqn:Ex; destruct (Qeq_bool y 0) eqn:Ey; try reflexivity.
  - apply Qeq_bool_iff in Ex. apply Qeq_bool_neq in Ey. exfalso. apply Ey. now rewrite <- E.
  - apply Qeq_bool_iff in Ey. apply Qeq_bool_neq in Ex. exfalso. apply Ex. now rewrite E.
  - apply Qeq_bool_neq in Ex. apply Qred_complete.
    rewrite (exponent_comp x y Ex E). now apply scaled_comp.
Qed.

Lemma exponent_le (x : Q) (b : Z) :
  ~ x == 0 -> (-1022 <= b)%Z -> Qabs x <= 2 ^ b -> (Float64.exponent x <= b - 52)%Z.
Proof.
  intros Hx Hb H. unfold Float64.exponent.
  pose proof (binade_le (Qabs x) b (Qabs_pos_iff x Hx) H). lia.
Qed.

(** The rounding error of a number of magnitude at most [2 ^ b]. *)
Lemma fl_absolute (x : Q) (b : Z) :
  (-1022 <= b)%Z -> Qabs x <= 2 ^ b -> Qabs (Float64.fl x - x) <= 2 ^ (b - 53).
Proof.
  intros Hb H. destruct (Qeq_dec x 0) as [E|N].
  - rewrite (fl_comp x 0 E), fl_0.
    assert (E' : 0 - x == 0) by (rewrite E; ring). rewrite E'.
    apply Qlt_le_weak, pow2_pos.
  - rewrite (fl_scaled x N).
    eapply Qle_trans; [apply scaled_close|].
    rewrite <- pow2_pred. apply pow2_le.
    pose proof (exponent_le x b N Hb H). lia.
Qed.

Lemma fl_nonneg (x : Q) : 0 <= x -> 0 <= Float64.fl x.
Proof.
  intros H. destruct (Qeq_dec x 0) as [E|N].
  - rewrite (fl_comp x 0 E), fl_0. apply Qle_refl.
  - rewrite (fl_scaled x N).
    pose proof (scaled_monotone (Float64.exponent x) 0 x H) as Hm.
    assert (E0 : Float64.scaled (Float64.exponent x) 0 == 0).
    { pose proof (scaled_exact (Float64.exponent x) 0) as E0.
      rewrite (scaled_comp _ (inject_Z 0 * 2 ^ Float64.exponent x) 0) in E0 by ring.
      rewrite E0. ring. }
    lra.
Qed.

(** Rounding is monotone: within one binade by [scaled_monotone], and
    across binades because the power of two between them is a binary64
    number. *)
Lemma fl_monotone (x y : Q) : 0 <= x -> x <= y -> Float64.fl x <= Float64.fl y.
Proof.
  intros Hx Hxy. destruct (Qeq_dec x 0) as [E|N].
  { rewrite (fl_comp x 0 E), fl_0. apply fl_nonneg. lra. }
  assert (Hx' : 0 < x) by (destruct (Qlt_le_dec 0 x); [assumption | exfalso; apply N; lra]).
  assert (Ny : ~ y == 0) by lra.
  rewrite (fl_scaled x N), (fl_scaled y Ny).
  unfold Float64.exponent.
  rewrite (binade_comp (Qabs x) x), (binade_comp (Qabs y) y);
    try (apply Qabs_pos; lra); try (apply Qabs_pos_iff; assumption).
  pose proof (binade_monotone x y Hx' Hxy) as Hb.
  destruct (binade_spec x Hx') as [_ Xhi].
  destruct (binade_spec y) as [Ylo _]; [lra|].
  set (bx := Float64.binade x) in *. set (by' := Float64.binade y) in *.
  destruct (Z.eq_dec (Z.max (bx - 52) (-1074)) (Z.max (by' - 52) (-1074))) as [Ee|Ne].
  - rewrite Ee. now apply scaled_monotone.
  - set (ex := Z.max (bx - 52) (-1074)) in *. set (ey := Z.max (by' - 52) (-1074)) in *.
    assert (Hlt : (ex + 1 <= ey)%Z) by lia.
    assert (Hey : ey = (by' - 52)%Z) by lia.
    assert (Hsx : Float64.scaled ex (2 ^ (ex + 53)) == 2 ^ (ex + 53)).
    { assert (E1 : 2 ^ (ex + 53) == inject_Z (2 ^ 53) * 2 ^ ex).
      { rewrite (Z.add_comm ex 53), pow2_plus. reflexivity. }
      rewrite (scaled_comp ex _ _ E1), scaled_exact. now symmetry. }
    assert (Hsy : Float64.scaled ey (2 ^ (ey + 52)) == 2 ^ (ey + 52)).
    { assert (E1 : 2 ^ (ey + 52) == inject_Z (2 ^ 52) * 2 ^ ey).
      { rewrite (Z.add_comm ey 52), pow2_plus. reflexivity. }
      rewrite (scaled_comp ey _ _ E1), scaled_exact. now symmetry. }
    assert (H1 : Float64.scaled ex x <= Float64.scaled ex (2 ^ (ex + 53))).
    { apply scaled_monotone, Qlt_le_weak.
      eapply Qlt_le_trans; [exact Xhi|]. apply pow2_le. lia. }
    assert (H2 : Float64.scaled ey (2 ^ (ey + 52)) <= Float64.scaled ey y).
    { apply scaled_monotone. rewrite Hey.
      replace (by' - 52 + 52)%Z with by' by lia. exact Ylo. }
    assert (H3 : 2 ^ (ex + 53) <= 2 ^ (ey + 52)) by (apply pow2_le; lia).
    lra.
Qed.

(** Integers below [2 ^ 53] in magnitude are binary64 numbers. *)
Lemma fl_integer (n : Z) : (Z.abs n < 2 ^ 53)%Z -> Float64.fl (inject_Z n) == inject_Z n.
Proof.
  intros Hn. destruct (Qeq_dec (inject_Z n) 0) as [E|N].
  - rewrite (fl_comp _ 0 E), fl_0. now symmetry.
  - rewrite (fl_scaled _ N).
    assert (He : (Float64.exponent (inject_Z n) <= 0)%Z).
    { unfold Float64.exponent.
      destruct (binade_spec (Qabs (inject_Z n)) (Qabs_pos_iff _ N)) as [Blo _].
      assert (Hlt : Qabs (inject_Z n) < 2 ^ 53).
      { change (Qabs (inject_Z n)) with (inject_Z (Z.abs n)).
        rewrite <- pow2_Z by lia. now rewrite <- Zlt_Qlt. }
      assert (Float64.binade (Qabs (inject_Z n)) < 53)%Z by (apply pow2_lt_inv; lra).
      lia. }
    set (e := Float64.exponent (inject_Z n)) in *.
    assert (E2 : inject_Z n == inject_Z (n * 2 ^ (- e)) * 2 ^ e).
    { rewrite inject_Z_mult, pow2_Z by lia.
      rewrite <- Qmult_assoc, <- pow2_plus.
      replace (- e + e)%Z with 0%Z by lia. change (2 ^ 0) with 1. ring. }
    rewrite (scaled_comp e _ _ E2), scaled_exact. now symmetry.
Qed.

(** Rounding does not cross a binary64 integer. *)
Lemma fl_below (x : Q) (m : Z) :
  (Z.abs m < 2 ^ 53)%Z -> 0 <= x <= inject_Z m -> 0 <= Float64.fl x <= inject_Z m.
Proof.
  intros Hm [H0 H1]. split; [now apply fl_nonneg|].
  rewrite <- (fl_integer m Hm). now apply fl_monotone.
Qed.

(** [Math.round] of a number that is within [eps] of [x]. *)
Lemma round_sandwich (b x eps : Q) :
  Qabs (b - x) <= eps ->
  (Math.round (x - eps) <= Math.round b <= Math.round (x + eps))%Z.
Proof.
  intros H. apply Qabs_Qle_condition in H.
  split; apply round_monotone; lra.
Qed.

(** The error of one operation whose exact result is at most [2 ^ b] in
    magnitude, with the bound written as a fraction. *)
Lemma fl_within (x bound err : Q) (b : Z) :
  (-1022 <= b)%Z -> 2 ^ b == bound -> 2 ^ (b - 53) == err ->
  - bound <= x <= bound ->
  Float64.fl x - err <= x <= Float64.fl x + err.
Proof.
  intros Hb Eb Ee Hx.
  assert (H : Qabs x <= 2 ^ b) by (rewrite Eb; now apply Qabs_Qle_condition).
  pose proof (fl_absolute x b Hb H) as Ha. rewrite Ee in Ha.
  apply Qabs_Qle_condition in Ha. lra.
Qed.

(** On every success rate of up to 40 entries and on every speed from 0.01
    to 4.00, [Float64] computes the number that the specification of
    IEEE 754 binary64 arithmetic of the library gives. *)
Lemma Float64_as_specified :
  forallb (fun whole => forallb (fun part => sameRate part whole) (upTo 40)) (upTo 40)
  = true
  /\ forallb sameSpeed (upTo 400) = true.
Proof. split; vm_compute; reflexivity. Qed.

(** ** Sorting, minimum, maximum and sum *)

Lemma insert_sorted_perm (x : Q) (l : list Q) :
  Permutation (insert_sorted x l) (x :: l).
Proof.
  induction l as [|y r IH]; simpl.
  - apply Permutation_refl.
  - destruct (Qle_bool x y).
    + apply Permutation_refl.
    + eapply Permutation_trans; [apply perm_skip, IH | apply perm_swap].
Qed.

Lemma sort_perm (l : list Q) : Permutation (sort l) l.
Proof.
  induction l as [|x r IH]; simpl.
  - apply Permutation_refl.
  - eapply Permutation_trans; [apply insert_sorted_perm | apply perm_skip, IH].
Qed.

Lemma sort_length (l : list Q) : length (sort l) = length l.
Proof. apply Permutation_length, sort_perm. Qed.

Lemma Qle_bool_false (x y : Q) : Qle_bool x y = false -> y <= x.
Proof.
  intros H. destruct (Qlt_le_dec y x) as [Hlt|Hle].
  - now apply Qlt_le_weak.
  - apply Qle_bool_iff in Hle. congruence.
Qed.

Lemma insert_sorted_Sorted (x : Q) (l : list Q) :
  Sorted Qle l -> Sorted Qle (insert_sorted x l).
Proof.
  induction l as [|y r IH]; simpl; intros Hs.
  - repeat constructor.
  - destruct (Qle_bool x y) eqn:Hxy.
    + constructor; [exact Hs|]. constructor. now apply Qle_bool_iff.
    + apply Qle_bool_false in Hxy.
      inversion Hs as [|? ? Hr Hhd]; subst. constructor; [apply IH, Hr|].
      destruct r as [|z r']; simpl.
      * constructor. exact Hxy.
      * destruct (Qle_bool x z); constructor.
        -- exact Hxy.
        -- now inversion Hhd.
Qed.

Lemma sort_Sorted (l : list Q) : Sorted Qle (sort l).
Proof.
  induction l as [|x r IH]; simpl; [constructor | now apply insert_sorted_Sorted].
Qed.

(** Sorting a sorted array leaves it as it is. *)
Lemma sort_sorted_id (l : list Q) : Sorted Qle l -> sort l = l.
Proof.
  induction l as [|x r IH]; intros Hs; simpl; [reflexivity|].
  inversion Hs as [|? ? Hr Hhd]; subst. rewrite (IH Hr).
  destruct r as [|y r']; simpl; [reflexivity|].
  inversion Hhd; subst.
  assert (Hb : Qle_bool x y = true) by now apply Qle_bool_iff.
  now rewrite Hb.
Qed.

Lemma sort_idempotent (l : list Q) : sort (sort l) = sort l.
Proof. apply sort_sorted_id, sort_Sorted. Qed.

Lemma at_index_In (l : list Q) (i : nat) :
  (i < length l)%nat -> In (at_index l i) l.
Proof. intros H. unfold at_index. now apply nth_In. Qed.

Lemma at_index_sort_In (l : list Q) (i : nat) :
  (i < length l)%nat -> In (at_index (sort l) i) l.
Proof.
  intros H. eapply Permutation_in; [apply sort_perm|].
  apply at_index_In. now rewrite sort_length.
Qed.

Lemma Qmin_cases (a b : Q) : Qmin a b = a \/ Qmin a b = b.
Proof. unfold Qmin, GenericMinMax.gmin. destruct (a ?= b); auto. Qed.

Lemma Qmax_cases (a b : Q) : Qmax a b = a \/ Qmax a b = b.
Proof. unfold Qmax, GenericMinMax.gmax. destruct (a ?= b); auto. Qed.

Lemma min_In (x : Q) (rest : list Q) : In (Math.min x rest) (x :: rest).
Proof.
  unfold Math.min. revert x. induction rest as [|y r IH]; intros x; simpl.
  - now left.
  - destruct (IH (Qmin x y)) as [H|H].
    + rewrite <- H. destruct (Qmin_cases x y) as [E|E]; rewrite E; auto.
    + auto.
Qed.

Lemma max_In (x : Q) (rest : list Q) : In (Math.max x rest) (x :: rest).
Proof.
  unfold Math.max. revert x. induction rest as [|y r IH]; intros x; simpl.
  - now left.
  - destruct (IH (Qmax x y)) as [H|H].
    + rewrite <- H. destruct (Qmax_cases x y) as [E|E]; rewrite E; auto.
    + auto.
Qed.

Lemma min_le_acc (x : Q) (rest : list Q) : Math.min x rest <= x.
Proof.
  unfold Math.min. revert x. induction rest as [|y r IH]; intros x; simpl.
  - apply Qle_refl.
  - eapply Qle_trans; [apply IH | apply Q.le_min_l].
Qed.

Lemma min_le (x : Q) (rest : list Q) (y : Q) :
  In y (x :: rest) -> Math.min x rest <= y.
Proof.
  revert x. induction rest as [|z r IH]; intros x [Hy|Hy].
  - subst. apply Qle_refl.
  - destruct Hy.
  - subst. apply min_le_acc.
  - change (Math.min x (z :: r)) with (Math.min (Qmin x z) r).
    destruct Hy as [Hy|Hy].
    + subst. eapply Qle_trans; [apply min_le_acc | apply Q.le_min_r].
    + apply IH. now right.
Qed.

Lemma max_ge_acc (x : Q) (rest : list Q) : x <= Math.max x rest.
Proof.
  unfold Math.max. revert x. induction rest as [|y r IH]; intros x; simpl.
  - apply Qle_refl.
  - eapply Qle_trans; [apply Q.le_max_l | apply IH].
Qed.

Lemma max_ge (x : Q) (rest : list Q) (y : Q) :
  In y (x :: rest) -> y <= Math.max x rest.
Proof.
  revert x. induction rest as [|z r IH]; intros x [Hy|Hy].
  - subst. apply Qle_refl.
  - destruct Hy.
  - subst. apply max_ge_acc.
  - change (Math.max x (z :: r)) with (Math.max (Qmax x z) r).
    destruct Hy as [Hy|Hy].
    + subst. eapply Qle_trans; [apply Q.le_max_r | apply max_ge_acc].
    + apply IH. now right.
Qed.

Lemma sum_acc (l : list Q) (a : Q) : fold_left Qplus l a == a + sum l.
Proof.
  unfold sum. revert a. induction l as [|x r IH]; intros a; simpl.
  - ring.
  - rewrite (IH (a + x)), (IH (0 + x)). ring.
Qed.

Lemma sum_cons (x : Q) (l : list Q) : sum (x :: l) == x + sum l.
Proof. unfold sum at 1. simpl. rewrite sum_acc. ring. Qed.

Lemma len_cons (x : Q) (l : list Q) : len (x :: l) == 1 + len l.
Proof.
  unfold len. simpl length. rewrite Nat2Z.inj_succ, <- Z.add_1_l, inject_Z_plus.
  reflexivity.
Qed.

Lemma len_nonneg (l : list Q) : 0 <= len l.
Proof. unfold len. change 0 with (inject_Z 0). rewrite <- Zle_Qle. lia. Qed.

Lemma len_pos (x : Q) (l : list Q) : 0 < len (x :: l).
Proof. rewrite len_cons. pose proof (len_nonneg l). lra. Qed.

Lemma sum_lower (l : list Q) (m : Q) :
  (forall y, In y l -> m <= y) -> m * len l <= sum l.
Proof.
  induction l as [|x r IH]; intros H.
  - change (m * 0 <= 0). lra.
  - rewrite sum_cons, len_cons.
    assert (m <= x) by (apply H; now left).
    assert (m * len r <= sum r) by (apply IH; intros; apply H; now right).
    lra.
Qed.

Lemma sum_upper (l : list Q) (M : Q) :
  (forall y, In y l -> y <= M) -> sum l <= M * len l.
Proof.
  induction l as [|x r IH]; intros H.
  - change (0 <= M * 0). lra.
  - rewrite sum_cons, len_cons.
    assert (x <= M) by (apply H; now left).
    assert (sum r <= M * len r) by (apply IH; intros; apply H; now right).
    lra.
Qed.

(** The full-precision mean lies between the minimum and the maximum. *)
Lemma mean_between (x : Q) (rest : list Q) :
  Math.min x rest <= mean_of (x :: rest) /\ mean_of (x :: rest) <= Math.max x rest.
Proof.
  unfold mean_of. pose proof (len_pos x rest) as Hn. split.
  - apply Qle_shift_div_l; [exact Hn|]. apply sum_lower. intros y Hy. now apply min_le.
  - apply Qle_shift_div_r; [exact Hn|]. apply sum_upper. intros y Hy. now apply max_ge.
Qed.

(** ** [Math.sqrt] against the square root of the real numbers *)

Lemma Q2R_inject_Z (n : Z) : Q2R (inject_Z n) = IZR n.
Proof. unfold Q2R, inject_Z. simpl. lra. Qed.

Lemma Q2R_nonneg (v : Q) : 0 <= v -> (0 <= Q2R v)%R.
Proof. intros H. apply Qle_Rle in H. now rewrite RMicromega.Q2R_0 in H. Qed.

(** [Math.surd_ltb] decides [Math.sqrt(v) < x] over the real numbers. *)
Lemma surd_ltb_spec (v x : Q) :
  0 <= v ->
  Math.surd_ltb (Math.sqrt v) x = true <-> (sqrt (Q2R v) < Q2R x)%R.
Proof.
  intros Hv. pose proof (Q2R_nonneg v Hv) as Hv'.
  pose proof (sqrt_pos (Q2R v)) as Hs.
  unfold Math.surd_ltb, Math.sqrt. simpl Math.radicand.
  destruct (0 ?= x) eqn:E0.
  - apply Qeq_alt, Qeq_eqR in E0. rewrite RMicromega.Q2R_0 in E0.
    split; [discriminate | lra].
  - apply Qlt_alt, Qlt_Rlt in E0. rewrite RMicromega.Q2R_0 in E0.
    assert (Hx : Q2R x = sqrt (Q2R x * Q2R x)) by (symmetry; apply sqrt_square; lra).
    destruct (v ?= x * x) eqn:E1.
    + apply Qeq_alt, Qeq_eqR in E1. rewrite Q2R_mult in E1.
      split; [discriminate|]. rewrite E1, <- Hx. lra.
    + apply Qlt_alt, Qlt_Rlt in E1. rewrite Q2R_mult in E1.
      split; [intros _ | reflexivity].
      rewrite Hx. apply sqrt_lt_1_alt. lra.
    + apply Qgt_alt, Qlt_Rlt in E1. rewrite Q2R_mult in E1.
      split; [discriminate|]. intros Hlt.
      assert (sqrt (Q2R x * Q2R x) <= sqrt (Q2R v))%R by (apply sqrt_le_1_alt; lra).
      lra.
  - apply Qgt_alt, Qlt_Rlt in E0. rewrite RMicromega.Q2R_0 in E0.
    split; [discriminate | lra].
Qed.

Lemma square_le_inv (a b : R) : (0 <= b -> a * a <= b * b -> a <= b)%R.
Proof. intros Hb H. nra. Qed.

Lemma square_lt_inv (a b : R) : (0 <= b -> a * a < b * b -> a < b)%R.
Proof. intros Hb H. nra. Qed.

(** [Math.round_times_100] is [Math.round(Math.sqrt(v) * 100)] over the
    real numbers: the integer nearest to a hundred times the square root. *)
Lemma round_times_100_spec (v : Q) :
  0 <= v ->
  let k := Math.round_times_100 (Math.sqrt v) in
  (IZR k - / 2 <= 100 * sqrt (Q2R v) < IZR k + / 2)%R.
Proof.
  intros Hv k. subst k. unfold Math.round_times_100, Math.sqrt. simpl Math.radicand.
  set (n := Qfloor (40000 * v)).
  assert (Hn0 : (0 <= n)%Z).
  { unfold n. rewrite <- (Qfloor_Z 0). apply Qfloor_resp_le.
    change (inject_Z 0) with 0. lra. }
  pose proof (Qfloor_le (40000 * v)) as Hlo.
  pose proof (Qlt_floor (40000 * v)) as Hhi.
  fold n in Hlo, Hhi.
  apply Qle_Rle in Hlo. apply Qlt_Rlt in Hhi.
  rewrite Q2R_inject_Z, Q2R_mult in Hlo, Hhi.
  replace (Q2R 40000) with 40000%R in Hlo, Hhi by (unfold Q2R; simpl; lra).
  destruct (Z.sqrt_spec n Hn0) as [Hs1 Hs2].
  pose proof (Z.sqrt_nonneg n) as Hs0.
  set (s := Z.sqrt n) in *.
  assert (Hk1 : (2 * ((s + 1) / 2) - 1 <= s)%Z)
    by (Z.to_euclidean_division_equations; lia).
  assert (Hk2 : (s + 1 <= 2 * ((s + 1) / 2) + 1)%Z)
    by (Z.to_euclidean_division_equations; lia).
  set (k := ((s + 1) / 2)%Z) in *.
  apply IZR_le in Hs1, Hk1, Hk2, Hs0.
  assert (Hs2' : (n + 1 <= (s + 1) * (s + 1))%Z) by lia.
  apply IZR_le in Hs2'.
  rewrite ?mult_IZR, ?plus_IZR, ?minus_IZR in *.
  set (r := sqrt (Q2R v)).
  assert (Hr0 : (0 <= r)%R) by apply sqrt_pos.
  assert (Hrr : (r * r = Q2R v)%R) by (apply sqrt_sqrt, Q2R_nonneg, Hv).
  assert (H1 : (IZR s <= 200 * r)%R).
  { apply square_le_inv; [lra|]. nra. }
  assert (H2 : (200 * r < IZR s + 1)%R).
  { apply square_lt_inv; [lra|]. nra. }
  rewrite mult_IZR in Hk1, Hk2.
  split; lra.
Qed.

(** ** The comparator *)

Lemma numbers_length (vs : list jsval) (qs : list Q) :
  numbers vs = Some qs -> length qs = length vs.
Proof.
  revert qs. induction vs as [|v r IH]; intros qs H; simpl in H.
  - now inversion H.
  - destruct v; try discriminate.
    destruct (numbers r) as [qs'|]; [|discriminate].
    inversion H; subst. simpl. f_equal. now apply IH.
Qed.

Lemma filter_map_length {A B : Type} (f : A -> B) (p : B -> bool) (l : list A) :
  length (List.filter p (List.map f l)) = length (List.filter (fun a => p (f a)) l).
Proof.
  induction l as [|a r IH]; simpl; [reflexivity|].
  destruct (p (f a)); simpl; now rewrite IH.
Qed.

Lemma metricValues_length (ws : list Weather.t) (metric : string) :
  length (ComparisonController.metricValues ws metric)
  = length (List.filter (usable metric) ws).
Proof.
  unfold ComparisonController.metricValues.
  apply (filter_map_length
           (fun w => Weather.metricValue metric (Weather.getStandardizedCurrent w))
           not_nullish).
Qed.

(** The standardized temperature is the raw one passed through [|| null]. *)
Lemma standardized_celsius (w : Weather.t) :
  Weather.metricValue "temperature" (Weather.getStandardizedCurrent w)
  = celsiusOf w ||| JNull.
Proof. reflexivity. Qed.

(** The variance is the population variance: the mean of the squared
    deviations from the mean, with divisor N. *)
Lemma variance_of_population (values : list Q) :
  variance_of values
  == sum (List.map (fun val => (val - mean_of values) * (val - mean_of values)) values)
     / len values.
Proof.
  unfold variance_of. set (m := mean_of values).
  assert (H : forall l a,
             fold_left (fun sum val => sum + Math.pow2 (val - m)) l a
             == a + sum (List.map (fun val => (val - m) * (val - m)) l)).
  { induction l as [|x r IH]; intros a; simpl.
    - unfold sum. simpl. ring.
    - rewrite IH, sum_cons. unfold Math.pow2. ring. }
  rewrite H. now rewrite Qplus_0_l.
Qed.

Lemma sum_squares_nonneg (m : Q) (values : list Q) :
  0 <= sum (List.map (fun val => (val - m) * (val - m)) values).
Proof.
  induction values as [|x r IH]; simpl.
  - apply Qle_refl.
  - rewrite sum_cons.
    assert (H : 0 <= (x - m) * (x - m)) by (generalize (x - m); intros y; nra).
    set (rest := sum _) in *. lra.
Qed.

Lemma variance_nonneg (values : list Q) : 0 <= variance_of values.
Proof.
  rewrite variance_of_population.
  destruct values as [|x r]; [vm_compute; discriminate|].
  apply Qle_shift_div_l; [apply len_pos|].
  rewrite Qmult_0_l. apply sum_squares_nonneg.
Qed.

(** What [compareMetric] reports for a non-empty array of values: the mean
    and the population variance rounded to two decimals, and the hundredth
    nearest to the square root of the full-precision variance. *)
Lemma statistics_reported (x : Q) (rest : list Q) :
  exists r k,
    ComparisonController.statistics (x :: rest) = Some r
    /\ ComparisonController.mean r = round2 (mean_of (x :: rest))
    /\ ComparisonController.variance r = round2 (variance_of (x :: rest))
    /\ ComparisonController.standardDeviation r = inject_Z k / 100
    /\ (IZR k - / 2 <= 100 * sqrt (Q2R (variance_of (x :: rest))) < IZR k + / 2)%R
    /\ (ComparisonController.agreement r = true
        <-> (sqrt (Q2R (variance_of (x :: rest)))
             < Q2R (mean_of (x :: rest) * (1 # 10)))%R).
Proof.
  eexists. eexists. split; [reflexivity|].
  cbn [ComparisonController.mean ComparisonController.variance
       ComparisonController.standardDeviation ComparisonController.agreement].
  split; [reflexivity|]. split; [reflexivity|]. split; [reflexivity|]. split.
  - apply (round_times_100_spec (variance_of (x :: rest))), variance_nonneg.
  - apply surd_ltb_spec, variance_nonneg.
Qed.

(** On an odd number of values the two medians agree; on an even number
    the controller's median is the model's median rounded to an integer. *)
Lemma calculateMedian_odd (values : list Q) :
  (length values mod 2 = 1)%nat ->
  ComparisonController.calculateMedian values = Weather.calculateMedian values.
Proof.
  intros H. unfold ComparisonController.calculateMedian, Weather.calculateMedian.
  destruct values as [|x r]; [discriminate|].
  rewrite sort_length, H. reflexivity.
Qed.

Lemma calculateMedian_even (values : list Q) :
  values <> [] -> (length values mod 2 = 0)%nat ->
  ComparisonController.calculateMedian values
  = inject_Z (Math.round (Weather.calculateMedian values)).
Proof.
  intros Hne H. unfold ComparisonController.calculateMedian, Weather.calculateMedian.
  destruct values as [|x r]; [congruence|].
  rewrite sort_length, H. reflexivity.
Qed.

(** C3 (as stated, refuted).  For records with celsius 10, 12 and 14 the
    comparison does not report agreement = true. *)
Lemma C3_agreement_is_not_true :
  ~ (exists r,
       ComparisonController.compareMetric
         [recordOf "OpenWeatherMap" (withCelsius 10);
          recordOf "WeatherAPI" (withCelsius 12);
          recordOf "AccuWeather" (withCelsius 14)] "temperature"
       = ComparisonController.Result r
       /\ ComparisonController.agreement r = true).
Proof.
  intros [r [H Hagree]]. vm_compute in H. inversion H; subst r.
  discriminate Hagree.
Qed.

(** C3 (amended).  For records whose celsius values are 10, 12 and 14,
    comparing 'temperature' yields mean 12, median 12, variance 2.67,
    standardDeviation 1.63 and agreement = false: agreement is the exact
    comparison of the square root of the full-precision variance with a
    tenth of the full-precision mean, and the square root of 8/3 is not
    below 1.2. *)
Theorem C3_scenario_10_12_14 (w1 w2 w3 : Weather.t) :
  celsiusOf w1 = JNumber 10 ->
  celsiusOf w2 = JNumber 12 ->
  celsiusOf w3 = JNumber 14 ->
  exists r,
    ComparisonController.compareMetric [w1; w2; w3] "temperature"
    = ComparisonController.Result r
    /\ ComparisonController.values r = [10; 12; 14]
    /\ ComparisonController.count r = 3%nat
    /\ ComparisonController.mean r == 12
    /\ ComparisonController.median r == 12
    /\ ComparisonController.variance r == 267 # 100
    /\ ComparisonController.standardDeviation r == 163 # 100
    /\ variance_of [10; 12; 14] == 8 # 3
    /\ ComparisonController.agreement r = false
    /\ (ComparisonController.agreement r = true
        <-> (sqrt (Q2R (variance_of [10; 12; 14]%Q))
             < Q2R (mean_of [10; 12; 14] * (1 # 10))%Q)%R).
Proof.
  intros H1 H2 H3.
  assert (Hv : ComparisonController.metricValues [w1; w2; w3] "temperature"
               = [JNumber 10; JNumber 12; JNumber 14]).
  { unfold ComparisonController.metricValues. simpl List.map.
    rewrite !standardized_celsius, H1, H2, H3. reflexivity. }
  unfold ComparisonController.compareMetric. rewrite Hv.
  eexists. split; [reflexivity|].
  repeat split; try (vm_compute; reflexivity); try discriminate.
  intros Hlt. exfalso. apply surd_ltb_spec in Hlt; [|vm_compute; discriminate].
    vm_compute in Hlt. discriminate Hlt.
Qed.

Lemma C3_scenario_10_12_14_witness :
  celsiusOf (recordOf "OpenWeatherMap" (withCelsius 10)) = JNumber 10
  /\ celsiusOf (recordOf "WeatherAPI" (withCelsius 12)) = JNumber 12
  /\ celsiusOf (recordOf "AccuWeather" (withCelsius 14)) = JNumber 14
  /\ exists r,
       ComparisonController.compareMetric
         [recordOf "OpenWeatherMap" (withCelsius 10);
          recordOf "WeatherAPI" (withCelsius 12);
          recordOf "AccuWeather" (withCelsius 14)] "temperature"
       = ComparisonController.Result r
       /\ ComparisonController.agreement r = false.
Proof.
  repeat (split; [reflexivity|]).
  destruct (C3_scenario_10_12_14
              (recordOf "OpenWeatherMap" (withCelsius 10))
              (recordOf "WeatherAPI" (withCelsius 12))
              (recordOf "AccuWeather" (withCelsius 14))
              eq_refl eq_refl eq_refl) as [r H].
  exists r. split; apply H.
Defined.

(** C2 (code defect, shown at the failing input).  For the two temperatures
    10 and 13 the controller's [compareMetric] reports the median 12, not
    the average 11.5 of the two middle elements, because its
    [calculateMedian] rounds the even-length case to an integer; the model's
    [compareMetricAcrossSources] reports 11.5 on the same records.  Mean,
    variance and standard deviation are the population statistics. *)
Theorem C2_median_of_10_13_is_rounded :
  exists r r',
    ComparisonController.compareMetric
      [recordOf "OpenWeatherMap" (withCelsius 10);
       recordOf "WeatherAPI" (withCelsius 13)] "temperature"
    = ComparisonController.Result r
    /\ ComparisonController.median r == 12
    /\ ~ ComparisonController.median r == (10 + 13) / 2
    /\ ComparisonController.mean r == 23 # 2
    /\ ComparisonController.variance r == 9 # 4
    /\ ComparisonController.standardDeviation r == 3 # 2
    /\ Weather.compareMetricAcrossSources
         [recordOf "OpenWeatherMap" (withCelsius 10);
          recordOf "WeatherAPI" (withCelsius 13)] "temperature"
       = Weather.Result r'
    /\ Weather.median r' == (10 + 13) / 2.
Proof.
  eexists. eexists.
  split; [vm_compute; reflexivity|].
  repeat split; try (vm_compute; reflexivity).
  vm_compute. discriminate.
Qed.

Lemma round2_monotone (x y : Q) : x <= y -> round2 x <= round2 y.
Proof.
  intros H. unfold round2.
  apply Qmult_le_compat_r; [|vm_compute; discriminate].
  rewrite <- Zle_Qle. apply round_monotone. lra.
Qed.

Lemma round2_fixed (a : Q) (k : Z) : a == inject_Z k / 100 -> round2 a == a.
Proof.
  intros H. unfold round2.
  assert (Hk : a * 100 == inject_Z k) by (rewrite H; field).
  rewrite (round_comp _ _ Hk), round_integer. now symmetry.
Qed.

(** What holds of every comparison.  For every list of records whose
    usable values for the metric are numbers, the comparison is [null]
    exactly when no record has a usable value; otherwise [count] is the
    number of records with a usable (standardized, non-null) value, the
    reported mean is within half a hundredth of the interval from [min] to
    [max] and inside it when the values have at most two decimals, and for
    an odd count the median lies between [min] and [max]. *)
Lemma compareMetric_count_and_bounds (ws : list Weather.t) (metric : string)
    (vs : list Q) :
  numbers (ComparisonController.metricValues ws metric) = Some vs ->
  match ComparisonController.compareMetric ws metric with
  | ComparisonController.NotNumeric => False
  | ComparisonController.Null => List.filter (usable metric) ws = []
  | ComparisonController.Result r =>
      ComparisonController.values r = vs
      /\ ComparisonController.count r = length (List.filter (usable metric) ws)
      /\ (1 <= ComparisonController.count r)%nat
      /\ ComparisonController.min r - (1 # 200) <= ComparisonController.mean r
      /\ ComparisonController.mean r <= ComparisonController.max r + (1 # 200)
      /\ (Forall two_decimals vs ->
          ComparisonController.min r <= ComparisonController.mean r
          /\ ComparisonController.mean r <= ComparisonController.max r)
      /\ ((ComparisonController.count r mod 2 = 1)%nat ->
          ComparisonController.min r <= ComparisonController.median r
          /\ ComparisonController.median r <= ComparisonController.max r)
  end.
Proof.
  intros Hnum. unfold ComparisonController.compareMetric. rewrite Hnum.
  pose proof (numbers_length _ _ Hnum) as Hlen.
  rewrite metricValues_length in Hlen.
  destruct vs as [|x rest];
    cbn [ComparisonController.statistics ComparisonController.values
         ComparisonController.count ComparisonController.min
         ComparisonController.max ComparisonController.mean
         ComparisonController.median].
  - simpl in Hlen. symmetry in Hlen. now apply length_zero_iff_nil in Hlen.
  - destruct (mean_between x rest) as [Hlo Hhi].
    destruct (round2_close (mean_of (x :: rest))) as [Hc1 Hc2].
    split; [reflexivity|]. split; [exact Hlen|]. split; [simpl; lia|].
    split; [lra|]. split; [lra|]. split.
    + intros Hdec. rewrite List.Forall_forall in Hdec.
      destruct (Hdec _ (min_In x rest)) as [k Hk].
      destruct (Hdec _ (max_In x rest)) as [k' Hk'].
      split.
      * eapply Qle_trans; [|apply round2_monotone, Hlo].
        rewrite (round2_fixed _ _ Hk). apply Qle_refl.
      * eapply Qle_trans; [apply round2_monotone, Hhi|].
        rewrite (round2_fixed _ _ Hk'). apply Qle_refl.
    + intros Hodd. rewrite (calculateMedian_odd (x :: rest) Hodd).
      unfold Weather.calculateMedian. rewrite sort_length, Hodd.
      cbn [Nat.eqb].
      assert (Hin : In (at_index (sort (x :: rest)) (Math.floor_half (S (length rest))))
                       (x :: rest)).
      { apply at_index_sort_In. unfold Math.floor_half. simpl length.
        apply Nat.div_lt; lia. }
      simpl length.
      split; [now apply min_le | now apply max_ge].
Qed.

(** C8 (code defect, shown at the failing inputs).  Two records that differ
    only by source and report a wind speed of 3.8 mph: the controller's
    [compareMetric] gives count 2, min = max = mean = 3.8 and the median 4,
    above the maximum, because its [calculateMedian] rounds the average of
    the two middle elements to an integer; the model's
    [compareMetricAcrossSources] gives the median 3.8 on the same records.
    Three records reporting 0, 2 and 4 degrees Celsius: the count is 2, not
    3, because standardization has turned the 0 into [null]. *)
Theorem C8_median_above_max :
  exists r r' z,
    ComparisonController.compareMetric
      [recordOf "OpenWeatherMap" (withWindMph (38 # 10));
       recordOf "WeatherAPI" (withWindMph (38 # 10))] "windSpeed"
    = ComparisonController.Result r
    /\ ComparisonController.count r = 2%nat
    /\ ComparisonController.min r == 38 # 10
    /\ ComparisonController.max r == 38 # 10
    /\ ComparisonController.mean r == 38 # 10
    /\ ComparisonController.median r == 4
    /\ ~ ComparisonController.median r <= ComparisonController.max r
    /\ Weather.compareMetricAcrossSources
         [recordOf "OpenWeatherMap" (withWindMph (38 # 10));
          recordOf "WeatherAPI" (withWindMph (38 # 10))] "windSpeed"
       = Weather.Result r'
    /\ Weather.median r' == 38 # 10
    /\ celsiusOf (recordOf "OpenWeatherMap" (withCelsius 0)) = JNumber 0
    /\ ComparisonController.compareMetric
         [recordOf "OpenWeatherMap" (withCelsius 0);
          recordOf "WeatherAPI" (withCelsius 2);
          recordOf "AccuWeather" (withCelsius 4)] "temperature"
       = ComparisonController.Result z
    /\ ComparisonController.count z = 2%nat
    /\ ComparisonController.values z = [2; 4].
Proof.
  eexists. eexists. eexists.
  split; [vm_compute; reflexivity|].
  repeat split; try (vm_compute; reflexivity).
  vm_compute. intros H. apply H. reflexivity.
Qed.

(** ** Query-log analytics *)

Lemma sum_perm (l l' : list Q) : Permutation l l' -> sum l == sum l'.
Proof.
  induction 1 as [|x l l' _ IH|x y l|l l' l'' _ IH1 _ IH2].
  - reflexivity.
  - rewrite !sum_cons, IH. reflexivity.
  - rewrite !sum_cons. ring.
  - now rewrite IH1.
Qed.

Lemma responseTimes_sorted (logs : list QueryLogEntry) :
  QueryLog.responseTimes logs = sort (positiveTimes logs).
Proof. reflexivity. Qed.

Lemma calculateMedian_sort (values : list Q) :
  QueryLog.calculateMedian (sort values) = QueryLog.calculateMedian values.
Proof.
  unfold QueryLog.calculateMedian. now rewrite sort_idempotent, sort_length.
Qed.

Lemma positive_false_zero (log : QueryLogEntry) :
  responseTime log = Some 0 -> positive (responseTime_or_0 log) = false.
Proof. unfold responseTime_or_0. intros ->. reflexivity. Qed.

Lemma positiveTimes_insert (before after : list QueryLogEntry) (hit : QueryLogEntry) :
  positive (responseTime_or_0 hit) = false ->
  positiveTimes (before ++ hit :: after) = positiveTimes (before ++ after).
Proof.
  intros H. unfold positiveTimes.
  rewrite !List.map_app, !List.filter_app. simpl. now rewrite H.
Qed.

Lemma filter_insert_length {A : Type} (p : A -> bool) (l1 l2 : list A) (a : A) :
  length (List.filter p (l1 ++ a :: l2))
  = (length (List.filter p (l1 ++ l2)) + if p a then 1 else 0)%nat.
Proof.
  rewrite !List.filter_app, !length_app. simpl. destruct (p a); simpl; lia.
Qed.

(** The latency part of a [Stats] object. *)
Lemma latency_from_positiveTimes (logs : list QueryLogEntry) :
  let s := QueryLog.calculateStats logs in
  let times := positiveTimes logs in
  QueryLog.averageResponseTime s
  = match times with
    | [] => 0%Z
    | _ => Math.round (sum times / len times)
    end
  /\ QueryLog.medianResponseTime s
     = match times with
       | [] => 0
       | _ => QueryLog.calculateMedian times
       end.
Proof.
  cbv zeta. unfold QueryLog.calculateStats.
  destruct logs as [|l r]; [split; reflexivity|].
  cbn [length Nat.eqb QueryLog.averageResponseTime QueryLog.medianResponseTime].
  rewrite responseTimes_sorted, sort_length.
  destruct (positiveTimes (l :: r)) as [|t ts] eqn:E; [split; reflexivity|].
  cbn [length Nat.ltb Nat.leb]. split.
  - apply round_comp. unfold len. rewrite sort_length.
    now rewrite (sum_perm _ _ (sort_perm (t :: ts))).
  - apply calculateMedian_sort.
Qed.

Lemma calculateStats_counts (logs : list QueryLogEntry) :
  let s := QueryLog.calculateStats logs in
  QueryLog.total s = length logs
  /\ QueryLog.successful s = length (List.filter isSuccess logs)
  /\ QueryLog.failed s = length (List.filter isError logs).
Proof. destruct logs; repeat split; reflexivity. Qed.

(** The success rate is the percentage of the successful entries in all
    entries, as the program computes it. *)
Lemma calculateStats_successRate (logs : list QueryLogEntry) :
  logs <> [] ->
  QueryLog.successRate (QueryLog.calculateStats logs)
  = percentage (length (List.filter isSuccess logs)) (length logs).
Proof. intros Hne. destruct logs as [|l r]; [congruence | reflexivity]. Qed.

(** The four latency fields depend on the log only through the response
    times that are positive. *)
Lemma latency_depends_on_positiveTimes (logs logs' : list QueryLogEntry) :
  positiveTimes logs = positiveTimes logs' ->
  let s := QueryLog.calculateStats logs in
  let s' := QueryLog.calculateStats logs' in
  QueryLog.averageResponseTime s = QueryLog.averageResponseTime s'
  /\ QueryLog.medianResponseTime s = QueryLog.medianResponseTime s'
  /\ QueryLog.minResponseTime s = QueryLog.minResponseTime s'
  /\ QueryLog.maxResponseTime s = QueryLog.maxResponseTime s'.
Proof.
  intros H. cbv zeta.
  assert (Hstats : forall l : list QueryLogEntry,
    let s := QueryLog.calculateStats l in
    let ts := sort (positiveTimes l) in
    QueryLog.averageResponseTime s
    = (if Nat.ltb 0 (length ts) then Math.round (sum ts / len ts) else 0%Z)
    /\ QueryLog.medianResponseTime s
       = (if Nat.ltb 0 (length ts) then QueryLog.calculateMedian ts else 0)
    /\ QueryLog.minResponseTime s
       = match ts with first :: others => Math.min first others | [] => 0 end
    /\ QueryLog.maxResponseTime s
       = match ts with first :: others => Math.max first others | [] => 0 end).
  { intros [|l r]; repeat split; reflexivity. }
  destruct (Hstats logs) as (A1 & A2 & A3 & A4).
  destruct (Hstats logs') as (B1 & B2 & B3 & B4).
  rewrite A1, A2, A3, A4, B1, B2, B3, B4, H. repeat split; reflexivity.
Qed.

Lemma num_ratio (part whole : nat) :
  (0 < whole)%nat -> (part <= whole)%nat -> 0 <= num part / num whole <= 1.
Proof.
  intros Hw Hp.
  assert (0 < num whole) by (unfold num; change 0 with (inject_Z 0); rewrite <- Zlt_Qlt; lia).
  assert (0 <= num part) by (unfold num; change 0 with (inject_Z 0); rewrite <- Zle_Qle; lia).
  assert (num part <= num whole) by (unfold num; rewrite <- Zle_Qle; lia).
  split.
  - apply Qle_shift_div_l; lra.
  - apply Qle_shift_div_r; lra.
Qed.

(** The product rounded by the success rates is within [10 ^ -12] of the
    exact percentage. *)
Lemma percentage_close (part whole : nat) :
  (0 < whole)%nat -> (part <= whole)%nat ->
  Qabs (Float64.mul (Float64.div (num part) (num whole)) 100
        - 100 * num part / num whole) <= 1 # 1000000000000.
Proof.
  intros Hw Hp. destruct (num_ratio part whole Hw Hp) as [Hq0 Hq1].
  unfold Float64.mul, Float64.div.
  set (q := num part / num whole) in *.
  assert (E : 100 * num part / num whole == 100 * q) by (unfold q; field; unfold num;
    change 0 with (inject_Z 0); rewrite inject_Z_injective; lia).
  rewrite E.
  pose proof (fl_within q 1 (1 # 9007199254740992) 0 ltac:(lia) ltac:(reflexivity)
                ltac:(reflexivity) ltac:(lra)) as H1.
  set (a := Float64.fl q) in *.
  pose proof (fl_within (a * 100) 256 (1 # 35184372088832) 8 ltac:(lia) ltac:(reflexivity)
                ltac:(reflexivity) ltac:(lra)) as H2.
  apply Qabs_Qle_condition. lra.
Qed.

Lemma percentage_near (part whole : nat) :
  (0 < whole)%nat -> (part <= whole)%nat ->
  (Math.round (100 * num part / num whole - (1 # 1000000000000))
   <= percentage part whole
   <= Math.round (100 * num part / num whole + (1 # 1000000000000)))%Z.
Proof. intros Hw Hp. apply round_sandwich. now apply percentage_close. Qed.

Lemma percentage_zero (whole : nat) : percentage 0 whole = 0%Z.
Proof.
  unfold percentage, Float64.mul, Float64.div.
  assert (E : num 0 / num whole == 0) by (unfold num; simpl; unfold Qdiv; ring).
  rewrite (fl_comp _ _ E). reflexivity.
Qed.

(** More entries in the whole never raise the rate. *)
Lemma percentage_antitone (part whole whole' : nat) :
  (0 < whole)%nat -> (whole <= whole')%nat ->
  (percentage part whole' <= percentage part whole)%Z.
Proof.
  intros Hw Hle. unfold percentage, Float64.mul, Float64.div.
  assert (Hw1 : 0 < num whole) by (unfold num; change 0 with (inject_Z 0); rewrite <- Zlt_Qlt; lia).
  assert (Hw2 : num whole <= num whole') by (unfold num; rewrite <- Zle_Qle; lia).
  assert (Hp : 0 <= num part) by (unfold num; change 0 with (inject_Z 0); rewrite <- Zle_Qle; lia).
  assert (H0 : 0 <= num part / num whole') by (apply Qle_shift_div_l; lra).
  assert (H1 : num part / num whole' <= num part / num whole).
  { apply Qle_shift_div_r; [lra|].
    assert (E : num part / num whole * num whole' == num part * num whole' / num whole)
      by (field; lra).
    rewrite E. apply Qle_shift_div_l; [exact Hw1|]. nra. }
  pose proof (fl_nonneg _ H0) as Hn.
  pose proof (fl_monotone _ _ H0 H1) as Hm.
  apply round_monotone, fl_monotone; lra.
Qed.

(** For every log, [calculateStats] counts every entry in [total] and, by
    its status, in [successful] or [failed]; the average and the median of
    the response times are taken over the entries with responseTime > 0
    only.  Hence an entry logged with responseTime 0 (a cache hit) changes
    no latency figure, while it counts in total and, by its status, in
    successful or failed. *)
Lemma calculateStats_skips_cache_hits (logs : list QueryLogEntry) :
  let s := QueryLog.calculateStats logs in
  let times := positiveTimes logs in
  QueryLog.total s = length logs
  /\ QueryLog.successful s = length (List.filter isSuccess logs)
  /\ QueryLog.failed s = length (List.filter isError logs)
  /\ QueryLog.averageResponseTime s
     = match times with
       | [] => 0%Z
       | _ => Math.round (sum times / len times)
       end
  /\ QueryLog.medianResponseTime s
     = match times with
       | [] => 0
       | _ => QueryLog.calculateMedian times
       end
  /\ Forall (fun time => 0 < time) times
  /\ forall before hit after,
       logs = (before ++ hit :: after)%list ->
       responseTime hit = Some 0 ->
       let s' := QueryLog.calculateStats (before ++ after) in
       QueryLog.averageResponseTime s = QueryLog.averageResponseTime s'
       /\ QueryLog.medianResponseTime s = QueryLog.medianResponseTime s'
       /\ QueryLog.minResponseTime s = QueryLog.minResponseTime s'
       /\ QueryLog.maxResponseTime s = QueryLog.maxResponseTime s'
       /\ QueryLog.total s = S (QueryLog.total s')
       /\ QueryLog.successful s
          = (QueryLog.successful s' + if isSuccess hit then 1 else 0)%nat
       /\ QueryLog.failed s
          = (QueryLog.failed s' + if isError hit then 1 else 0)%nat.
Proof.
  cbv zeta.
  destruct (calculateStats_counts logs) as (Ht & Hs & Hf).
  destruct (latency_from_positiveTimes logs) as (Ha & Hm).
  split; [exact Ht|]. split; [exact Hs|]. split; [exact Hf|].
  split; [exact Ha|]. split; [exact Hm|]. split.
  - unfold positiveTimes. apply List.Forall_forall. intros t Ht'.
    apply List.filter_In in Ht' as [_ Hpos]. unfold positive in Hpos.
    destruct (0 ?= t) eqn:E; try discriminate. now apply Qlt_alt.
  - intros before hit after -> Hhit.
    destruct (calculateStats_counts (before ++ after)) as (Ht' & Hs' & Hf').
    destruct (latency_depends_on_positiveTimes (before ++ hit :: after) (before ++ after))
      as (L1 & L2 & L3 & L4).
    { apply positiveTimes_insert, positive_false_zero, Hhit. }
    rewrite Ht, Hs, Hf, Ht', Hs', Hf', !filter_insert_length.
    repeat split; try assumption.
    rewrite !length_app. simpl. lia.
Qed.

(** C7 (code defects, shown at the failing input).  On forty calls, twenty answered after
    120 ms, three cache hits logged with response time 0 and seventeen
    errors after 300 ms:

    - [calculateStats] takes the average and the median over the 37
      entries with a positive response time, (20 * 120 + 17 * 300) / 37
      rounded to 203 and 120, and counts the cache hits among the 23
      successes, as the claim says;
    - [getQueryStats] takes its average over all 40 entries, cache hits
      included: 7500 / 40 rounded to 188;
    - both report the success rate 57 where 100 * 23 / 40 = 57.5 rounds to
      58: the quotient 23 / 40 is rounded before it is multiplied by 100,
      which gives 57.49999999999999 in binary64 arithmetic. *)
Theorem C7_cache_hits_and_success_rate :
  let s := QueryLog.calculateStats fortyCalls in
  let q := LoggerService.getQueryStats fortyCalls in
  QueryLog.total s = 40%nat
  /\ QueryLog.successful s = 23%nat
  /\ QueryLog.failed s = 17%nat
  /\ Math.round ((20 * 120 + 17 * 300) / 37) = 203%Z
  /\ QueryLog.averageResponseTime s = 203%Z
  /\ QueryLog.medianResponseTime s == 120
  /\ LoggerService.totalQueries q = 40%nat
  /\ LoggerService.successfulQueries q = 23%nat
  /\ Math.round ((20 * 120 + 3 * 0 + 17 * 300) / 40) = 188%Z
  /\ LoggerService.averageResponseTime q = 188%Z
  /\ Math.round (100 * 23 / 40) = 58%Z
  /\ QueryLog.successRate s = 57%Z
  /\ LoggerService.successRate q = 57%Z.
Proof. cbv zeta. repeat split; vm_compute; reflexivity. Qed.

Lemma status_classes (logs : list QueryLogEntry) :
  length logs
  = (length (List.filter isSuccess logs) + length (List.filter isError logs)
     + length (List.filter isOther logs))%nat.
Proof.
  induction logs as [|l r IH]; [reflexivity|].
  simpl. unfold isOther, isSuccess, isError in *.
  destruct (String.eqb (status l) "success") eqn:Es;
    destruct (String.eqb (status l) "error") eqn:Ee; simpl; try lia.
  apply String.eqb_eq in Es, Ee. congruence.
Qed.

Lemma filter_nonempty {A : Type} (p : A -> bool) (l : list A) :
  Exists (fun a => p a = true) l -> (0 < length (List.filter p l))%nat.
Proof.
  induction 1 as [a l Ha|a l _ IH]; simpl.
  - rewrite Ha. simpl. lia.
  - destruct (p a); simpl; lia.
Qed.

Lemma num_nonneg (n : nat) : 0 <= num n.
Proof. unfold num. change 0 with (inject_Z 0). rewrite <- Zle_Qle. lia. Qed.

Lemma num_pos (n : nat) : (0 < n)%nat -> 0 < num n.
Proof. intros H. unfold num. change 0 with (inject_Z 0). rewrite <- Zlt_Qlt. lia. Qed.

Lemma num_le (m n : nat) : (m <= n)%nat -> num m <= num n.
Proof. intros H. unfold num. rewrite <- Zle_Qle. lia. Qed.

Lemma filter_known_success (logs : list QueryLogEntry) :
  List.filter isSuccess (knownStatus logs) = List.filter isSuccess logs.
Proof.
  unfold knownStatus. induction logs as [|l r IH]; [reflexivity|].
  simpl. unfold isOther at 1.
  destruct (isSuccess l) eqn:Es; simpl; [rewrite Es; now f_equal|].
  destruct (isError l); simpl; [rewrite Es|]; exact IH.
Qed.

Lemma filter_known_error (logs : list QueryLogEntry) :
  List.filter isError (knownStatus logs) = List.filter isError logs.
Proof.
  unfold knownStatus. induction logs as [|l r IH]; [reflexivity|].
  simpl. unfold isOther at 1.
  destruct (isSuccess l) eqn:Es; destruct (isError l) eqn:Ee; simpl;
    rewrite ?Ee; try exact IH; now f_equal.
Qed.

Lemma filter_known_other (logs : list QueryLogEntry) :
  List.filter isOther (knownStatus logs) = [].
Proof.
  unfold knownStatus. induction logs as [|l r IH]; [reflexivity|].
  simpl. destruct (isOther l) eqn:E; simpl; [exact IH|]. now rewrite E.
Qed.

Lemma knownStatus_length (logs : list QueryLogEntry) :
  length (knownStatus logs)
  = (length (List.filter isSuccess logs) + length (List.filter isError logs))%nat.
Proof.
  rewrite (status_classes (knownStatus logs)).
  rewrite filter_known_success, filter_known_error, filter_known_other. simpl. lia.
Qed.

(** C10 (as stated, refuted).  One success and nineteen errors report the
    success rate 5; with one more entry of another status the rate is
    100 / 21 = 4.76..., still reported as 5.  A log without a success
    reports 0 with or without such entries. *)
Lemma C10_rate_not_lowered :
  let success := {| apiName := "WeatherAPI"; responseTime := Some 500; status := "success" |} in
  let error := {| apiName := "WeatherAPI"; responseTime := Some 600; status := "error" |} in
  let timeout := {| apiName := "AccuWeather"; responseTime := Some 700; status := "timeout" |} in
  isOther timeout = true
  /\ QueryLog.successRate (QueryLog.calculateStats (success :: repeat error 19)) = 5%Z
  /\ QueryLog.successRate (QueryLog.calculateStats (success :: repeat error 19 ++ [timeout]))
     = 5%Z
  /\ QueryLog.successRate (QueryLog.calculateStats [error]) = 0%Z
  /\ QueryLog.successRate (QueryLog.calculateStats [error; timeout]) = 0%Z.
Proof. cbv zeta. repeat split; vm_compute; reflexivity. Qed.

(** C10 (amended).  [calculateStats] counts as successful the entries whose
    status is exactly 'success' and as failed those whose status is exactly
    'error'.  Every entry is in [total], so total = successful + failed +
    (entries with any other status); hence successful + failed <= total,
    strictly as soon as one entry has another status.  [total] is the
    denominator of successRate: the rate is 100 * successful / total
    rounded to an integer, in binary64 arithmetic (a value within 10^-12
    of a half can go either way).  Entries with another status therefore
    never raise the reported rate: it is at most the rate of the log
    without them. *)
Theorem C10_other_statuses_count_in_total (logs : list QueryLogEntry) :
  let s := QueryLog.calculateStats logs in
  let others := length (List.filter isOther logs) in
  let s' := QueryLog.calculateStats (knownStatus logs) in
  QueryLog.successful s = length (List.filter isSuccess logs)
  /\ QueryLog.failed s = length (List.filter isError logs)
  /\ QueryLog.total s = (QueryLog.successful s + QueryLog.failed s + others)%nat
  /\ (QueryLog.successful s + QueryLog.failed s <= QueryLog.total s)%nat
  /\ (Exists (fun log => isOther log = true) logs ->
      (QueryLog.successful s + QueryLog.failed s < QueryLog.total s)%nat)
  /\ (logs <> [] ->
      (Math.round (100 * num (QueryLog.successful s)
                   / num (QueryLog.successful s + QueryLog.failed s + others)
                   - (1 # 1000000000000))
       <= QueryLog.successRate s
       <= Math.round (100 * num (QueryLog.successful s)
                      / num (QueryLog.successful s + QueryLog.failed s + others)
                      + (1 # 1000000000000)))%Z)
  /\ QueryLog.successful s' = QueryLog.successful s
  /\ QueryLog.failed s' = QueryLog.failed s
  /\ QueryLog.total s' = (QueryLog.successful s + QueryLog.failed s)%nat
  /\ (QueryLog.successRate s <= QueryLog.successRate s')%Z.
Proof.
  cbv zeta.
  destruct (calculateStats_counts logs) as (Ht & Hs & Hf).
  destruct (calculateStats_counts (knownStatus logs)) as (Ht' & Hs' & Hf').
  rewrite filter_known_success in Hs'. rewrite filter_known_error in Hf'.
  rewrite knownStatus_length in Ht'.
  pose proof (status_classes logs) as Hc.
  assert (Htot : QueryLog.total (QueryLog.calculateStats logs)
                 = (QueryLog.successful (QueryLog.calculateStats logs)
                    + QueryLog.failed (QueryLog.calculateStats logs)
                    + length (List.filter isOther logs))%nat)
    by (rewrite Ht, Hs, Hf; exact Hc).
  split; [exact Hs|]. split; [exact Hf|]. split; [exact Htot|].
  split; [lia|]. split; [|split; [|split; [|split; [|split]]]].
  - intros Hex. apply filter_nonempty in Hex. lia.
  - intros Hne. rewrite (calculateStats_successRate logs Hne).
    rewrite <- Htot, Ht, Hs.
    apply percentage_near.
    + destruct logs; [congruence | simpl; lia].
    + apply List.filter_length_le.
  - now rewrite Hs', Hs.
  - now rewrite Hf', Hf.
  - now rewrite Ht', Hs, Hf.
  - destruct logs as [|l r] eqn:El; [reflexivity|]. rewrite <- El in *.
    assert (Hne : logs <> []) by (rewrite El; discriminate).
    rewrite (calculateStats_successRate logs Hne).
    destruct (knownStatus logs) as [|l' r'] eqn:Ek.
    + assert (Hz : length (List.filter isSuccess logs) = 0%nat).
      { rewrite <- filter_known_success, Ek. reflexivity. }
      rewrite Hz, percentage_zero. reflexivity.
    + rewrite <- Ek. rewrite calculateStats_successRate by (rewrite Ek; discriminate).
      rewrite filter_known_success.
      apply percentage_antitone.
      * rewrite Ek. simpl. lia.
      * unfold knownStatus. apply List.filter_length_le.
Qed.

Lemma C10_other_statuses_count_in_total_witness :
  let logs :=
    [ {| apiName := "WeatherAPI"; responseTime := Some 500; status := "success" |};
      {| apiName := "WeatherAPI"; responseTime := Some 600; status := "error" |};
      {| apiName := "AccuWeather"; responseTime := Some 700; status := "timeout" |} ] in
  Exists (fun log => isOther log = true) logs
  /\ logs <> []
  /\ (QueryLog.successful (QueryLog.calculateStats logs)
      + QueryLog.failed (QueryLog.calculateStats logs)
      < QueryLog.total (QueryLog.calculateStats logs))%nat
  /\ (33 <= QueryLog.successRate (QueryLog.calculateStats logs) <= 33)%Z.
Proof.
  cbv zeta.
  assert (Hex : Exists (fun log => isOther log = true)
    [ {| apiName := "WeatherAPI"; responseTime := Some 500; status := "success" |};
      {| apiName := "WeatherAPI"; responseTime := Some 600; status := "error" |};
      {| apiName := "AccuWeather"; responseTime := Some 700; status := "timeout" |} ]).
  { apply Exists_cons_tl, Exists_cons_tl, Exists_cons_hd. reflexivity. }
  split; [exact Hex|]. split; [discriminate|].
  pose proof (C10_other_statuses_count_in_total
    [ {| apiName := "WeatherAPI"; responseTime := Some 500; status := "success" |};
      {| apiName := "WeatherAPI"; responseTime := Some 600; status := "error" |};
      {| apiName := "AccuWeather"; responseTime := Some 700; status := "timeout" |} ]) as H.
  cbv zeta in H. destruct H as (_ & _ & _ & _ & Hlt & Hrate & _).
  split; [exact (Hlt Hex)|].
  exact (Hrate ltac:(discriminate)).
Defined.

(** ** Wind speed in the three adapters *)

Lemma three_point_six :
  Float64.fl (36 # 10) = 8106479329266893 # 2251799813685248.
Proof. vm_compute. reflexivity. Qed.

(** [(kmh / 3.6) * 100] as the program computes it, against the exact
    value. *)
Lemma div_3_6_close (x : Q) :
  0 <= x <= 1000 ->
  Qabs (Float64.mul (Float64.div x (Float64.fl (36 # 10))) 100
        - 100 * (x / (36 # 10))) <= 1 # 1000000000.
Proof.
  intros Hx. unfold Float64.mul, Float64.div. rewrite three_point_six.
  set (c := 8106479329266893 # 2251799813685248).
  assert (Ediv : x / c == x * (2251799813685248 # 8106479329266893))
    by (unfold c; field).
  assert (E36 : x / (36 # 10) == x * (10 # 36)) by field.
  pose proof (fl_within (x / c) 512 (1 # 17592186044416) 9 ltac:(lia) ltac:(reflexivity)
                ltac:(reflexivity) ltac:(rewrite Ediv; lra)) as H1.
  set (y := Float64.fl (x / c)) in *.
  pose proof (fl_within (y * 100) 65536 (1 # 137438953472) 16 ltac:(lia)
                ltac:(reflexivity) ltac:(reflexivity) ltac:(rewrite Ediv in H1; lra)) as H2.
  rewrite Ediv in H1. rewrite E36.
  apply Qabs_Qle_condition. lra.
Qed.

(** [(mps * 3.6) * 100] likewise. *)
Lemma mul_3_6_close (x : Q) :
  0 <= x <= 1000 ->
  Qabs (Float64.mul (Float64.mul x (Float64.fl (36 # 10))) 100
        - 100 * (x * (36 # 10))) <= 1 # 1000000000.
Proof.
  intros Hx. unfold Float64.mul. rewrite three_point_six.
  pose proof (fl_within (x * (8106479329266893 # 2251799813685248))
                4096 (1 # 2199023255552) 12 ltac:(lia) ltac:(reflexivity)
                ltac:(reflexivity) ltac:(lra)) as H1.
  set (y := Float64.fl (x * (8106479329266893 # 2251799813685248))) in *.
  pose proof (fl_within (y * 100) 524288 (1 # 17179869184) 19 ltac:(lia)
                ltac:(reflexivity) ltac:(reflexivity) ltac:(lra)) as H2.
  apply Qabs_Qle_condition. lra.
Qed.

Lemma fifths (m : Z) :
  exists q r : Z, (0 <= r < 5)%Z /\ inject_Z m == 5 * inject_Z q + inject_Z r.
Proof.
  exists (m / 5)%Z, (m mod 5)%Z. split; [apply Z.mod_pos_bound; lia|].
  rewrite (Z.div_mod m 5) at 1 by lia.
  rewrite inject_Z_plus, inject_Z_mult. reflexivity.
Qed.

(** A number within [10 ^ -8] of a multiple of one fifth rounds to an
    integer that is within two fifths of that multiple. *)
Lemma round_near_fifths (z : Q) (m : Z) :
  Qabs (z - inject_Z m / 5) <= 1 # 100000000 ->
  Qabs (inject_Z (Math.round z) - inject_Z m / 5) <= 2 # 5.
Proof.
  assert (E5 : inject_Z m / 5 == inject_Z m * (1 # 5)) by field.
  rewrite E5. intros H. apply Qabs_Qle_condition in H.
  destruct (fifths m) as (q & r & Hr & E).
  assert (Hcases : r = 0%Z \/ r = 1%Z \/ r = 2%Z \/ r = 3%Z \/ r = 4%Z) by lia.
  assert (Hq : inject_Z (q + 1) == inject_Z q + 1)
    by (rewrite inject_Z_plus; reflexivity).
  destruct Hcases as [-> | [-> | [-> | [-> | ->]]]];
    [change (inject_Z 0) with 0 in E | change (inject_Z 1) with 1 in E
     | change (inject_Z 2) with 2 in E | change (inject_Z 3) with 3 in E
     | change (inject_Z 4) with 4 in E].
  1-3: assert (Hround : Math.round z = q) by (apply round_unique; lra);
       rewrite Hround; apply Qabs_Qle_condition; lra.
  1-2: assert (Hround : Math.round z = (q + 1)%Z) by (apply round_unique; lra);
       rewrite Hround; apply Qabs_Qle_condition; lra.
Qed.

(** OpenWeatherMap: a speed with two decimals comes back from the
    kilometres per hour derived from it. *)
Lemma openweather_roundtrip (n : Z) :
  (0 <= n <= 100000)%Z ->
  let w := OpenWeatherService.transformWindSpeed (hundredths n) in
  mps w = hundredths (Math.round (100 * (kmh w / (36 # 10)))).
Proof.
  intros Hn. cbv zeta.
  cbn [OpenWeatherService.transformWindSpeed mps kmh].
  unfold Float64.round2.
  set (K := Math.round
              (Float64.mul (Float64.mul (hundredths n) (Float64.fl (36 # 10))) 100)).
  fold (hundredths K).
  assert (Hn0 : 0 <= inject_Z n) by (change 0 with (inject_Z 0); rewrite <- Zle_Qle; lia).
  assert (Hn1 : inject_Z n <= 100000)
    by (change 100000 with (inject_Z 100000); rewrite <- Zle_Qle; lia).
  assert (En : inject_Z n / 100 == inject_Z n * (1 # 100)) by field.
  pose proof (fl_within (inject_Z n * (1 # 100)) 1024 (1 # 8796093022208) 10 ltac:(lia)
                ltac:(reflexivity) ltac:(reflexivity) ltac:(lra)) as Hs.
  assert (Es : hundredths n = Float64.fl (inject_Z n * (1 # 100)))
    by (unfold hundredths, Float64.div; now rewrite (fl_comp _ _ En)).
  rewrite <- Es in Hs.
  assert (Hrange : 0 <= hundredths n <= 1000).
  { rewrite Es. apply (fl_below _ 1000); [lia | change (inject_Z 1000) with 1000; lra]. }
  assert (Hz : Qabs (Float64.mul (Float64.mul (hundredths n) (Float64.fl (36 # 10))) 100
                     - inject_Z (18 * n) / 5) <= 1 # 100000000).
  { pose proof (mul_3_6_close (hundredths n) Hrange) as Hz.
    apply Qabs_Qle_condition in Hz. apply Qabs_Qle_condition.
    assert (E : inject_Z (18 * n) / 5 == (36 # 10) * inject_Z n)
      by (rewrite inject_Z_mult; field).
    rewrite E. lra. }
  apply round_near_fifths in Hz. fold K in Hz.
  assert (E18 : inject_Z (18 * n) / 5 == (36 # 10) * inject_Z n)
    by (rewrite inject_Z_mult; field).
  rewrite E18 in Hz. apply Qabs_Qle_condition in Hz.
  unfold hundredths, Float64.div.
  assert (EK : inject_Z K / 100 == inject_Z K * (1 # 100)) by field.
  pose proof (fl_within (inject_Z K * (1 # 100)) 4096 (1 # 2199023255552) 12 ltac:(lia)
                ltac:(reflexivity) ltac:(reflexivity) ltac:(lra)) as Hh.
  rewrite (fl_comp _ _ EK).
  set (h := Float64.fl (inject_Z K * (1 # 100))) in *.
  assert (E1 : 100 * (h / (36 # 10)) == h * (1000 # 36)) by field.
  symmetry. apply (f_equal (fun k => Float64.fl (inject_Z k / 100))).
  apply round_unique; rewrite E1; lra.
Qed.

(** C5 (as stated, refuted).  OpenWeatherMap passes the provider's metres
    per second through and derives km/h from it: for 1.234 m/s the record
    has kmh = 4.44, and 4.44 / 3.6 = 1.2333... rounds to 1.23, which is not
    the record's mps. *)
Lemma C5_openweather_mps_is_not_derived :
  let w := OpenWeatherService.transformWindSpeed (Float64.fl (1234 # 1000)) in
  mps w = Float64.fl (1234 # 1000)
  /\ kmh w = hundredths 444
  /\ Math.round (100 * (kmh w / (36 # 10))) = 123%Z
  /\ mps w <> hundredths 123.
Proof.
  cbv zeta. repeat split; try (vm_compute; reflexivity).
  vm_compute. discriminate.
Qed.

(** What the WeatherAPI adapter makes of 0.99 km/h, which is 0.275 m/s:
    the quotient comes out just below 27.5 hundredths, and the record has
    0.27 where the decimal rounds to 0.28. *)
Lemma weatherapi_mps_of_0_99 :
  let w := WeatherApiService.transformWindSpeed 0 (Float64.fl (99 # 100)) in
  mps w = hundredths 27
  /\ Math.round (100 * ((99 # 100) / (36 # 10))) = 28%Z.
Proof. cbv zeta. split; vm_compute; reflexivity. Qed.

(** C5 (amended).  For speeds up to 1000: the WeatherAPI and AccuWeather
    adapters keep the provider's km/h and give mps as kmh / 3.6 rounded to
    two decimals, in binary64 arithmetic: the number of hundredths is the
    nearest integer to 100 * kmh / 3.6, where a value within 10^-9 of a
    half can go either way.  The OpenWeatherMap adapter keeps the
    provider's m/s and gives kmh as mps * 3.6 rounded likewise; when the
    provider's speed has at most two decimals, its mps is kmh / 3.6
    rounded to two decimals. *)
Theorem C5_wind_speed_relations :
  (forall wind_mph wind_kph,
      0 <= wind_kph <= 1000 ->
      let w := WeatherApiService.transformWindSpeed wind_mph wind_kph in
      kmh w = wind_kph
      /\ exists k,
           mps w = hundredths k
           /\ (Math.round (100 * (kmh w / (36 # 10)) - (1 # 1000000000)) <= k
               <= Math.round (100 * (kmh w / (36 # 10)) + (1 # 1000000000)))%Z)
  /\ (forall metric imperial,
         0 <= metric <= 1000 ->
         let w := AccuWeatherService.transformWindSpeed metric imperial in
         kmh w = metric
         /\ exists k,
              mps w = hundredths k
              /\ (Math.round (100 * (kmh w / (36 # 10)) - (1 # 1000000000)) <= k
                  <= Math.round (100 * (kmh w / (36 # 10)) + (1 # 1000000000)))%Z)
  /\ (forall speed,
         0 <= speed <= 1000 ->
         let w := OpenWeatherService.transformWindSpeed speed in
         mps w = speed
         /\ exists k,
              kmh w = hundredths k
              /\ (Math.round (100 * (mps w * (36 # 10)) - (1 # 1000000000)) <= k
                  <= Math.round (100 * (mps w * (36 # 10)) + (1 # 1000000000)))%Z)
  /\ (forall n,
         (0 <= n <= 100000)%Z ->
         let w := OpenWeatherService.transformWindSpeed (hundredths n) in
         mps w = hundredths n
         /\ mps w = hundredths (Math.round (100 * (kmh w / (36 # 10))))).
Proof.
  split; [|split; [|split]].
  - intros wind_mph wind_kph H. cbv zeta. split; [reflexivity|].
    eexists. split; [reflexivity|].
    apply round_sandwich, div_3_6_close, H.
  - intros metric imperial H. cbv zeta. split; [reflexivity|].
    eexists. split; [reflexivity|].
    apply round_sandwich, div_3_6_close, H.
  - intros speed H. cbv zeta. split; [reflexivity|].
    eexists. split; [reflexivity|].
    apply round_sandwich, mul_3_6_close, H.
  - intros n H. cbv zeta. split; [reflexivity|]. now apply openweather_roundtrip.
Qed.

Lemma C5_wind_speed_relations_witness :
  0 <= Float64.fl (99 # 100) <= 1000
  /\ kmh (WeatherApiService.transformWindSpeed 0 (Float64.fl (99 # 100)))
     = Float64.fl (99 # 100)
  /\ (0 <= 550 <= 100000)%Z
  /\ mps (OpenWeatherService.transformWindSpeed (hundredths 550)) = hundredths 550.
Proof.
  assert (H : 0 <= Float64.fl (99 # 100) <= 1000)
    by (split; vm_compute; discriminate).
  assert (Hn : (0 <= 550 <= 100000)%Z) by lia.
  destruct C5_wind_speed_relations as (Hweather & _ & _ & Hopen).
  split; [exact H|]. split; [exact (proj1 (Hweather 0 _ H))|].
  split; [exact Hn|]. exact (proj1 (Hopen 550%Z Hn)).
Defined.

(** ** The circuit breaker *)

Lemma failed_attempt (p : provider) (cb : circuitBreaker) (c : call) :
  isFailure (outcome c) = true ->
  breakerAfter (tryFetch p cb c)
  = {| failures := S (failures cb);
       lastFailureTime := Some (startTime c + duration c)%Z;
       state := if Nat.leb 5 (S (failures cb)) then OPEN else state cb |}
  /\ exists message, resultOf (tryFetch p cb c) = Throw message.
Proof.
  unfold tryFetch. destruct (outcome c); try discriminate; intros _;
    (split; [reflexivity | eexists; reflexivity]).
Qed.

Lemma failed_call_closed (p : provider) (cb : circuitBreaker) (c : call) :
  state cb = CLOSED ->
  isFailure (outcome c) = true ->
  breakerAfter (callCurrentWeather p true cb c)
  = {| failures := S (failures cb);
       lastFailureTime := Some (startTime c + duration c)%Z;
       state := if Nat.leb 5 (S (failures cb)) then OPEN else CLOSED |}.
Proof.
  intros Hs Hf. unfold callCurrentWeather, gate. rewrite Hs. simpl negb. cbv iota.
  destruct (failed_attempt p cb c Hf) as [H _]. rewrite H, Hs. reflexivity.
Qed.

(** A cache hit returns before the breaker is touched: it neither counts
    as a failure nor resets the breaker. *)
Lemma cache_hit_keeps_breaker (p : provider) (cb : circuitBreaker) (c : call)
    (cachedData : jsval) :
  outcome c = CacheHit cachedData ->
  tryFetch p cb c = (cb, Return cachedData, [CacheGet; LogQuery "success" 0]).
Proof. intros H. unfold tryFetch. now rewrite H. Qed.

(** C6.  Starting from a closed breaker with no recorded failure, five
    consecutive failing calls leave the breaker OPEN with failure count 5.
    A sixth call made less than 60 seconds after the last failure throws
    the circuit-open error, changes nothing and performs no cache, transport
    or log operation.  A call made 60 seconds or more after the last
    failure passes the gate with the breaker HALF_OPEN and is attempted: a
    successful fetch goes through the transport and resets the breaker to
    CLOSED with failure count 0, a failure re-opens it. *)
Theorem C6_circuit_breaker (p : provider) (cb : circuitBreaker) (c1 c2 c3 c4 c5 : call) :
  state cb = CLOSED ->
  failures cb = 0%nat ->
  Forall (fun c => isFailure (outcome c) = true) [c1; c2; c3; c4; c5] ->
  let opened := callsCurrentWeather p cb [c1; c2; c3; c4; c5] in
  let last := (startTime c5 + duration c5)%Z in
  state opened = OPEN
  /\ failures opened = 5%nat
  /\ lastFailureTime opened = Some last
  /\ (forall c6, (startTime c6 - last < 60000)%Z ->
        callCurrentWeather p true opened c6 = (opened, Throw circuitOpenMessage, []))
  /\ (forall c6, (60000 <= startTime c6 - last)%Z ->
        gate opened (startTime c6)
        = Return {| failures := 5; lastFailureTime := Some last; state := HALF_OPEN |}
        /\ (forall responseData, outcome c6 = Fetched responseData ->
             let r := callCurrentWeather p true opened c6 in
             resultOf r = Return responseData
             /\ In HttpGet (eventsOf r)
             /\ state (breakerAfter r) = CLOSED
             /\ failures (breakerAfter r) = 0%nat)
        /\ (isFailure (outcome c6) = true ->
             let r := callCurrentWeather p true opened c6 in
             state (breakerAfter r) = OPEN
             /\ failures (breakerAfter r) = 6%nat)).
Proof.
  intros Hs Hf Hall. cbv zeta.
  inversion Hall as [|? ? F1 Hall1]; subst.
  inversion Hall1 as [|? ? F2 Hall2]; subst.
  inversion Hall2 as [|? ? F3 Hall3]; subst.
  inversion Hall3 as [|? ? F4 Hall4]; subst.
  inversion Hall4 as [|? ? F5 _]; subst.
  assert (Hopened : callsCurrentWeather p cb [c1; c2; c3; c4; c5]
                    = {| failures := 5;
                         lastFailureTime := Some (startTime c5 + duration c5)%Z;
                         state := OPEN |}).
  { simpl. fold (breakerAfter (callCurrentWeather p true cb c1)).
    rewrite (failed_call_closed p cb c1 Hs F1), Hf. simpl Nat.leb. cbv iota.
    repeat match goal with
    | |- context [fst (fst (callCurrentWeather p true ?b ?c))] =>
        fold (breakerAfter (callCurrentWeather p true b c));
        rewrite (failed_call_closed p b c eq_refl ltac:(assumption));
        simpl failures; simpl Nat.leb; cbv iota
    end.
    reflexivity. }
  rewrite Hopened. simpl state. simpl failures. simpl lastFailureTime.
  split; [reflexivity|]. split; [reflexivity|]. split; [reflexivity|]. split.
  - intros c6 Hsoon. unfold callCurrentWeather, gate, timeSinceFailure.
    simpl. apply Z.ltb_lt in Hsoon. now rewrite Hsoon.
  - intros c6 Hlate.
    assert (Hgate : gate {| failures := 5;
                            lastFailureTime := Some (startTime c5 + duration c5)%Z;
                            state := OPEN |} (startTime c6)
                    = Return {| failures := 5;
                                lastFailureTime := Some (startTime c5 + duration c5)%Z;
                                state := HALF_OPEN |}).
    { unfold gate, timeSinceFailure. simpl.
      apply Z.ltb_ge in Hlate. now rewrite Hlate. }
    split; [exact Hgate|]. split.
    + intros responseData Hout. unfold callCurrentWeather. simpl negb. cbv iota.
      rewrite Hgate. unfold tryFetch. rewrite Hout.
      repeat split; try reflexivity. simpl. auto.
    + intros Hfail. unfold callCurrentWeather. simpl negb. cbv iota.
      rewrite Hgate.
      destruct (failed_attempt p {| failures := 5;
                                    lastFailureTime := Some (startTime c5 + duration c5)%Z;
                                    state := HALF_OPEN |} c6 Hfail) as [H _].
      rewrite H. split; reflexivity.
Qed.

Lemma C6_circuit_breaker_witness :
  let failing (t : Z) :=
    {| startTime := t; duration := 250; outcome := TransportFails "Service Unavailable" |} in
  let opened :=
    callsCurrentWeather OpenWeatherService.this initialBreaker
      [failing 0%Z; failing 1000%Z; failing 2000%Z; failing 3000%Z; failing 4000%Z] in
  state initialBreaker = CLOSED
  /\ failures initialBreaker = 0%nat
  /\ state opened = OPEN
  /\ failures opened = 5%nat.
Proof.
  cbv zeta. split; [reflexivity|]. split; [reflexivity|].
  pose proof (C6_circuit_breaker OpenWeatherService.this initialBreaker
    {| startTime := 0; duration := 250; outcome := TransportFails "Service Unavailable" |}
    {| startTime := 1000; duration := 250; outcome := TransportFails "Service Unavailable" |}
    {| startTime := 2000; duration := 250; outcome := TransportFails "Service Unavailable" |}
    {| startTime := 3000; duration := 250; outcome := TransportFails "Service Unavailable" |}
    {| startTime := 4000; duration := 250; outcome := TransportFails "Service Unavailable" |}
    eq_refl eq_refl
    ltac:(repeat constructor)) as H.
  cbv zeta in H. destruct H as (H1 & H2 & _). split; [exact H1 | exact H2].
Defined.

(** ** Location cleaning *)

Lemma chars_str (l : list ascii) : chars (str l) = l.
Proof. apply String.list_ascii_of_string_of_list_ascii. Qed.

Ltac bool_facts :=
  repeat match goal with
  | H : _ && _ = true |- _ => apply andb_prop in H; destruct H
  | H : _ || _ = true |- _ => apply orb_prop in H; destruct H
  | H : Nat.leb _ _ = true |- _ => apply Nat.leb_le in H
  | H : Nat.eqb _ _ = true |- _ => apply Nat.eqb_eq in H
  | H : Ascii.eqb _ _ = true |- _ => apply Ascii.eqb_eq in H
  end.

Lemma upper_of_upper (c : ascii) : is_upper c = true -> is_ws c = false.
Proof.
  intros H. destruct (is_ws c) eqn:E; [|reflexivity].
  unfold is_upper, is_ws in *. bool_facts; lia.
Qed.

Lemma letter_not_ws (c : ascii) : ukConfig.letter c = true -> is_ws (upper c) = false.
Proof. apply upper_of_upper. Qed.

Lemma digit_upper (c : ascii) : is_digit c = true -> upper c = c.
Proof.
  intros H. unfold upper. destruct (is_lower c) eqn:E; [|reflexivity].
  unfold is_digit, is_lower in *. bool_facts; lia.
Qed.

Lemma digit_not_ws (c : ascii) : is_digit c = true -> is_ws c = false.
Proof.
  intros H. destruct (is_ws c) eqn:E; [|reflexivity].
  unfold is_digit, is_ws in *. bool_facts; lia.
Qed.

Lemma digit_not_upper (c : ascii) : is_digit c = true -> is_upper c = false.
Proof.
  intros H. destruct (is_upper c) eqn:E; [|reflexivity].
  unfold is_digit, is_upper in *. bool_facts; lia.
Qed.

Lemma digit_or_R_not_ws (c : ascii) :
  ukConfig.digit_or_R c = true -> is_ws (upper c) = false.
Proof.
  unfold ukConfig.digit_or_R. intros H. bool_facts.
  - rewrite (digit_upper c H). now apply digit_not_ws.
  - rewrite H. reflexivity.
Qed.

Lemma inward_space (l : list ascii) :
  ukConfig.inward l = true -> In " "%char l.
Proof.
  unfold ukConfig.inward.
  destruct l as [|sp [|d [|u1 [|u2 [|? ?]]]]]; try discriminate.
  intros H. bool_facts. subst. now left.
Qed.

Lemma district_space (l : list ascii) :
  ukConfig.district l = true ->
  In " "%char l
  /\ exists c rest, l = c :: rest /\ ukConfig.digit_or_R c = true.
Proof.
  unfold ukConfig.district. destruct l as [|c rest]; [discriminate|].
  intros H. apply andb_prop in H as [Hc H]. split.
  - right. apply orb_prop in H as [H|H].
    + destruct rest as [|c' rest']; [discriminate|].
      apply andb_prop in H as [_ H]. right. now apply inward_space.
    + now apply inward_space.
  - eauto.
Qed.

(** A string accepted by the postcode expression starts with a letter,
    goes on with a letter, a digit or an R, and has a space further on. *)
Lemma postcode_shape (s : string) :
  ukConfig.postcodeRegex_test s = true ->
  exists c1 c2 rest,
    chars s = c1 :: c2 :: rest
    /\ ukConfig.letter c1 = true
    /\ is_ws (upper c2) = false
    /\ In " "%char rest.
Proof.
  unfold ukConfig.postcodeRegex_test.
  destruct (chars s) as [|c1 [|c2 rest]]; try discriminate.
  - intros H. apply andb_prop in H as [_ H]. discriminate H.
  - intros H. apply andb_prop in H as [H1 H]. exists c1, c2, rest.
    split; [reflexivity|]. split; [exact H1|].
    apply orb_prop in H as [H|H].
    + apply andb_prop in H as [H2 H]. split; [now apply letter_not_ws|].
      now apply district_space.
    + apply andb_prop in H as [H2 H]. split; [now apply digit_or_R_not_ws|].
      apply orb_prop in H as [H|H].
      * destruct rest as [|c' rest']; [discriminate|].
        apply andb_prop in H as [_ H]. right. now apply inward_space.
      * now apply inward_space.
Qed.

Lemma collapse_ws_space (l : list ascii) :
  (exists c, In c l /\ is_ws c = true) ->
  In " "%char (collapse_ws false l).
Proof.
  induction l as [|c r IH]; intros [x [Hin Hx]]; [destruct Hin|].
  simpl. destruct (is_ws c) eqn:E.
  - now left.
  - right. apply IH. destruct Hin as [->|Hin]; [congruence|]. eauto.
Qed.

Lemma includes_space_In (s : string) :
  In " "%char (chars s) -> includes_space s = true.
Proof.
  intros H. unfold includes_space. apply existsb_exists.
  exists " "%char. split; [exact H | reflexivity].
Qed.

(** No key of [postcodeAreas] contains a digit, no value is empty, and no
    value is itself accepted by the postcode expression. *)
Lemma postcodeAreas_entries_facts :
  forallb (fun entry =>
             forallb is_upper (chars (fst entry))
             && negb (String.eqb (snd entry) "")
             && negb (ukConfig.postcodeRegex_test (snd entry)))
          WeatherController.postcodeAreas_entries = true.
Proof. vm_compute. reflexivity. Qed.

Lemma postcodeAreas_lookup (key city : string) :
  WeatherController.postcodeAreas !! key = Some city ->
  In (key, city) WeatherController.postcodeAreas_entries
  /\ forallb is_upper (chars key) = true
  /\ String.eqb city "" = false
  /\ ukConfig.postcodeRegex_test city = false.
Proof.
  intros H. unfold WeatherController.postcodeAreas in H.
  apply elem_of_list_to_map_2 in H. apply list_elem_of_In in H.
  split; [exact H|].
  pose proof postcodeAreas_entries_facts as F.
  rewrite forallb_forall in F. specialize (F _ H). simpl in F.
  apply andb_prop in F as [F F3]. apply andb_prop in F as [F1 F2].
  apply negb_true_iff in F2, F3. auto.
Qed.

Lemma lookupArea_Some (key : option string) (city : string) :
  WeatherController.lookupArea key = Some city ->
  exists k, key = Some k /\ WeatherController.postcodeAreas !! k = Some city.
Proof.
  unfold WeatherController.lookupArea. destruct key as [k|]; [|discriminate].
  destruct (String.eqb k ""); [discriminate|].
  destruct (WeatherController.postcodeAreas !! k) as [c|] eqn:E; [|discriminate].
  destruct (String.eqb c ""); [discriminate|].
  intros H. inversion H; subst. eauto.
Qed.

(** [key && postcodeAreas[key]] is the plain table lookup for a key that is
    not empty. *)
Lemma lookupArea_table (k : string) :
  k <> "" ->
  WeatherController.lookupArea (Some k) = WeatherController.postcodeAreas !! k.
Proof.
  intros Hk. unfold WeatherController.lookupArea.
  apply String.eqb_neq in Hk. rewrite Hk.
  destruct (WeatherController.postcodeAreas !! k) as [c|] eqn:E; [|reflexivity].
  apply postcodeAreas_lookup in E as (_ & _ & Hc & _). now rewrite Hc.
Qed.

Lemma digits12_has_digit (pre rest : list ascii) (k : string) :
  WeatherController.digits12 pre rest = Some k ->
  exists d, In d (chars k) /\ is_digit d = true.
Proof.
  unfold WeatherController.digits12.
  destruct rest as [|d rest']; [discriminate|].
  destruct (is_digit d) eqn:Hd; [|discriminate].
  intros H. exists d. split; [|exact Hd].
  destruct rest' as [|d' ?]; [|destruct (is_digit d')];
    inversion H; subst; rewrite chars_str; apply in_or_app; right; now left.
Qed.

Lemma longerArea_not_in_table (postcode : string) :
  WeatherController.lookupArea (WeatherController.longerArea postcode) = None.
Proof.
  destruct (WeatherController.lookupArea _) as [city|] eqn:E; [|reflexivity].
  exfalso. apply lookupArea_Some in E as [k [Hk Hlook]].
  apply postcodeAreas_lookup in Hlook as (_ & Hup & _).
  assert (Hd : exists d, In d (chars k) /\ is_digit d = true).
  { unfold WeatherController.longerArea in Hk.
    destruct (chars postcode) as [|c [|c' rest']]; try discriminate;
      destruct (is_upper c); try discriminate.
    destruct (is_upper c'); now apply digits12_has_digit in Hk. }
  destruct Hd as [d [Hin Hdig]].
  rewrite forallb_forall in Hup. specialize (Hup d Hin).
  apply digit_not_upper in Hdig. congruence.
Qed.

(** Whatever the argument, [getNearbyCityForPostcode] answers with the
    table entry of the area prefix, or with 'United Kingdom'. *)
Lemma getNearbyCityForPostcode_area (postcode : string) :
  WeatherController.getNearbyCityForPostcode postcode
  = match WeatherController.lookupArea (WeatherController.area postcode) with
    | Some city => city
    | None => "United Kingdom"
    end.
Proof.
  unfold WeatherController.getNearbyCityForPostcode.
  now rewrite longerArea_not_in_table.
Qed.

Lemma getNearbyCityForPostcode_not_postcode (postcode : string) :
  ukConfig.postcodeRegex_test (WeatherController.getNearbyCityForPostcode postcode)
  = false.
Proof.
  rewrite getNearbyCityForPostcode_area.
  destruct (WeatherController.lookupArea _) as [city|] eqn:E; [|reflexivity].
  apply lookupArea_Some in E as [k [_ Hlook]].
  now apply postcodeAreas_lookup in Hlook.
Qed.

Lemma trim_empty : trim "" = "".
Proof. reflexivity. Qed.

Lemma unit_letter_not_ws (c : ascii) :
  ukConfig.unit_letter c = true -> is_ws (upper c) = false.
Proof.
  intros H. destruct (is_ws (upper c)) eqn:E; [|reflexivity].
  unfold ukConfig.unit_letter, is_ws in *. bool_facts; lia.
Qed.

Lemma digit_upper_not_ws (c : ascii) : is_digit c = true -> is_ws (upper c) = false.
Proof. intros H. rewrite (digit_upper c H). now apply digit_not_ws. Qed.

Lemma digit_or_letter_not_ws (c : ascii) :
  ukConfig.digit_or_letter c = true -> is_ws (upper c) = false.
Proof.
  unfold ukConfig.digit_or_letter. intros H. apply orb_prop in H as [H|H].
  - now apply digit_upper_not_ws.
  - now apply letter_not_ws.
Qed.

Lemma inward_idle (l : list ascii) :
  ukConfig.inward l = true ->
  collapse_ws false (List.map upper l) = List.map upper l.
Proof.
  unfold ukConfig.inward.
  destruct l as [|sp [|d [|u1 [|u2 [|? ?]]]]]; try discriminate.
  intros H. apply andb_prop in H as [H Hu2]. apply andb_prop in H as [H Hu1].
  apply andb_prop in H as [Hsp Hd]. apply Ascii.eqb_eq in Hsp. subst sp.
  simpl. change (is_ws (upper " ")) with true. cbv iota.
  now rewrite (digit_upper_not_ws d Hd), (unit_letter_not_ws u1 Hu1),
    (unit_letter_not_ws u2 Hu2).
Qed.

Lemma district_idle (l : list ascii) :
  ukConfig.district l = true ->
  collapse_ws false (List.map upper l) = List.map upper l.
Proof.
  unfold ukConfig.district. destruct l as [|c rest]; [discriminate|].
  intros H. apply andb_prop in H as [Hc H].
  simpl. rewrite (digit_or_R_not_ws c Hc). f_equal.
  apply orb_prop in H as [H|H].
  - destruct rest as [|c' rest']; [discriminate|].
    apply andb_prop in H as [Hc' H].
    simpl. rewrite (digit_or_letter_not_ws c' Hc'). f_equal. now apply inward_idle.
  - now apply inward_idle.
Qed.

(** The formatting that [cleanLocation] applies to a postcode (one space
    for every run of white space, a space before the last three characters
    when there is none) never changes anything: the postcode expression
    has already asked for exactly one space. *)
Lemma postcode_formatting_is_idle (location : string) :
  ukConfig.postcodeRegex_test (trim location) = true ->
  replace_ws (toUpperCase (trim location)) = toUpperCase (trim location)
  /\ WeatherController.cleanLocation location
     = Return (WeatherController.getNearbyCityForPostcode (toUpperCase (trim location))).
Proof.
  intros Hmatch.
  assert (Hidle : replace_ws (toUpperCase (trim location)) = toUpperCase (trim location)).
  { unfold replace_ws, toUpperCase. rewrite chars_str. f_equal.
    unfold ukConfig.postcodeRegex_test in Hmatch.
    destruct (chars (trim location)) as [|c rest]; [discriminate|].
    apply andb_prop in Hmatch as [Hc H].
    simpl. rewrite (letter_not_ws c Hc). f_equal.
    apply orb_prop in H as [H|H].
    - destruct rest as [|c' rest']; [discriminate|].
      apply andb_prop in H as [Hc' H].
      simpl. rewrite (letter_not_ws c' Hc'). f_equal. now apply district_idle.
    - now apply district_idle. }
  split; [exact Hidle|].
  destruct (postcode_shape _ Hmatch) as (c1 & c2 & rest & Hchars & Hl1 & Hw2 & Hsp).
  assert (Hne : String.eqb location "" = false).
  { destruct (String.eqb location "") eqn:E; [|reflexivity].
    apply String.eqb_eq in E. subst. rewrite trim_empty in Hchars. discriminate. }
  assert (Hinc : includes_space (toUpperCase (trim location)) = true).
  { apply includes_space_In. unfold toUpperCase. rewrite chars_str, Hchars.
    right. right. change " "%char with (upper " "%char). now apply in_map. }
  unfold WeatherController.cleanLocation. rewrite Hne, Hmatch, Hidle, Hinc, andb_false_r.
  reflexivity.
Qed.

(** For every location that, once trimmed, is accepted by the UK
    postcode expression, [cleanLocation] returns the city that
    [postcodeAreas] gives for the area prefix, or 'United Kingdom' when the
    table has no entry for that prefix.  The prefix is read off the
    postcode: the upper-cased postcode starts with it, it is made of one or
    two capital letters, and when it is a single letter the next character
    is not a letter.  The returned name is never itself a postcode. *)
Lemma postcode_replaced_by_city (location : string) :
  ukConfig.postcodeRegex_test (trim location) = true ->
  exists prefix rest city,
    chars (toUpperCase (trim location)) = (chars prefix ++ rest)%list
    /\ (String.length prefix = 1 \/ String.length prefix = 2)%nat
    /\ forallb is_upper (chars prefix) = true
    /\ (String.length prefix = 1%nat ->
        exists next others, rest = next :: others /\ is_upper next = false)
    /\ WeatherController.cleanLocation location = Return city
    /\ city = match WeatherController.postcodeAreas !! prefix with
              | Some c => c
              | None => "United Kingdom"
              end
    /\ ukConfig.postcodeRegex_test city = false.
Proof.
  intros Hmatch.
  destruct (postcode_shape _ Hmatch) as (c1 & c2 & rest & Hchars & Hl1 & Hw2 & Hsp).
  assert (Hne : String.eqb location "" = false).
  { destruct (String.eqb location "") eqn:E; [|reflexivity].
    apply String.eqb_eq in E. subst. rewrite trim_empty in Hchars. discriminate. }
  set (up := toUpperCase (trim location)).
  assert (Hup : chars up = upper c1 :: upper c2 :: List.map upper rest).
  { unfold up, toUpperCase. now rewrite chars_str, Hchars. }
  set (cleaned := replace_ws up).
  assert (Hcl : chars cleaned
                = upper c1 :: upper c2 :: collapse_ws false (List.map upper rest)).
  { unfold cleaned, replace_ws. rewrite chars_str, Hup. simpl.
    now rewrite (letter_not_ws c1 Hl1), Hw2. }
  assert (Hinc : includes_space cleaned = true).
  { apply includes_space_In. rewrite Hcl. right. right.
    apply collapse_ws_space. exists " "%char. split; [|reflexivity].
    change " "%char with (upper " "%char). now apply in_map. }
  assert (Harea : WeatherController.area cleaned = WeatherController.area up).
  { unfold WeatherController.area. now rewrite Hcl, Hup. }
  assert (Hclean : WeatherController.cleanLocation location
                   = Return (WeatherController.getNearbyCityForPostcode cleaned)).
  { unfold WeatherController.cleanLocation. rewrite Hne, Hmatch.
    fold up. fold cleaned. rewrite Hinc, andb_false_r. reflexivity. }
  assert (Hpre : exists prefix others,
             WeatherController.area up = Some prefix
             /\ chars up = (chars prefix ++ others)%list
             /\ (String.length prefix = 1 \/ String.length prefix = 2)%nat
             /\ forallb is_upper (chars prefix) = true
             /\ (String.length prefix = 1%nat ->
                 exists next others', others = next :: others' /\ is_upper next = false)
             /\ prefix <> "").
  { unfold WeatherController.area. rewrite Hup.
    change (is_upper (upper c1)) with (ukConfig.letter c1). rewrite Hl1.
    destruct (is_upper (upper c2)) eqn:E2.
    - exists (str [upper c1; upper c2]), (List.map upper rest).
      split; [reflexivity|]. rewrite chars_str.
      split; [reflexivity|]. split; [right; reflexivity|].
      split; [simpl; fold (ukConfig.letter c1); now rewrite Hl1, E2|].
      split; [discriminate | discriminate].
    - exists (str [upper c1]), (upper c2 :: List.map upper rest).
      split; [reflexivity|]. rewrite chars_str.
      split; [reflexivity|]. split; [left; reflexivity|].
      split; [simpl; fold (ukConfig.letter c1); now rewrite Hl1|].
      split; [intros _; eauto | discriminate]. }
  destruct Hpre as (prefix & others & Hprefix & Hsplit & Hlen & Hupper & Hnext & Hnonempty).
  exists prefix, others, (WeatherController.getNearbyCityForPostcode cleaned).
  split; [exact Hsplit|]. split; [exact Hlen|]. split; [exact Hupper|].
  split; [exact Hnext|]. split; [exact Hclean|]. split.
  - rewrite getNearbyCityForPostcode_area, Harea, Hprefix.
    now rewrite (lookupArea_table prefix Hnonempty).
  - apply getNearbyCityForPostcode_not_postcode.
Qed.


(** C9 (code defects, shown at the failing inputs).  With providers that answer by naming
    the location they were asked for:

    - the postcode LE1 1AA, in either case, is cleaned to Leicester, M1 1AE
      to Manchester, SW1A 1AA to London and ZE1 0AA, whose area is not in
      the table, to United Kingdom, and the weather controller queries
      the providers with that name;
    - typed with two spaces, LE1  1AA is not accepted by the postcode
      expression; it is cleaned as an ordinary location to LE1 1AA, a
      postcode, and the weather controller queries the providers with it;
      typed without a space it is passed on as it is;
    - the comparison controller only trims the location and queries the
      providers with the postcode LE1 1AA. *)
Theorem C9_raw_postcode_reaches_the_providers (now : string) :
  WeatherController.cleanLocation "LE1 1AA" = Return "Leicester"
  /\ WeatherController.cleanLocation " le1 1aa " = Return "Leicester"
  /\ WeatherController.cleanLocation "M1 1AE" = Return "Manchester"
  /\ WeatherController.cleanLocation "SW1A 1AA" = Return "London"
  /\ WeatherController.cleanLocation "ZE1 0AA" = Return "United Kingdom"
  /\ WeatherController.getAllCurrentWeather now "LE1 1AA" (services echo echo echo)
     = Return (WeatherController.ServiceUnavailable "No weather data available"
                 "Leicester"
                 [("OpenWeatherMap", "Leicester"); ("WeatherAPI", "Leicester");
                  ("AccuWeather", "Leicester")])
  /\ ukConfig.postcodeRegex_test (trim "LE1  1AA") = false
  /\ WeatherController.cleanLocation "LE1  1AA" = Return "LE1 1AA"
  /\ ukConfig.postcodeRegex_test "LE1 1AA" = true
  /\ WeatherController.getAllCurrentWeather now "LE1  1AA" (services echo echo echo)
     = Return (WeatherController.ServiceUnavailable "No weather data available"
                 "LE1 1AA"
                 [("OpenWeatherMap", "LE1 1AA"); ("WeatherAPI", "LE1 1AA");
                  ("AccuWeather", "LE1 1AA")])
  /\ WeatherController.cleanLocation "LE11AA" = Return "LE11AA"
  /\ exists errors,
       ComparisonController.compareCurrentWeather now "LE1 1AA" (services echo echo echo)
       = ComparisonController.ServiceUnavailable "No weather data available"
           "LE1 1AA" errors
       /\ errors !! "OpenWeatherMap" = Some "LE1 1AA"
       /\ errors !! "WeatherAPI" = Some "LE1 1AA"
       /\ errors !! "AccuWeather" = Some "LE1 1AA".
Proof.
  repeat (split; [vm_compute; reflexivity|]).
  eexists. split; [vm_compute; reflexivity|].
  repeat split; vm_compute; reflexivity.
Qed.

(** ** Standardization and absent values *)

Lemma or_null_cases (v : jsval) :
  (truthy v = false /\ v ||| JNull = JNull) \/ (truthy v = true /\ v ||| JNull = v).
Proof. unfold js_or. destruct (truthy v); auto. Qed.

(** Every numeric leaf of the standardized block is the raw leaf passed
    through [|| null]. *)
Lemma standardized_leaf (this : Weather.t) (path : list string) :
  In path numericPaths ->
  at_path (Weather.getStandardizedCurrent this) path
  = at_path (Weather.current this) path ||| JNull.
Proof.
  intros H. unfold numericPaths in H. simpl in H.
  repeat (destruct H as [<-|H]; [reflexivity|]). destruct H.
Qed.

(** A leaf that is missing from the payload ([undefined] or [null]) is
    standardized to the marker [null], never to a number. *)
Lemma absent_leaf_is_null (this : Weather.t) (path : list string) :
  In path numericPaths ->
  not_nullish (at_path (Weather.current this) path) = false ->
  at_path (Weather.getStandardizedCurrent this) path = JNull.
Proof.
  intros Hin Habs. rewrite (standardized_leaf this path Hin).
  destruct (at_path (Weather.current this) path); try discriminate; reflexivity.
Qed.

(** But a standardized leaf is never the number zero: a genuine 0 in the
    payload is standardized to [null] as well. *)
Lemma standardized_leaf_never_zero (this : Weather.t) (path : list string) (q : Q) :
  In path numericPaths ->
  at_path (Weather.getStandardizedCurrent this) path = JNumber q ->
  ~ q == 0.
Proof.
  intros Hin Hleaf. rewrite (standardized_leaf this path Hin) in Hleaf.
  destruct (or_null_cases (at_path (Weather.current this) path)) as [[_ E]|[T E]];
    rewrite E in Hleaf; [discriminate|].
  rewrite Hleaf in T. simpl in T. apply negb_true_iff in T.
  intros Hq. apply Qeq_bool_iff in Hq. congruence.
Qed.

Lemma zero_leaf_is_null (this : Weather.t) (path : list string) :
  In path numericPaths ->
  at_path (Weather.current this) path = JNumber 0 ->
  at_path (Weather.getStandardizedCurrent this) path = JNull.
Proof.
  intros Hin Hz. rewrite (standardized_leaf this path Hin), Hz. reflexivity.
Qed.

(** C4 (code defect, shown at the failing input).  A record reporting
    0 degrees Celsius, humidity 0, UV index 0 and wind direction 0 is a
    valid record, and it is standardized to the same block as the record
    that lacks those four fields: each of them becomes [null], so a genuine
    zero and an absent value cannot be told apart; the same holds for a
    forecast day. *)
Theorem C4_zero_is_standardized_as_absent :
  let zeros := recordOf "WeatherAPI" currentWithZeros in
  let without := recordOf "WeatherAPI" currentWithoutThem in
  Weather.isValid zeros = true
  /\ at_path currentWithZeros ["humidity"] = JNumber 0
  /\ at_path currentWithoutThem ["humidity"] = JUndefined
  /\ Weather.getStandardizedCurrent zeros = Weather.getStandardizedCurrent without
  /\ at_path (Weather.getStandardizedCurrent zeros) ["temperature"; "celsius"] = JNull
  /\ at_path (Weather.getStandardizedCurrent zeros) ["humidity"] = JNull
  /\ at_path (Weather.getStandardizedCurrent zeros) ["uv"] = JNull
  /\ at_path (Weather.getStandardizedCurrent zeros) ["wind"; "direction"] = JNull
  /\ Weather.standardizeDay (JObject [("date", JString "2024-01-01"); ("uv", JNumber 0)])
     = Weather.standardizeDay (JObject [("date", JString "2024-01-01")]).
Proof. cbv zeta. repeat split; vm_compute; reflexivity. Qed.

(** ** The fan-out over the three providers *)

Section FanOut.

Variables now cleanLocation : string.

Let store := ComparisonController.store now cleanLocation.





End FanOut.





(** The same fan-out in [getAllCurrentWeather], where the two collections
    are arrays: [results] lists the providers that succeeded and
    [apiErrors] those that failed, each in settling order, and the answer
    is the 503 response exactly when no provider succeeded. *)
Lemma push_fold (now cleanLocation : string) (settled : list (string * service))
    (results : list (string * jsval)) (apiErrors : list (string * string)) :
  fold_left (WeatherController.push now cleanLocation) settled (results, apiErrors)
  = ((results ++ succeeded now cleanLocation settled)%list,
     (apiErrors ++ failing now cleanLocation settled)%list).
Proof.
  revert results apiErrors.
  induction settled as [|[name svc] rest IH]; intros results apiErrors; simpl.
  - now rewrite !app_nil_r.
  - destruct (settle now cleanLocation svc); rewrite IH, <- app_assoc; reflexivity.
Qed.

Lemma getAllCurrentWeather_partial_failure (now location cleanLocation : string)
    (settled : list (string * service)) :
  WeatherController.cleanLocation location = Return cleanLocation ->
  WeatherController.getAllCurrentWeather now location settled
  = Return
      match succeeded now cleanLocation settled with
      | [] =>
          WeatherController.ServiceUnavailable "No weather data available"
            cleanLocation (failing now cleanLocation settled)
      | results =>
          WeatherController.Success cleanLocation results
            (match failing now cleanLocation settled with
             | [] => None
             | apiErrors => Some apiErrors
             end)
            (length settled) (length results)
            (length (failing now cleanLocation settled))
      end.
Proof.
  intros Hclean. unfold WeatherController.getAllCurrentWeather.
  rewrite Hclean. simpl bind. rewrite push_fold. simpl app.
  destruct (succeeded now cleanLocation settled) as [|r rs]; [reflexivity|].
  destruct (failing now cleanLocation settled); reflexivity.
Qed.


(** * Further properties of the code *)

(** ** The comparator: edge cases *)

Lemma statistics_inv (vs : list Q) (r : ComparisonController.ComparisonResult) :
  ComparisonController.statistics vs = Some r ->
  exists x rest,
    vs = x :: rest
    /\ ComparisonController.values r = vs
    /\ ComparisonController.agreement r
       = Math.surd_ltb (standardDeviation_of vs) (mean_of vs * (1 # 10)).
Proof.
  destruct vs as [|x rest]; [discriminate|].
  intros H. inversion H; subst. simpl. eauto.
Qed.

Lemma compareMetric_inv (ws : list Weather.t) (metric : string)
    (r : ComparisonController.ComparisonResult) :
  ComparisonController.compareMetric ws metric = ComparisonController.Result r ->
  ComparisonController.statistics (ComparisonController.values r) = Some r
  /\ numbers (ComparisonController.metricValues ws metric)
     = Some (ComparisonController.values r).
Proof.
  unfold ComparisonController.compareMetric.
  destruct (numbers _) as [vs|]; [|discriminate].
  destruct (ComparisonController.statistics vs) as [r'|] eqn:E; [|discriminate].
  intros H. inversion H; subst r'.
  destruct (statistics_inv vs r E) as (x & rest & _ & Hv & _).
  rewrite Hv. auto.
Qed.

(** The agreement flag compares the standard deviation with a tenth of the
    mean, so a comparison whose mean is zero or negative (temperatures at or
    below freezing, say) never reports agreement, however close the values
    are. *)
Theorem agreement_requires_positive_mean (ws : list Weather.t) (metric : string)
    (r : ComparisonController.ComparisonResult) :
  ComparisonController.compareMetric ws metric = ComparisonController.Result r ->
  mean_of (ComparisonController.values r) <= 0 ->
  ComparisonController.agreement r = false.
Proof.
  intros H Hmean. apply compareMetric_inv in H as [Hs _].
  destruct (statistics_inv _ r Hs) as (x & rest & _ & _ & Ha).
  rewrite Ha. unfold Math.surd_ltb.
  destruct (0 ?= mean_of (ComparisonController.values r) * (1 # 10)) eqn:E;
    try reflexivity.
  apply Qlt_alt in E. lra.
Qed.

Lemma agreement_requires_positive_mean_witness :
  exists r,
    ComparisonController.compareMetric
      (recordsFrom ["OpenWeatherMap"; "WeatherAPI"] (withCelsius (- 5))) "temperature"
    = ComparisonController.Result r
    /\ mean_of (ComparisonController.values r) <= 0
    /\ ComparisonController.agreement r = false.
Proof.
  eexists. split; [vm_compute; reflexivity|].
  assert (Hm : mean_of [- 5; - 5] <= 0) by (vm_compute; discriminate).
  split; [exact Hm|].
  apply (agreement_requires_positive_mean
           (recordsFrom ["OpenWeatherMap"; "WeatherAPI"] (withCelsius (- 5)))
           "temperature"); [vm_compute; reflexivity | exact Hm].
Defined.

(** The two comparators, [ComparisonController.compareMetric] and
    [Weather.compareMetricAcrossSources], answer [null] on the same inputs
    and otherwise report the same values, count, min, max, mean, variance
    and standard deviation; they differ by the median on an even number of
    values, which the controller rounds to an integer. *)
Theorem comparators_differ_by_median_only (ws : list Weather.t) (metric : string) :
  match ComparisonController.compareMetric ws metric,
        Weather.compareMetricAcrossSources ws metric with
  | ComparisonController.NotNumeric, Weather.NotNumeric => True
  | ComparisonController.Null, Weather.Null => True
  | ComparisonController.Result r, Weather.Result r' =>
      ComparisonController.values r = Weather.values r'
      /\ ComparisonController.count r = Weather.count r'
      /\ ComparisonController.min r = Weather.min r'
      /\ ComparisonController.max r = Weather.max r'
      /\ ComparisonController.mean r = Weather.mean r'
      /\ ComparisonController.variance r = Weather.variance r'
      /\ ComparisonController.standardDeviation r = Weather.standardDeviation r'
      /\ ComparisonController.median r
         = (if Nat.eqb (ComparisonController.count r mod 2) 0
            then inject_Z (Math.round (Weather.median r'))
            else Weather.median r')
  | _, _ => False
  end.
Proof.
  unfold ComparisonController.compareMetric, Weather.compareMetricAcrossSources.
  change (Weather.metricValues ws metric)
    with (ComparisonController.metricValues ws metric).
  destruct (numbers _) as [[|x rest]|]; [exact I| |exact I].
  cbv beta iota delta
    [ComparisonController.statistics Weather.statistics
     ComparisonController.values ComparisonController.count
     ComparisonController.min ComparisonController.max
     ComparisonController.mean ComparisonController.variance
     ComparisonController.standardDeviation ComparisonController.median
     Weather.values Weather.count Weather.min Weather.max Weather.mean
     Weather.variance Weather.standardDeviation Weather.median].
  repeat split; try reflexivity.
  destruct (Nat.eqb (length (x :: rest) mod 2) 0) eqn:E.
  - apply Nat.eqb_eq in E. now apply calculateMedian_even.
  - apply Nat.eqb_neq in E. apply calculateMedian_odd.
    pose proof (Nat.mod_upper_bound (length (x :: rest)) 2). lia.
Qed.


Lemma num_S (n : nat) : num (S n) == 1 + num n.
Proof.
  unfold num. rewrite Nat2Z.inj_succ, <- Z.add_1_l, inject_Z_plus. reflexivity.
Qed.

Lemma sum_repeat (v : Q) (n : nat) : sum (repeat v n) == num n * v.
Proof.
  induction n as [|n IH]; simpl repeat.
  - change (0 == 0 * v). ring.
  - rewrite sum_cons, IH, num_S. ring.
Qed.

Lemma len_repeat (v : Q) (n : nat) : len (repeat v n) = num n.
Proof. unfold len, num. now rewrite repeat_length. Qed.

Lemma mean_repeat (v : Q) (n : nat) : mean_of (repeat v (S n)) == v.
Proof.
  unfold mean_of. rewrite sum_repeat, len_repeat. field.
  pose proof (num_pos (S n) ltac:(lia)). lra.
Qed.

Lemma variance_repeat (v : Q) (n : nat) : variance_of (repeat v (S n)) == 0.
Proof.
  rewrite variance_of_population.
  set (m := mean_of (repeat v (S n))).
  assert (Hm : m == v) by apply mean_repeat.
  rewrite List.map_repeat, sum_repeat, len_repeat, Hm.
  field. pose proof (num_pos (S n) ltac:(lia)). lra.
Qed.

Lemma min_repeat (v : Q) (n : nat) : Math.min v (repeat v n) = v.
Proof.
  unfold Math.min. induction n as [|n IH]; simpl; [reflexivity|].
  destruct (Qmin_cases v v) as [E|E]; rewrite E; exact IH.
Qed.

Lemma max_repeat (v : Q) (n : nat) : Math.max v (repeat v n) = v.
Proof.
  unfold Math.max. induction n as [|n IH]; simpl; [reflexivity|].
  destruct (Qmax_cases v v) as [E|E]; rewrite E; exact IH.
Qed.

Lemma sort_repeat (v : Q) (n : nat) : sort (repeat v n) = repeat v n.
Proof.
  induction n as [|n IH]; simpl; [reflexivity|].
  rewrite IH. destruct n as [|n]; simpl; [reflexivity|].
  assert (H : Qle_bool v v = true) by (apply Qle_bool_iff, Qle_refl).
  now rewrite H.
Qed.

Lemma at_index_repeat (v : Q) (n i : nat) :
  (i < n)%nat -> at_index (repeat v n) i = v.
Proof.
  unfold at_index. revert i. induction n as [|n IH]; intros i Hi; [lia|].
  destruct i as [|i]; simpl; [reflexivity|]. apply IH. lia.
Qed.

Lemma numbers_repeat (v : Q) (n : nat) :
  numbers (repeat (JNumber v) n) = Some (repeat v n).
Proof. induction n as [|n IH]; simpl; [reflexivity | now rewrite IH]. Qed.

Lemma round_times_100_zero (variance : Q) :
  variance == 0 -> Math.round_times_100 (Math.sqrt variance) = 0%Z.
Proof.
  intros H. unfold Math.round_times_100, Math.sqrt. simpl Math.radicand.
  assert (E : 40000 * variance == 0) by (rewrite H; ring).
  rewrite E. reflexivity.
Qed.

Lemma surd_ltb_zero (variance x v : Q) :
  variance == 0 -> x == v * (1 # 10) ->
  (Math.surd_ltb (Math.sqrt variance) x = true <-> 0 < v).
Proof.
  intros Hvar Hx. unfold Math.surd_ltb, Math.sqrt. simpl Math.radicand.
  destruct (0 ?= x) eqn:E0.
  - apply Qeq_alt in E0. split; [discriminate | lra].
  - apply Qlt_alt in E0.
    destruct (variance ?= x * x) eqn:E1.
    + apply Qeq_alt in E1. nra.
    + split; [lra | reflexivity].
    + apply Qgt_alt in E1. nra.
  - apply Qgt_alt in E0. split; [discriminate | lra].
Qed.

(** Records that differ only by source report the same whole number [k]
    for a metric, as the adapters' records do for the temperature, the
    humidity and the pressure.  Their comparison then has count = number
    of sources, min = max = mean = median = k, and range, variance and
    standard deviation 0; agreement is reported exactly when k is
    positive. *)
Theorem same_value_from_every_source (sources : list string) (current : jsval)
    (metric : string) (k : Z) :
  sources <> [] ->
  (forall source,
      Weather.metricValue metric (Weather.getStandardizedCurrent (recordOf source current))
      = JNumber (inject_Z k)) ->
  exists r,
    ComparisonController.compareMetric (recordsFrom sources current) metric
    = ComparisonController.Result r
    /\ ComparisonController.count r = length sources
    /\ ComparisonController.min r = inject_Z k
    /\ ComparisonController.max r = inject_Z k
    /\ ComparisonController.range r == 0
    /\ ComparisonController.mean r == inject_Z k
    /\ ComparisonController.variance r == 0
    /\ ComparisonController.standardDeviation r == 0
    /\ ComparisonController.median r == inject_Z k
    /\ (ComparisonController.agreement r = true <-> (0 < k)%Z).
Proof.
  intros Hne Hval. set (v := inject_Z k) in *.
  assert (Hvals : ComparisonController.metricValues (recordsFrom sources current) metric
                  = repeat (JNumber v) (length sources)).
  { unfold ComparisonController.metricValues, recordsFrom.
    clear Hne. induction sources as [|s rest IH]; [reflexivity|].
    simpl List.map. rewrite (Hval s). simpl. f_equal. exact IH. }
  unfold ComparisonController.compareMetric. rewrite Hvals, numbers_repeat.
  destruct sources as [|s rest]; [congruence|]. simpl length.
  set (n := length rest).
  change (repeat v (S n)) with (v :: repeat v n) at 1.
  cbv beta iota delta [ComparisonController.statistics].
  change (v :: repeat v n) with (repeat v (S n)).
  eexists. split; [reflexivity|].
  cbv beta iota delta
    [ComparisonController.values ComparisonController.count
     ComparisonController.min ComparisonController.max
     ComparisonController.mean ComparisonController.variance
     ComparisonController.standardDeviation ComparisonController.median
     ComparisonController.range ComparisonController.agreement].
  rewrite min_repeat, max_repeat.
  split; [apply repeat_length|]. split; [reflexivity|]. split; [reflexivity|].
  split; [ring|].
  split.
  { unfold round2. rewrite (round_comp (mean_of (repeat v (S n)) * 100) (inject_Z (k * 100))).
    - rewrite round_integer, inject_Z_mult. unfold v. field.
    - rewrite mean_repeat, inject_Z_mult. reflexivity. }
  split.
  { unfold round2. rewrite (round_comp (variance_of (repeat v (S n)) * 100) 0).
    - reflexivity.
    - rewrite variance_repeat. ring. }
  split.
  { unfold standardDeviation_of.
    rewrite (round_times_100_zero _ (variance_repeat v n)). reflexivity. }
  split.
  { unfold ComparisonController.calculateMedian.
    rewrite sort_repeat, !repeat_length. cbn [Nat.eqb].
    destruct (Nat.eqb (S n mod 2) 0) eqn:E.
    - apply Nat.eqb_eq in E.
      assert (Hhalf : (1 <= Math.floor_half (S n) < S n)%nat).
      { unfold Math.floor_half.
        pose proof (Nat.div_mod_eq (S n) 2). split; [lia|].
        apply Nat.div_lt; lia. }
      rewrite !at_index_repeat by lia.
      rewrite (round_comp ((v + v) / 2) v) by field.
      unfold v. now rewrite round_integer.
    - rewrite at_index_repeat; [reflexivity|].
      unfold Math.floor_half. apply Nat.div_lt; lia. }
  unfold standardDeviation_of.
  rewrite (surd_ltb_zero (variance_of (repeat v (S n))) _ v);
    [|apply variance_repeat | now rewrite mean_repeat].
  unfold v. change 0 with (inject_Z 0). rewrite <- Zlt_Qlt. reflexivity.
Qed.

Lemma same_value_from_every_source_witness :
  ["OpenWeatherMap"; "WeatherAPI"] <> []
  /\ exists r,
       ComparisonController.compareMetric
         (recordsFrom ["OpenWeatherMap"; "WeatherAPI"] (withCelsius 12))
         "temperature"
       = ComparisonController.Result r
       /\ ComparisonController.max r = 12
       /\ ComparisonController.median r == 12.
Proof.
  split; [discriminate|].
  destruct (same_value_from_every_source
              ["OpenWeatherMap"; "WeatherAPI"] (withCelsius 12) "temperature"
              12%Z ltac:(discriminate) (fun _ => eq_refl))
    as (r & Hr & _ & _ & Hmax & _ & _ & _ & _ & Hmed & _).
  exists r. split; [exact Hr|]. split; [exact Hmax | exact Hmed].
Defined.


(** ** The circuit breaker: invariant *)

(** The AccuWeather service, with its location search, leaves the breaker
    and answers as [callCurrentWeather] does on the call seen through
    [afterLookup]; what is said of the breaker below holds for it too. *)
Lemma accuweather_breaker (available : bool) (locationCache : gmap string jsval)
    (location : string) (cb : circuitBreaker) (c : call)
    (lookup : AccuWeatherService.search) (lookupDuration : Z) :
  let r := AccuWeatherService.getCurrentWeather available locationCache location cb c
             lookup lookupDuration in
  let locationData :=
    snd (fst (AccuWeatherService.getLocationKey locationCache location lookup
                lookupDuration)) in
  let seen := callCurrentWeather AccuWeatherService.this available cb
                (afterLookup locationData c) in
  breakerAfter (snd r) = breakerAfter seen /\ resultOf (snd r) = resultOf seen.
Proof.
  cbv zeta. unfold AccuWeatherService.getCurrentWeather, callCurrentWeather.
  destruct available; cbn [negb]; [|split; reflexivity].
  assert (Hstart : startTime (afterLookup
                      (snd (fst (AccuWeatherService.getLocationKey locationCache location
                                   lookup lookupDuration))) c) = startTime c).
  { unfold afterLookup. destruct (outcome c); try reflexivity;
      destruct (snd (fst _)); reflexivity. }
  rewrite Hstart.
  destruct (gate cb (startTime c)) as [cb'|message]; [|split; reflexivity].
  unfold afterLookup, tryFetch.
  destruct (AccuWeatherService.getLocationKey locationCache location lookup lookupDuration)
    as [[locationCache' locationData] searched] eqn:E.
  cbn [fst snd].
  destruct (outcome c) eqn:Eo; destruct locationData;
    cbn [outcome startTime duration snd]; rewrite ?Eo; split; reflexivity.
Qed.

Lemma recordFailure_keeps_invariant (p : provider) (cb : circuitBreaker) (c : call)
    (status message : string) (done : list event) :
  (state cb = CLOSED <-> (failures cb < 5)%nat) ->
  breakerInvariant (breakerAfter (recordFailure p cb c status message done)).
Proof.
  intros Hinv. unfold recordFailure, breakerAfter, breakerInvariant.
  cbn [fst failures lastFailureTime state].
  destruct (Nat.leb 5 (S (failures cb))) eqn:E.
  - apply Nat.leb_le in E. split; [split; [discriminate | lia] | congruence].
  - apply Nat.leb_gt in E. split; [|congruence].
    split; [intros _; exact E | intros _; apply Hinv; lia].
Qed.

Lemma tryFetch_keeps_invariant (p : provider) (cb : circuitBreaker) (c : call) :
  breakerInvariant cb -> breakerInvariant (breakerAfter (tryFetch p cb c)).
Proof.
  intros Hinv. unfold tryFetch.
  destruct (outcome c);
    try (apply recordFailure_keeps_invariant; exact (proj1 Hinv)).
  - exact Hinv.
  - unfold breakerAfter, breakerInvariant. simpl.
    split; [split; [intros _; lia | reflexivity] | congruence].
Qed.

Lemma call_keeps_invariant (p : provider) (available : bool)
    (cb : circuitBreaker) (c : call) :
  breakerInvariant cb ->
  breakerInvariant (breakerAfter (callCurrentWeather p available cb c)).
Proof.
  intros Hinv. unfold callCurrentWeather.
  destruct available; simpl negb; cbv iota; [|exact Hinv].
  unfold gate. destruct (state cb) eqn:Hs.
  - now apply tryFetch_keeps_invariant.
  - destruct (timeSinceFailure cb (startTime c) <? 60000)%Z; [exact Hinv|].
    apply tryFetch_keeps_invariant. unfold breakerInvariant. simpl.
    destruct Hinv as [Hclosed Hlast]. split.
    + split; [discriminate|]. intros Hlt. apply Hclosed in Hlt. congruence.
    + intros _. apply Hlast. congruence.
  - now apply tryFetch_keeps_invariant.
Qed.

(** Whatever calls a service has served since it was constructed
    (available or not, cache hits, fetches, failures, at any times), its
    breaker is CLOSED exactly when fewer than five failures are recorded,
    and a breaker that is not CLOSED always has a last-failure time. *)
Theorem breaker_closed_iff_fewer_than_five_failures (p : provider)
    (history : list (bool * call)) :
  let cb := serve p initialBreaker history in
  (state cb = CLOSED <-> (failures cb < 5)%nat)
  /\ (state cb <> CLOSED -> lastFailureTime cb <> None).
Proof.
  cbv zeta.
  assert (H : forall cb, breakerInvariant cb -> breakerInvariant (serve p cb history)).
  { induction history as [|[available c] rest IH]; intros cb Hcb; [exact Hcb|].
    simpl. apply IH. now apply call_keeps_invariant. }
  apply (H initialBreaker). unfold breakerInvariant. simpl.
  split; [split; [intros _; lia | reflexivity] | congruence].
Qed.


(** ** The error handler *)

(** Every error built by the module's own constructors that carries a
    status is answered with exactly that HTTP status. *)
Theorem built_errors_keep_their_status (error : ErrorHandler.jsError) (st : Z) :
  ErrorHandler.built error ->
  ErrorHandler.status error = Some st ->
  st <> 0%Z ->
  ErrorHandler.statusCode (ErrorHandler.errorHandler error) = st.
Proof.
  intros Hbuilt Hst Hnz.
  assert (Hstatus : forall e : ErrorHandler.jsError,
    ErrorHandler.status e = Some st ->
    ErrorHandler.code e = None ->
    ErrorHandler.name e = "ExternalAPIError"
    \/ ErrorHandler.name e = "CircuitBreakerError"
    \/ ErrorHandler.name e = "APIKeyError"
    \/ ErrorHandler.name e = "LocationNotFoundError"
    \/ ErrorHandler.name e = "DatabaseError" ->
    ErrorHandler.statusCode (ErrorHandler.errorHandler e) = st).
  { intros e He Hc Hn. unfold ErrorHandler.errorHandler, ErrorHandler.has_name,
      ErrorHandler.has_code. rewrite Hc, He.
    unfold ErrorHandler.truthy_status.
    apply Z.eqb_neq in Hnz. rewrite Hnz.
    destruct Hn as [-> | [-> | [-> | [-> | ->]]]]; reflexivity. }
  destruct Hbuilt.
  - inversion Hst; subst. reflexivity.
  - inversion Hst; subst. reflexivity.
  - unfold ErrorHandler.apiErrorHandler in *.
    destruct (ErrorHandler.response error) as [[rs dm]|].
    + apply Hstatus; auto.
    + destruct (ErrorHandler.has_code error "ECONNABORTED").
      * inversion Hst; subst. reflexivity.
      * destruct (ErrorHandler.has_code error "ECONNREFUSED"
                  || ErrorHandler.has_code error "ENOTFOUND");
          [apply Hstatus; auto | discriminate Hst].
  - apply Hstatus; auto.
  - inversion Hst; subst. reflexivity.
  - apply Hstatus; auto.
  - apply Hstatus; auto.
  - unfold ErrorHandler.databaseErrorHandler in *.
    repeat match goal with
    | |- context [if ?b then _ else _] => destruct b
    | H : context [if ?b then _ else _] |- _ => destruct b
    end; apply Hstatus; auto 10.
Qed.

Lemma built_errors_keep_their_status_witness :
  ErrorHandler.built (ErrorHandler.locationNotFoundError "Atlantis")
  /\ ErrorHandler.status (ErrorHandler.locationNotFoundError "Atlantis") = Some 404%Z
  /\ ErrorHandler.statusCode
       (ErrorHandler.errorHandler (ErrorHandler.locationNotFoundError "Atlantis"))
     = 404%Z.
Proof.
  split; [constructor|]. split; [reflexivity|].
  apply (built_errors_keep_their_status
           (ErrorHandler.locationNotFoundError "Atlantis") 404);
    [constructor | reflexivity | lia].
Defined.

(** What the error handler answers to the two errors a provider service
    throws without attempting a call: 503 'Service Unavailable' to the
    circuit-open error, 401 'Authentication Error' to the missing-key
    error of each of the three services. *)
Theorem rejected_calls_answer_503_or_401 (p : provider) (available : bool)
    (cb : circuitBreaker) (c : call) (message : string) :
  In p [OpenWeatherService.this; WeatherApiService.this; AccuWeatherService.this] ->
  resultOf (callCurrentWeather p available cb c) = Throw message ->
  eventsOf (callCurrentWeather p available cb c) = [] ->
  let answer := ErrorHandler.errorHandler (ErrorHandler.Error message) in
  (available = false
   /\ ErrorHandler.statusCode answer = 401%Z
   /\ ErrorHandler.errorType answer = "Authentication Error")
  \/ (available = true
      /\ state cb = OPEN
      /\ ErrorHandler.statusCode answer = 503%Z
      /\ ErrorHandler.errorType answer = "Service Unavailable"
      /\ ErrorHandler.text answer
         = "Service temporarily unavailable due to repeated failures").
Proof.
  intros Hp Hres Hev. cbv zeta. unfold callCurrentWeather in *.
  destruct available; simpl negb in *; cbv iota in *.
  - right. split; [reflexivity|]. unfold gate in *.
    destruct (state cb) eqn:Hs.
    + exfalso. unfold tryFetch, recordFailure, eventsOf in Hev.
      destruct (outcome c); simpl in Hev; discriminate.
    + destruct (timeSinceFailure cb (startTime c) <? 60000)%Z.
      * unfold resultOf in Hres. simpl in Hres. inversion Hres; subst message.
        repeat split; vm_compute; reflexivity.
      * exfalso. unfold tryFetch, recordFailure, eventsOf in Hev.
        destruct (outcome c); simpl in Hev; discriminate.
    + exfalso. unfold tryFetch, recordFailure, eventsOf in Hev.
      destruct (outcome c); simpl in Hev; discriminate.
  - left. split; [reflexivity|].
    unfold resultOf in Hres. simpl in Hres. inversion Hres; subst message.
    simpl in Hp. destruct Hp as [<-|[<-|[<-|[]]]]; split; vm_compute; reflexivity.
Qed.

Lemma rejected_calls_answer_503_or_401_witness :
  let cb := {| failures := 5; lastFailureTime := Some 1000%Z; state := OPEN |} in
  let c := {| startTime := 2000; duration := 10; outcome := TransportFails "down" |} in
  resultOf (callCurrentWeather WeatherApiService.this true cb c) = Throw circuitOpenMessage
  /\ ErrorHandler.statusCode
       (ErrorHandler.errorHandler (ErrorHandler.Error circuitOpenMessage)) = 503%Z.
Proof.
  cbv zeta. split; [reflexivity|].
  destruct (rejected_calls_answer_503_or_401 WeatherApiService.this true
              {| failures := 5; lastFailureTime := Some 1000%Z; state := OPEN |}
              {| startTime := 2000; duration := 10; outcome := TransportFails "down" |}
              circuitOpenMessage ltac:(simpl; auto) eq_refl eq_refl)
    as [[H _]|(_ & _ & H & _)]; [discriminate H | exact H].
Defined.

(** ** Standardizing what is already standardized *)

Lemma js_or_idem (a b : jsval) : (a ||| b) ||| b = a ||| b.
Proof.
  unfold js_or. destruct (truthy a) eqn:Ha.
  - now rewrite Ha.
  - now destruct (truthy b).
Qed.

Lemma getStandardizedCurrent_again (w w' : Weather.t) :
  Weather.current w' = Weather.getStandardizedCurrent w ->
  Weather.getStandardizedCurrent w' = Weather.getStandardizedCurrent w.
Proof.
  intros H. unfold Weather.getStandardizedCurrent at 1. rewrite H.
  unfold Weather.getStandardizedCurrent. cbn [get assoc String.eqb Ascii.eqb Bool.eqb].
  rewrite !js_or_idem. reflexivity.
Qed.

Lemma getStandardizedLocation_again (w w' : Weather.t) :
  Weather.location w' = Weather.getStandardizedLocation w ->
  Weather.getStandardizedLocation w' = Weather.getStandardizedLocation w.
Proof.
  intros H. unfold Weather.getStandardizedLocation at 1. rewrite H.
  unfold Weather.getStandardizedLocation. cbn [get assoc String.eqb Ascii.eqb Bool.eqb].
  rewrite !js_or_idem. reflexivity.
Qed.

Lemma standardizeDay_again (day standardized : jsval) :
  Weather.standardizeDay day = Return standardized ->
  Weather.standardizeDay standardized = Return standardized.
Proof.
  unfold Weather.standardizeDay at 1.
  destruct (member day "date") as [date|message] eqn:E; [|discriminate].
  cbn [bind]. intros H. inversion H; subst standardized; clear H.
  unfold Weather.standardizeDay.
  cbn [member get assoc String.eqb Ascii.eqb Bool.eqb bind].
  rewrite !js_or_idem. reflexivity.
Qed.

Lemma mapM_standardizeDay_again (days standardized : list jsval) :
  Weather.mapM Weather.standardizeDay days = Return standardized ->
  Weather.mapM Weather.standardizeDay standardized = Return standardized
  /\ length standardized = length days.
Proof.
  revert standardized. induction days as [|day rest IH]; intros standardized H.
  - inversion H; subst. split; reflexivity.
  - cbn [Weather.mapM] in H.
    destruct (Weather.standardizeDay day) as [d|] eqn:Ed; [|discriminate].
    cbn [bind] in H.
    destruct (Weather.mapM Weather.standardizeDay rest) as [ds|] eqn:Eds; [|discriminate].
    cbn [bind] in H. inversion H; subst standardized; clear H.
    destruct (IH ds eq_refl) as [IH1 IH2].
    cbn [Weather.mapM]. rewrite (standardizeDay_again _ _ Ed). cbn [bind].
    rewrite IH1. cbn [bind length]. split; [reflexivity | now rewrite IH2].
Qed.

Lemma getStandardizedForecast_again (w w' : Weather.t) (forecast : jsval) :
  Weather.getStandardizedForecast w = Return forecast ->
  Weather.forecast w' = forecast ->
  Weather.getStandardizedForecast w' = Return forecast.
Proof.
  unfold Weather.getStandardizedForecast. intros H ->.
  destruct (Weather.forecast w) as [| | | | |days|]; try (inversion H; subst; reflexivity).
  destruct (Weather.mapM Weather.standardizeDay days) as [ds|] eqn:E; [|discriminate].
  cbn [bind] in H. inversion H; subst forecast.
  now rewrite (proj1 (mapM_standardizeDay_again _ _ E)).
Qed.

Lemma truthy_property_has_keys (v : jsval) (k : string) :
  truthy (v ~> k) = true -> Nat.eqb (keys_length v) 0 = false.
Proof.
  destruct v as [| | | | | |props]; try discriminate.
  destruct props; [discriminate | reflexivity].
Qed.

Lemma truthy_or (a b : jsval) : truthy b = true -> truthy (a ||| b) = true.
Proof. intros H. unfold js_or. now destruct (truthy a) eqn:E. Qed.

Lemma truthy_keep (a b : jsval) : truthy a = true -> a ||| b = a.
Proof. intros H. unfold js_or. now rewrite H. Qed.

Lemma standardized_again (now now' : string)
    (data standardized : jsval) (w : Weather.t) :
  now <> "" ->
  Weather.new now data = Return w ->
  Weather.isValid w = true ->
  Weather.getStandardized w = Return standardized ->
  exists w',
    Weather.new now' standardized = Return w'
    /\ Weather.getStandardized w' = Return standardized
    /\ Weather.getStandardizedCurrent w' = Weather.getStandardizedCurrent w
    /\ Weather.source w' = Weather.source w
    /\ Weather.timestamp w' = Weather.timestamp w.
Proof.
  intros Hnow Hnew Hvalid Hstd.
  assert (Hsource : truthy (Weather.source w) = true).
  { unfold Weather.new in Hnew. destruct (member data "location"); [|discriminate].
    cbn [bind] in Hnew. inversion Hnew; subst w. cbn [Weather.source].
    now apply truthy_or. }
  assert (Htime : truthy (Weather.timestamp w) = true).
  { unfold Weather.new in Hnew. destruct (member data "location"); [|discriminate].
    cbn [bind] in Hnew. inversion Hnew; subst w. cbn [Weather.timestamp].
    apply truthy_or. cbn [truthy]. apply negb_true_iff. now apply String.eqb_neq. }
  unfold Weather.isValid, Weather.hasValidCurrent in Hvalid.
  apply andb_prop in Hvalid as [_ Hcur].
  apply andb_prop in Hcur as [Hcur _]. apply andb_prop in Hcur as [Hcur Htemp].
  unfold Weather.getStandardized in Hstd.
  rewrite Hcur, Htemp, (truthy_property_has_keys _ _ Htemp) in Hstd.
  cbn [negb andb] in Hstd.
  destruct (Weather.getStandardizedForecast w) as [forecast|] eqn:Ef; [|discriminate].
  cbn [bind] in Hstd. inversion Hstd; subst standardized; clear Hstd.
  assert (Hforecast : truthy forecast = true).
  { unfold Weather.getStandardizedForecast in Ef.
    destruct (Weather.forecast w); try (inversion Ef; subst; reflexivity).
    destruct (Weather.mapM _ _); [|discriminate]. inversion Ef; subst. reflexivity. }
  eexists. split.
  { unfold Weather.new. cbn [member get assoc String.eqb Ascii.eqb Bool.eqb bind].
    reflexivity. }
  rewrite (truthy_keep (Weather.source w) _ Hsource).
  rewrite (truthy_keep (Weather.timestamp w) _ Htime).
  rewrite (truthy_keep forecast _ Hforecast).
  rewrite (truthy_keep (Weather.getStandardizedLocation w) _ eq_refl).
  rewrite (truthy_keep (Weather.getStandardizedCurrent w) _ eq_refl).
  split; [|split; [|split; reflexivity]].
  - unfold Weather.getStandardized.
    cbn [Weather.current Weather.forecast Weather.source Weather.timestamp
         Weather.location].
    match goal with
    | |- context [Weather.getStandardizedForecast ?x] =>
        rewrite (getStandardizedForecast_again w x forecast Ef eq_refl),
                (getStandardizedLocation_again w x eq_refl),
                (getStandardizedCurrent_again w x eq_refl)
    end.
    reflexivity.
  - now apply getStandardizedCurrent_again.
Qed.

(** A valid record and its standardized form are interchangeable: the
    standardized object of a valid record, wrapped in a new record as
    [getAllCurrentWeather] and [performDetailedComparison] do, standardizes
    to itself, and its [current] block is read as the same values. *)
Theorem standardized_record_is_a_fixed_point (now now' : string)
    (data standardized : jsval) (w : Weather.t) :
  now <> "" ->
  Weather.new now data = Return w ->
  Weather.isValid w = true ->
  Weather.getStandardized w = Return standardized ->
  exists w',
    Weather.new now' standardized = Return w'
    /\ Weather.getStandardized w' = Return standardized
    /\ Weather.getStandardizedCurrent w' = Weather.getStandardizedCurrent w
    /\ Weather.source w' = Weather.source w
    /\ Weather.timestamp w' = Weather.timestamp w.
Proof. apply standardized_again. Qed.

Lemma standardized_record_is_a_fixed_point_witness :
  exists w w' standardized,
    Weather.new "2024-05-01T12:00:00.000Z" (londonPayload "WeatherAPI") = Return w
    /\ Weather.getStandardized w = Return standardized
    /\ Weather.new "2024-05-01T12:00:05.000Z" standardized = Return w'
    /\ Weather.getStandardized w' = Return standardized.
Proof.
  destruct (Weather.new "2024-05-01T12:00:00.000Z" (londonPayload "WeatherAPI"))
    as [w|] eqn:Hnew; [|discriminate Hnew].
  destruct (Weather.getStandardized w) as [standardized|] eqn:Hstd;
    [|vm_compute in Hnew; inversion Hnew; subst w; discriminate Hstd].
  assert (Hvalid : Weather.isValid w = true).
  { vm_compute in Hnew. inversion Hnew; subst w. reflexivity. }
  destruct (standardized_record_is_a_fixed_point
              "2024-05-01T12:00:00.000Z" "2024-05-01T12:00:05.000Z"
              (londonPayload "WeatherAPI") standardized w
              ltac:(discriminate) Hnew Hvalid Hstd)
    as (w' & Hnew' & Hstd' & _).
  exists w, w', standardized. auto.
Defined.

(** ** The single-source endpoint *)

Lemma byMessage_statuses (error : ErrorHandler.jsError) :
  In (ErrorHandler.statusCode (ErrorHandler.byMessage error)) [401; 429; 500; 503]%Z.
Proof.
  unfold ErrorHandler.byMessage.
  repeat match goal with
  | |- context [if ?b then _ else _] => destruct b
  end; simpl; auto 10.
Qed.

Lemma thrown_message_statuses (message : string) :
  In (ErrorHandler.statusCode (ErrorHandler.errorHandler (ErrorHandler.Error message)))
     [401; 429; 500; 503]%Z.
Proof. apply (byMessage_statuses (ErrorHandler.Error message)). Qed.

(** A request for the current weather of one provider is answered with
    one of the statuses 200, 400, 401, 404, 429, 500 and 503, whatever the
    services do; with 200 exactly when the request passed validation, the
    location could be cleaned, the source names one of the three services,
    that service is available and returned a payload that makes a valid
    record. *)
Theorem single_source_statuses (now now' location : string) (valid : bool)
    (source : option string) (s1 s2 s3 : service) :
  let reply := WeatherController.getCurrentWeather now now' valid location source s1 s2 s3 in
  In (statusOf reply) [200; 400; 401; 404; 429; 500; 503]%Z
  /\ (statusOf reply = 200%Z <->
      exists cleaned name service data w standardized,
        valid = true
        /\ WeatherController.cleanLocation location = Return cleaned
        /\ WeatherController.select
             (match source with Some source => source | None => "openweather" end)
             s1 s2 s3 = Some (name, service)
        /\ isAvailable service = true
        /\ getCurrentWeather service cleaned = Return data
        /\ Weather.new now data = Return w
        /\ Weather.isValid w = true
        /\ Weather.getStandardized w = Return standardized).
Proof.
  cbv zeta. unfold WeatherController.getCurrentWeather.
  assert (Hthrown : forall message,
    In (statusOf (WeatherController.Next (ErrorHandler.Error message)))
       [200; 400; 401; 404; 429; 500; 503]%Z
    /\ statusOf (WeatherController.Next (ErrorHandler.Error message)) <> 200%Z).
  { intros message. pose proof (thrown_message_statuses message) as H.
    cbn [statusOf]. simpl in H |- *. intuition lia. }
  destruct valid; cbn [negb].
  2:{ split; [simpl; auto|]. split; [discriminate|].
      intros (? & ? & ? & ? & ? & ? & H & _). discriminate H. }
  destruct (WeatherController.cleanLocation location) as [cleaned|message].
  2:{ destruct (Hthrown message) as [H1 H2]. split; [exact H1|]. split; [tauto|].
      intros (? & ? & ? & ? & ? & ? & _ & H & _). discriminate H. }
  destruct (WeatherController.select _ s1 s2 s3) as [[name service]|].
  2:{ split; [simpl; auto|]. split; [discriminate|].
      intros (? & ? & ? & ? & ? & ? & _ & _ & H & _). discriminate H. }
  destruct (isAvailable service) eqn:Havailable; cbn [negb].
  2:{ split; [simpl; auto 10|]. split; [discriminate|].
      intros (? & ? & s & ? & ? & ? & _ & _ & H & H' & _).
      inversion H; subst. congruence. }
  destruct (getCurrentWeather service cleaned) as [data|message] eqn:Hdata; cbn [bind].
  2:{ destruct (Hthrown message) as [H1 H2]. split; [exact H1|]. split; [tauto|].
      intros (? & ? & s & ? & ? & ? & _ & Hc & H & _ & H' & _).
      inversion Hc; inversion H; subst. congruence. }
  destruct (Weather.new now data) as [w|message] eqn:Hw; cbn [bind].
  2:{ destruct (Hthrown message) as [H1 H2]. split; [exact H1|]. split; [tauto|].
      intros (? & ? & s & ? & ? & ? & _ & Hc & H & _ & H' & H'' & _).
      inversion Hc; inversion H; subst. congruence. }
  destruct (Weather.isValid w) eqn:Hvalid; cbn [negb].
  2:{ split; [simpl; auto 10|]. split; [discriminate|].
      intros (? & ? & s & ? & ? & ? & _ & Hc & H & _ & H' & H'' & H''' & _).
      inversion Hc; inversion H; subst. congruence. }
  destruct (Weather.getStandardized w) as [standardized|message] eqn:Hstd; cbn [bind].
  2:{ destruct (Hthrown message) as [H1 H2]. split; [exact H1|]. split; [tauto|].
      intros (? & ? & s & ? & ? & ? & _ & Hc & H & _ & H' & H'' & _ & H''').
      inversion Hc; inversion H; subst. congruence. }
  split; [simpl; auto|]. split; [|reflexivity].
  intros _. exists cleaned, name, service, data, w, standardized. auto 10.
Qed.

(** While the breaker of the selected service is open and less than a
    minute has passed since its last failure, the request is answered with
    503 and the provider is not contacted. *)
Theorem open_breaker_answers_503 (now now' location cleaned : string)
    (source : option string) (s1 s2 s3 : service)
    (p : provider) (cb : circuitBreaker) (c : call) (name : string) :
  WeatherController.cleanLocation location = Return cleaned ->
  WeatherController.select
    (match source with Some source => source | None => "openweather" end)
    s1 s2 s3 = Some (name, backedBy p true cb c) ->
  state cb = OPEN ->
  (timeSinceFailure cb (startTime c) < 60000)%Z ->
  statusOf (WeatherController.getCurrentWeather now now' true location source s1 s2 s3)
  = 503%Z
  /\ eventsOf (callCurrentWeather p true cb c) = []
  /\ breakerAfter (callCurrentWeather p true cb c) = cb.
Proof.
  intros Hclean Hselect Hstate Htime.
  assert (Hcall : callCurrentWeather p true cb c = (cb, Throw circuitOpenMessage, [])).
  { unfold callCurrentWeather, gate. cbn [negb]. rewrite Hstate.
    apply Z.ltb_lt in Htime. now rewrite Htime. }
  split; [|now rewrite Hcall].
  unfold WeatherController.getCurrentWeather. cbn [negb].
  rewrite Hclean, Hselect. cbn [backedBy isAvailable getCurrentWeather negb].
  rewrite Hcall. reflexivity.
Qed.

Lemma open_breaker_answers_503_witness :
  let cb := {| failures := 5; lastFailureTime := Some 1000%Z; state := OPEN |} in
  let c := {| startTime := 31000; duration := 10; outcome := Fetched (londonPayload "WeatherAPI") |} in
  let service := backedBy WeatherApiService.this true cb c in
  statusOf (WeatherController.getCurrentWeather "2024-05-01T12:00:00.000Z"
              "2024-05-01T12:00:00.100Z" true "London" (Some "WeatherAPI")
              service service service) = 503%Z.
Proof.
  cbv zeta.
  apply (open_breaker_answers_503 "2024-05-01T12:00:00.000Z" "2024-05-01T12:00:00.100Z"
           "London" "London" (Some "WeatherAPI") _ _ _
           WeatherApiService.this
           {| failures := 5; lastFailureTime := Some 1000%Z; state := OPEN |}
           {| startTime := 31000; duration := 10;
              outcome := Fetched (londonPayload "WeatherAPI") |}
           "WeatherAPI");
    [reflexivity | reflexivity | reflexivity | vm_compute; reflexivity].
Defined.

(** ** What [cleanLocation] accepts and returns *)

Lemma length_chars (s : string) : String.length s = length (chars s).
Proof. induction s as [|c s IH]; [reflexivity|]. simpl. now rewrite IH. Qed.

Lemma length_str (l : list ascii) : String.length (str l) = length l.
Proof. now rewrite length_chars, chars_str. Qed.

Lemma skip_ws_cases (l : list ascii) :
  skip_ws l = [] \/ exists c rest, skip_ws l = c :: rest /\ is_ws c = false.
Proof.
  induction l as [|c r IH]; [now left|].
  simpl. destruct (is_ws c) eqn:E; [exact IH|]. right. eauto.
Qed.

Lemma skip_ws_length (l : list ascii) : (length (skip_ws l) <= length l)%nat.
Proof.
  induction l as [|c r IH]; [reflexivity|].
  simpl. destruct (is_ws c); simpl; lia.
Qed.

Lemma skip_ws_snoc (l : list ascii) (c : ascii) :
  is_ws c = false -> exists l', skip_ws (l ++ [c]) = (l' ++ [c])%list.
Proof.
  intros Hc. induction l as [|x r IH].
  - exists []. simpl. now rewrite Hc.
  - simpl. destruct (is_ws x); [exact IH|]. now exists (x :: r).
Qed.

(** A trimmed string is empty, or starts and ends with a character that
    is not white space. *)
Lemma trim_shape (s : string) :
  chars (trim s) = []
  \/ exists first rest,
       chars (trim s) = first :: rest
       /\ is_ws first = false
       /\ (rest = [] \/ exists middle last,
                          rest = (middle ++ [last])%list /\ is_ws last = false).
Proof.
  unfold trim. rewrite chars_str.
  destruct (skip_ws_cases (chars s)) as [E|(c & r & E & Hc)].
  - left. now rewrite E.
  - rewrite E. cbn [rev]. right.
    destruct (skip_ws_snoc (rev r) c Hc) as [l' El'].
    pose proof (skip_ws_cases (rev r ++ [c])%list) as Hcases.
    rewrite El' in *. rewrite rev_app_distr. cbn [rev app].
    exists c, (rev l'). split; [reflexivity|]. split; [exact Hc|].
    destruct l' as [|d l'']; [now left|]. right.
    destruct Hcases as [Hnil|(d' & r2 & Hcons & Hd)]; [discriminate Hnil|].
    inversion Hcons; subst d'. exists (rev l''), d. split; [reflexivity | exact Hd].
Qed.

Lemma trim_length (s : string) : (String.length (trim s) <= String.length s)%nat.
Proof.
  unfold trim. rewrite length_str, length_rev, (length_chars s).
  etransitivity; [apply skip_ws_length|]. rewrite length_rev. apply skip_ws_length.
Qed.

Lemma collapse_ws_length (b : bool) (l : list ascii) :
  (length (collapse_ws b l) <= length l)%nat.
Proof.
  revert b. induction l as [|c r IH]; intros b; [reflexivity|].
  pose proof (IH true). pose proof (IH false).
  simpl. destruct (is_ws c); [destruct b|]; simpl; lia.
Qed.

Lemma collapse_ws_nonempty (b : bool) (l : list ascii) (c : ascii) :
  In c l -> is_ws c = false -> collapse_ws b l <> [].
Proof.
  revert b. induction l as [|x r IH]; intros b Hin Hc; [destruct Hin|].
  simpl. destruct (is_ws x) eqn:E.
  - destruct Hin as [->|Hin]; [congruence|]. destruct b; [now apply IH | discriminate].
  - discriminate.
Qed.

Lemma collapse_ws_single_spaced (l : list ascii) (b : bool) :
  single_spaced b (collapse_ws b l) = true.
Proof.
  revert b. induction l as [|c r IH]; intros b; [reflexivity|].
  simpl. destruct (is_ws c) eqn:E.
  - destruct b; [apply IH|]. simpl. apply IH.
  - simpl. rewrite E. apply IH.
Qed.

Lemma single_spaced_firstn (n : nat) (l : list ascii) (b : bool) :
  single_spaced b l = true -> single_spaced b (firstn n l) = true.
Proof.
  revert l b. induction n as [|n IH]; intros l b H; [reflexivity|].
  destruct l as [|c r]; [reflexivity|]. simpl in *.
  destruct (is_ws c).
  - apply andb_prop in H as [H1 H2]. rewrite H1. now apply IH.
  - now apply IH.
Qed.

Lemma single_spaced_after_space (l : list ascii) :
  (exists c r, l = c :: r /\ is_ws c = false) ->
  single_spaced false l = true -> single_spaced true l = true.
Proof. intros (c & r & -> & Hc). simpl. now rewrite Hc. Qed.

(** The cities of the table and the fall-back are tidy names of 2 to 100
    characters. *)
Lemma city_names_facts :
  forallb (fun city => Nat.leb 2 (String.length city) && Nat.leb (String.length city) 100
                       && single_spaced true (chars city))
          ("United Kingdom" :: List.map snd WeatherController.postcodeAreas_entries) = true.
Proof. vm_compute. reflexivity. Qed.

Lemma getNearbyCityForPostcode_tidy (postcode : string) :
  let city := WeatherController.getNearbyCityForPostcode postcode in
  (2 <= String.length city <= 100)%nat /\ single_spaced true (chars city) = true.
Proof.
  cbv zeta. pose proof city_names_facts as F. rewrite forallb_forall in F.
  assert (Hin : In (WeatherController.getNearbyCityForPostcode postcode)
                   ("United Kingdom" :: List.map snd WeatherController.postcodeAreas_entries)).
  { rewrite getNearbyCityForPostcode_area.
    destruct (WeatherController.lookupArea _) as [city|] eqn:E; [|now left].
    right. apply lookupArea_Some in E as [k [_ Hlook]].
    apply postcodeAreas_lookup in Hlook as [Hin _].
    change city with (snd (k, city)). now apply in_map. }
  specialize (F _ Hin). apply andb_prop in F as [F F3]. apply andb_prop in F as [F1 F2].
  apply Nat.leb_le in F1, F2. auto.
Qed.

(** [cleanLocation] throws exactly when fewer than two characters are
    left once the location is trimmed. *)
Theorem cleanLocation_throws_iff_too_short (location : string) :
  (exists message, WeatherController.cleanLocation location = Throw message)
  <-> (String.length (trim location) < 2)%nat.
Proof.
  unfold WeatherController.cleanLocation.
  destruct (String.eqb location "") eqn:Hempty.
  { apply String.eqb_eq in Hempty. subst. split; [intros _; simpl; lia | eauto]. }
  destruct (ukConfig.postcodeRegex_test (trim location)) eqn:Hpost.
  { destruct (postcode_shape _ Hpost) as (c1 & c2 & rest & Hchars & _).
    split; [intros [m H]; discriminate H|].
    rewrite length_chars, Hchars. simpl. lia. }
  unfold substring0, replace_ws. rewrite !length_str, chars_str.
  destruct (Nat.ltb (length (firstn 100 (collapse_ws false (chars (trim location))))) 2)
    eqn:Hshort.
  - split; [|eauto]. intros _. apply Nat.ltb_lt in Hshort.
    rewrite length_chars.
    destruct (trim_shape location) as [E|(first & rest & E & Hf & Hrest)].
    + rewrite E. simpl. lia.
    + rewrite E in *. destruct Hrest as [->|(middle & last & -> & Hl)]; [simpl; lia|].
      exfalso. simpl in Hshort. rewrite Hf in Hshort.
      assert (Hne : collapse_ws false (middle ++ [last]) <> []).
      { apply (collapse_ws_nonempty false _ last); [|exact Hl].
        apply in_or_app. right. now left. }
      destruct (collapse_ws false (middle ++ [last])) as [|y ys]; [congruence|].
      simpl in Hshort. lia.
  - split; [intros [m H]; discriminate H|].
    apply Nat.ltb_ge in Hshort. intros Hlen. rewrite length_chars in Hlen.
    pose proof (length_firstn 100 (collapse_ws false (chars (trim location)))) as H1.
    pose proof (collapse_ws_length false (chars (trim location))) as H2. lia.
Qed.

(** What [cleanLocation] returns has between 2 and 100 characters, does
    not start with white space, and its only white space is single
    spaces. *)
Theorem cleanLocation_returns_tidy_name (location cleaned : string) :
  WeatherController.cleanLocation location = Return cleaned ->
  (2 <= String.length cleaned <= 100)%nat
  /\ single_spaced true (chars cleaned) = true.
Proof.
  unfold WeatherController.cleanLocation.
  destruct (String.eqb location ""); [discriminate|].
  destruct (ukConfig.postcodeRegex_test (trim location)).
  { intros H. inversion H. apply getNearbyCityForPostcode_tidy. }
  destruct (Nat.ltb _ 2) eqn:Hshort; [discriminate|].
  intros H. inversion H; subst cleaned; clear H.
  apply Nat.ltb_ge in Hshort. split.
  - split; [exact Hshort|]. unfold substring0. rewrite length_str, length_firstn. lia.
  - unfold substring0, replace_ws. rewrite !chars_str.
    apply single_spaced_firstn.
    destruct (trim_shape location) as [E|(first & rest & E & Hf & _)].
    + rewrite E. reflexivity.
    + rewrite E. simpl. rewrite Hf. simpl. rewrite Hf.
      apply collapse_ws_single_spaced.
Qed.

Lemma cleanLocation_returns_tidy_name_witness :
  WeatherController.cleanLocation "  Milton   Keynes " = Return "Milton Keynes"
  /\ (2 <= String.length "Milton Keynes" <= 100)%nat.
Proof.
  split; [reflexivity|].
  apply (cleanLocation_returns_tidy_name "  Milton   Keynes " "Milton Keynes").
  reflexivity.
Defined.

(** ** The per-API breakdown *)

Lemma runningOf_snoc (own : list QueryLogEntry) (log : QueryLogEntry) :
  runningOf (own ++ [log])
  = Some (let api :=
            match runningOf own with
            | Some api => api
            | None => {| QueryLog.Running.total := 0; QueryLog.Running.successful := 0;
                         QueryLog.Running.failed := 0;
                         QueryLog.Running.totalResponseTime := 0;
                         QueryLog.Running.responseTimes := [] |}
            end in
          {| QueryLog.Running.total := S (QueryLog.Running.total api);
             QueryLog.Running.successful :=
               if String.eqb (status log) "success"
               then S (QueryLog.Running.successful api)
               else QueryLog.Running.successful api;
             QueryLog.Running.failed :=
               if String.eqb (status log) "success"
               then QueryLog.Running.failed api
               else S (QueryLog.Running.failed api);
             QueryLog.Running.totalResponseTime :=
               QueryLog.Running.totalResponseTime api + responseTime_or_0 log;
             QueryLog.Running.responseTimes :=
               (QueryLog.Running.responseTimes api ++ [responseTime_or_0 log])%list |}).
Proof.
  assert (Hgen : forall own,
    runningOf (own ++ [log])
    = Some {| QueryLog.Running.total := S (length own);
              QueryLog.Running.successful :=
                if String.eqb (status log) "success"
                then S (length (List.filter isSuccess own))
                else length (List.filter isSuccess own);
              QueryLog.Running.failed :=
                if String.eqb (status log) "success"
                then length (List.filter (fun log => negb (isSuccess log)) own)
                else S (length (List.filter (fun log => negb (isSuccess log)) own));
              QueryLog.Running.totalResponseTime :=
                fold_left Qplus (List.map responseTime_or_0 own) 0 + responseTime_or_0 log;
              QueryLog.Running.responseTimes :=
                (List.map responseTime_or_0 own ++ [responseTime_or_0 log])%list |}).
  { intros l. unfold runningOf. destruct (l ++ [log])%list eqn:E.
    { now destruct l. }
    rewrite <- E. clear E.
    rewrite length_app, !List.filter_app, !length_app, List.map_app, fold_left_app.
    cbn [List.filter List.map fold_left length]. unfold isSuccess at 2 4.
    destruct (String.eqb (status log) "success"); cbn [negb length];
      rewrite ?Nat.add_0_r, ?Nat.add_1_r; reflexivity. }
  rewrite Hgen. destruct own as [|x own']; reflexivity.
Qed.

Lemma logsOfApi_snoc (name : string) (logs : list QueryLogEntry) (log : QueryLogEntry) :
  logsOfApi name (logs ++ [log])
  = (logsOfApi name logs
     ++ if String.eqb (QueryLog.apiNameOf log) name then [log] else [])%list.
Proof.
  unfold logsOfApi. rewrite List.filter_app. cbn [List.filter].
  now destruct (String.eqb (QueryLog.apiNameOf log) name).
Qed.

(** Reading the logs one by one keeps, under each name, the running entry
    of the logs filed under that name. *)
Lemma tally_fold (logs : list QueryLogEntry) (name : string) :
  fold_left QueryLog.tally logs ∅ !! name = runningOf (logsOfApi name logs).
Proof.
  induction logs as [|log logs IH] using rev_ind.
  - reflexivity.
  - rewrite fold_left_app, logsOfApi_snoc. cbn [fold_left].
    unfold QueryLog.tally at 1.
    destruct (String.eqb (QueryLog.apiNameOf log) name) eqn:E.
    + apply String.eqb_eq in E. subst name.
      rewrite lookup_insert_eq, runningOf_snoc, IH. reflexivity.
    + apply String.eqb_neq in E.
      rewrite lookup_insert_ne by exact E. now rewrite app_nil_r.
Qed.

Lemma filter_partition_length {A : Type} (p : A -> bool) (l : list A) :
  (length (List.filter p l) + length (List.filter (fun a => negb (p a)) l)
   = length l)%nat.
Proof.
  induction l as [|a l IH]; [reflexivity|].
  simpl. destruct (p a); simpl; lia.
Qed.

(** The breakdown has an entry exactly for the API names that occur in the
    logs (an empty name counts as 'unknown'), and the entry of a name
    counts the logs filed under it: [total] is their number, [successful]
    the number with status 'success', [failed] all the others, so that
    [successful + failed = total]. *)
Theorem calculateApiBreakdown_counts (logs : list QueryLogEntry)
    (breakdown : gmap string QueryLog.Api.t) (name : string) :
  QueryLog.calculateApiBreakdown logs = Some breakdown ->
  let own := logsOfApi name logs in
  match breakdown !! name with
  | None => own = []
  | Some api =>
      own <> []
      /\ QueryLog.Api.total api = length own
      /\ QueryLog.Api.successful api = length (List.filter isSuccess own)
      /\ QueryLog.Api.failed api
         = length (List.filter (fun log => negb (isSuccess log)) own)
      /\ (QueryLog.Api.successful api + QueryLog.Api.failed api
          = QueryLog.Api.total api)%nat
  end.
Proof.
  unfold QueryLog.calculateApiBreakdown.
  destruct (existsb _ logs); [discriminate|].
  intros H. inversion H; subst breakdown; clear H. cbv zeta.
  rewrite lookup_fmap, tally_fold.
  destruct (logsOfApi name logs) as [|x own'] eqn:E; [reflexivity|].
  cbn [runningOf fmap option_fmap option_map QueryLog.finish
       QueryLog.Api.total QueryLog.Api.successful QueryLog.Api.failed
       QueryLog.Running.total QueryLog.Running.successful QueryLog.Running.failed].
  split; [discriminate|]. repeat split.
  apply filter_partition_length.
Qed.

Lemma calculateApiBreakdown_counts_witness :
  let logs := [ {| apiName := "WeatherAPI"; responseTime := Some 120; status := "success" |};
                {| apiName := ""; responseTime := None; status := "error" |};
                {| apiName := "WeatherAPI"; responseTime := Some 0; status := "timeout" |} ] in
  exists breakdown api,
    QueryLog.calculateApiBreakdown logs = Some breakdown
    /\ breakdown !! "WeatherAPI" = Some api
    /\ QueryLog.Api.total api = 2%nat
    /\ QueryLog.Api.failed api = 1%nat.
Proof.
  cbv zeta.
  destruct (QueryLog.calculateApiBreakdown
              [ {| apiName := "WeatherAPI"; responseTime := Some 120; status := "success" |};
                {| apiName := ""; responseTime := None; status := "error" |};
                {| apiName := "WeatherAPI"; responseTime := Some 0; status := "timeout" |} ])
    as [breakdown|] eqn:Hb; [|discriminate Hb].
  pose proof (calculateApiBreakdown_counts _ breakdown "WeatherAPI" Hb) as H.
  cbv zeta in H.
  destruct (breakdown !! "WeatherAPI") as [api|] eqn:Hl; [|discriminate H].
  destruct H as (_ & Ht & _ & Hf & _).
  exists breakdown, api.
  split; [reflexivity|]. split; [exact Hl|]. split; [exact Ht | exact Hf].
Defined.



(** ** Accuracy metrics *)

Lemma spread_bounds (tolerance : Q) (values : list Q)
    (m : ComparisonController.Spread.t) :
  ComparisonController.spread tolerance values = Some m ->
  (ComparisonController.Spread.agreement m = true ->
   ComparisonController.Spread.maxDifference m <= 2 * tolerance)
  /\ (ComparisonController.Spread.maxDifference m <= tolerance ->
      ComparisonController.Spread.agreement m = true).
Proof.
  unfold ComparisonController.spread.
  destruct values as [|x rest]; [discriminate|].
  destruct (Nat.ltb 1 (length (x :: rest))); [|discriminate].
  intros H. apply (inj Some) in H. subst m.
  cbn [ComparisonController.Spread.agreement ComparisonController.Spread.maxDifference].
  destruct (mean_between x rest) as [Hlo Hhi].
  split.
  - intros Hall. rewrite forallb_forall in Hall.
    pose proof (Hall _ (max_In x rest)) as Hmax.
    pose proof (Hall _ (min_In x rest)) as Hmin.
    apply Qle_bool_iff in Hmax, Hmin.
    apply Qabs_Qle_condition in Hmax, Hmin. lra.
  - intros Hdiff. apply forallb_forall. intros v Hv.
    apply Qle_bool_iff. apply Qabs_Qle_condition.
    pose proof (min_le x rest v Hv). pose proof (max_ge x rest v Hv). lra.
Qed.

Lemma Return_inj {A : Type} (a b : A) : Return a = Return b -> a = b.
Proof. congruence. Qed.

Lemma Metrics_inj (a b : ComparisonController.Accuracy.t) :
  ComparisonController.Metrics a = ComparisonController.Metrics b -> a = b.
Proof. congruence. Qed.

Lemma calculateAccuracyMetrics_inv (results : list (string * jsval))
    (m : ComparisonController.Accuracy.t) :
  ComparisonController.calculateAccuracyMetrics results
  = Return (ComparisonController.Metrics m) ->
  exists temperatures humidities conditions,
    ComparisonController.Accuracy.temperature m
    = ComparisonController.spread 2 temperatures
    /\ ComparisonController.Accuracy.humidity m
       = ComparisonController.spread 10 humidities
    /\ ComparisonController.Accuracy.weatherCondition m
       = (let conditionCounts := fold_left ComparisonController.bump conditions [] in
          let mostCommonCondition :=
            fold_left (ComparisonController.moreCommon conditionCounts)
                      (List.map fst conditionCounts) None in
          if Nat.ltb 1 (length conditions)
          then Some
            {| ComparisonController.Condition.consensus := mostCommonCondition;
               ComparisonController.Condition.agreement :=
                 option_map
                   (fun count => inject_Z (Z.of_nat count)
                                 / inject_Z (Z.of_nat (length conditions)))
                   (ComparisonController.countOf conditionCounts
                      (ComparisonController.keyOf mostCommonCondition));
               ComparisonController.Condition.allConditions := conditionCounts |}
          else None).
Proof.
  unfold ComparisonController.calculateAccuracyMetrics.
  destruct (Nat.ltb (length results) 2); [discriminate|].
  destruct (traverse _ results) as [weatherData|]; [|discriminate]. cbn [bind].
  destruct (traverse _ weatherData) as [temperatures|]; [|discriminate]. cbn [bind].
  destruct (traverse _ weatherData) as [humidities|]; [|discriminate]. cbn [bind].
  destruct (traverse _ weatherData) as [conditions|]; [|discriminate]. cbn [bind].
  destruct (numbers _) as [ts|]; [|discriminate].
  destruct (numbers _) as [hs|]; [|discriminate].
  destruct (strings _) as [cs|]; [|discriminate].
  destruct (forallb _ cs); [|discriminate].
  intros H. apply Return_inj, Metrics_inj in H.
  subst m. exists ts, hs, cs. repeat split.
Qed.

(** The agreement flags of the accuracy metrics against the spread they
    are reported with: temperatures that agree (each within 2 degrees of
    their mean) are at most 4 degrees apart, and temperatures at most 2
    degrees apart agree; likewise for humidities with 10 and 20. *)
Theorem accuracy_agreement_against_spread (results : list (string * jsval))
    (m : ComparisonController.Accuracy.t) :
  ComparisonController.calculateAccuracyMetrics results
  = Return (ComparisonController.Metrics m) ->
  (forall t, ComparisonController.Accuracy.temperature m = Some t ->
     (ComparisonController.Spread.agreement t = true ->
      ComparisonController.Spread.maxDifference t <= 4)
     /\ (ComparisonController.Spread.maxDifference t <= 2 ->
         ComparisonController.Spread.agreement t = true))
  /\ (forall h, ComparisonController.Accuracy.humidity m = Some h ->
        (ComparisonController.Spread.agreement h = true ->
         ComparisonController.Spread.maxDifference h <= 20)
        /\ (ComparisonController.Spread.maxDifference h <= 10 ->
            ComparisonController.Spread.agreement h = true)).
Proof.
  intros H.
  destruct (calculateAccuracyMetrics_inv _ _ H) as (ts & hs & cs & Ht & Hh & _).
  split.
  - intros t Et. rewrite Ht in Et. apply (spread_bounds 2 ts t Et).
  - intros h Eh. rewrite Hh in Eh. apply (spread_bounds 10 hs h Eh).
Qed.

Lemma accuracy_agreement_against_spread_witness :
  exists m t,
    ComparisonController.calculateAccuracyMetrics threeReports
    = Return (ComparisonController.Metrics m)
    /\ ComparisonController.Accuracy.temperature m = Some t
    /\ ComparisonController.Spread.agreement t = true
    /\ ComparisonController.Spread.maxDifference t <= 4.
Proof.
  eexists _, _. split; [vm_compute; reflexivity|].
  split; [reflexivity|]. split; [reflexivity|].
  refine (proj1 (proj1 (accuracy_agreement_against_spread threeReports _ eq_refl)
                   _ eq_refl) eq_refl).
Defined.

(** *** The most common condition *)

Lemma countOf_bump_same (counts : list (string * nat)) (c : string) :
  ComparisonController.countOf (ComparisonController.bump counts c) c
  = Some (S (match ComparisonController.countOf counts c with
             | Some n => n
             | None => 0
             end)).
Proof.
  induction counts as [|[k n] rest IH]; simpl.
  - now rewrite String.eqb_refl.
  - destruct (String.eqb k c) eqn:E; simpl; rewrite E; [reflexivity | exact IH].
Qed.

Lemma countOf_bump_other (counts : list (string * nat)) (c key : string) :
  key <> c ->
  ComparisonController.countOf (ComparisonController.bump counts c) key
  = ComparisonController.countOf counts key.
Proof.
  intros Hne. induction counts as [|[k n] rest IH]; simpl.
  - destruct (String.eqb c key) eqn:E; [|reflexivity].
    apply String.eqb_eq in E. congruence.
  - destruct (String.eqb k c) eqn:E; simpl.
    + apply String.eqb_eq in E. subst k.
      destruct (String.eqb c key) eqn:E'; [|reflexivity].
      apply String.eqb_eq in E'. congruence.
    + destruct (String.eqb k key); [reflexivity | exact IH].
Qed.

Lemma bump_total (counts : list (string * nat)) (c : string) :
  list_sum (List.map snd (ComparisonController.bump counts c))
  = S (list_sum (List.map snd counts)).
Proof.
  induction counts as [|[k n] rest IH]; simpl; [reflexivity|].
  destruct (String.eqb k c); simpl; [reflexivity|]. rewrite IH. lia.
Qed.

Lemma bump_keys (counts : list (string * nat)) (c key : string) :
  In key (List.map fst (ComparisonController.bump counts c))
  <-> key = c \/ In key (List.map fst counts).
Proof.
  induction counts as [|[k n] rest IH]; simpl.
  - intuition congruence.
  - destruct (String.eqb k c) eqn:E; simpl.
    + apply String.eqb_eq in E. subst k. intuition congruence.
    + rewrite IH. intuition congruence.
Qed.

Lemma countOf_keys (counts : list (string * nat)) (key : string) :
  In key (List.map fst counts)
  <-> exists n, ComparisonController.countOf counts key = Some n.
Proof.
  induction counts as [|[k n] rest IH]; simpl.
  - split; [tauto | intros [n H]; discriminate H].
  - destruct (String.eqb k key) eqn:E.
    + apply String.eqb_eq in E. subst. split; eauto.
    + apply String.eqb_neq in E. rewrite <- IH. intuition congruence.
Qed.

Lemma countOf_le_total (counts : list (string * nat)) (key : string) (n : nat) :
  ComparisonController.countOf counts key = Some n ->
  (n <= list_sum (List.map snd counts))%nat.
Proof.
  induction counts as [|[k n'] rest IH]; simpl; [discriminate|].
  destruct (String.eqb k key).
  - intros [= ->]. lia.
  - intros H. specialize (IH H). lia.
Qed.

(** The counts after the conditions have been read: they add up to the
    number of conditions, every count is positive, and the keys are the
    conditions. *)
Lemma conditionCounts_facts (conditions : list string) :
  let conditionCounts := fold_left ComparisonController.bump conditions [] in
  list_sum (List.map snd conditionCounts) = length conditions
  /\ (forall key n, ComparisonController.countOf conditionCounts key = Some n ->
                    (0 < n)%nat)
  /\ (forall key, In key (List.map fst conditionCounts) <-> In key conditions).
Proof.
  cbv zeta. induction conditions as [|c rest IH] using rev_ind.
  - split; [reflexivity|]. split; [discriminate | reflexivity].
  - destruct IH as (Hsum & Hpos & Hkeys).
    rewrite fold_left_app. cbn [fold_left]. split; [|split].
    + rewrite bump_total, Hsum, length_app. simpl. lia.
    + intros key n. destruct (String.eqb key c) eqn:E.
      * apply String.eqb_eq in E. subst key. rewrite countOf_bump_same.
        intros [= <-]. lia.
      * apply String.eqb_neq in E. rewrite countOf_bump_other by exact E.
        apply Hpos.
    + intros key. rewrite bump_keys, Hkeys, in_app_iff. simpl. intuition congruence.
Qed.

(** Going through the keys, [reduce] holds a key whose count is at least
    the count of every key seen so far. *)
Lemma moreCommon_fold (counts : list (string * nat)) (keys seen : list string)
    (a : option string) :
  (forall key, In key keys -> exists n, ComparisonController.countOf counts key = Some n) ->
  (forall key n, In key seen -> ComparisonController.countOf counts key = Some n ->
     exists n', ComparisonController.countOf counts (ComparisonController.keyOf a)
                = Some n' /\ (n <= n')%nat) ->
  forall key n, In key (seen ++ keys) ->
    ComparisonController.countOf counts key = Some n ->
    exists n', ComparisonController.countOf counts
                 (ComparisonController.keyOf
                    (fold_left (ComparisonController.moreCommon counts) keys a))
               = Some n' /\ (n <= n')%nat.
Proof.
  revert seen a. induction keys as [|b rest IH]; intros seen a Hkeys Hseen.
  - rewrite app_nil_r. exact Hseen.
  - cbn [fold_left].
    replace (seen ++ b :: rest)%list with ((seen ++ [b]) ++ rest)%list
      by now rewrite <- app_assoc.
    apply IH; [intros key Hin; apply Hkeys; now right|].
    destruct (Hkeys b (or_introl eq_refl)) as [nb Hb].
    intros key n Hin Hn. apply in_app_iff in Hin as [Hin|[<-|[]]].
    + destruct (Hseen key n Hin Hn) as (na & Ha & Hle).
      unfold ComparisonController.moreCommon. rewrite Ha, Hb.
      destruct (Nat.ltb nb na) eqn:E.
      * exists na. auto.
      * apply Nat.ltb_ge in E. exists nb. cbn [ComparisonController.keyOf].
        split; [exact Hb | lia].
    + rewrite Hb in Hn. injection Hn as <-.
      unfold ComparisonController.moreCommon. rewrite Hb.
      destruct (ComparisonController.countOf counts (ComparisonController.keyOf a))
        as [na|] eqn:Ha.
      * destruct (Nat.ltb nb na) eqn:E.
        -- apply Nat.ltb_lt in E. exists na. split; [exact Ha | lia].
        -- exists nb. cbn [ComparisonController.keyOf]. auto.
      * exists nb. cbn [ComparisonController.keyOf]. auto.
Qed.

(** The consensus of the weather conditions is a condition that no other
    condition outnumbers, and [agreement] is its share of the conditions
    read, above 0 and at most 1. *)
Theorem consensus_is_a_most_common_condition (results : list (string * jsval))
    (m : ComparisonController.Accuracy.t) (c : ComparisonController.Condition.t) :
  ComparisonController.calculateAccuracyMetrics results
  = Return (ComparisonController.Metrics m) ->
  ComparisonController.Accuracy.weatherCondition m = Some c ->
  let conditionCounts := ComparisonController.Condition.allConditions c in
  let total := list_sum (List.map snd conditionCounts) in
  exists count,
    ComparisonController.countOf conditionCounts
      (ComparisonController.keyOf (ComparisonController.Condition.consensus c))
    = Some count
    /\ (forall key n, ComparisonController.countOf conditionCounts key = Some n ->
                      (n <= count)%nat)
    /\ (0 < count <= total)%nat
    /\ ComparisonController.Condition.agreement c = Some (num count / num total).
Proof.
  intros H Hc.
  destruct (calculateAccuracyMetrics_inv _ _ H) as (ts & hs & cs & _ & _ & Hw).
  rewrite Hw in Hc. cbv zeta in Hc.
  destruct (Nat.ltb 1 (length cs)) eqn:Hlen; [|discriminate].
  apply (inj Some) in Hc. subst c.
  cbn [ComparisonController.Condition.allConditions
       ComparisonController.Condition.consensus
       ComparisonController.Condition.agreement].
  cbv zeta.
  destruct (conditionCounts_facts cs) as (Hsum & Hpos & Hkeys). cbv zeta in *.
  set (counts := fold_left ComparisonController.bump cs []) in *.
  set (keys := List.map fst counts) in *.
  pose proof (moreCommon_fold counts keys [] None
                (fun key Hin => proj1 (countOf_keys counts key) Hin)
                (fun key n Hin _ => match Hin with end)) as Hmax.
  cbn [app] in Hmax.
  apply Nat.ltb_lt in Hlen.
  destruct cs as [|first rest]; [simpl in Hlen; lia|].
  assert (Hfirst : In first keys) by (apply Hkeys; now left).
  destruct (proj1 (countOf_keys counts first) Hfirst) as [n1 Hn1].
  destruct (Hmax first n1 Hfirst Hn1) as (count & Hcount & _).
  exists count. split; [exact Hcount|]. split; [|split].
  - intros key n Hn.
    assert (Hin : In key keys) by (apply countOf_keys; eauto).
    destruct (Hmax key n Hin Hn) as (count' & Hcount' & Hle). congruence.
  - split; [now apply (Hpos _ _ Hcount) | now apply (countOf_le_total _ _ _ Hcount)].
  - rewrite Hcount, Hsum. reflexivity.
Qed.

Lemma consensus_is_a_most_common_condition_witness :
  exists m c,
    ComparisonController.calculateAccuracyMetrics threeReports
    = Return (ComparisonController.Metrics m)
    /\ ComparisonController.Accuracy.weatherCondition m = Some c
    /\ ComparisonController.Condition.consensus c = Some "Clouds"
    /\ ComparisonController.Condition.agreement c = Some (num 2 / num 3).
Proof.
  eexists _, _. split; [vm_compute; reflexivity|].
  split; [reflexivity|]. split; [reflexivity|].
  destruct (consensus_is_a_most_common_condition threeReports _ _ eq_refl eq_refl)
    as (count & Hcount & _ & _ & Hagreement).
  vm_compute in Hcount. injection Hcount as <-. exact Hagreement.
Defined.

(** ** Comparing what was stored *)

Lemma traverse_map {A B : Type} (f : A -> completion B) (g : A -> B) (items : list A) :
  (forall x, In x items -> f x = Return (g x)) ->
  traverse f items = Return (List.map g items).
Proof.
  induction items as [|x rest IH]; intros H; [reflexivity|].
  cbn [traverse List.map]. rewrite (H x (or_introl eq_refl)). cbn [bind].
  rewrite IH by (intros y Hy; apply H; now right). reflexivity.
Qed.

Lemma compareMetric_ext (ws ws' : list Weather.t) (metric : string) :
  List.map Weather.getStandardizedCurrent ws
  = List.map Weather.getStandardizedCurrent ws' ->
  ComparisonController.compareMetric ws metric
  = ComparisonController.compareMetric ws' metric.
Proof.
  intros H. unfold ComparisonController.compareMetric, ComparisonController.metricValues.
  rewrite <- (List.map_map Weather.getStandardizedCurrent (Weather.metricValue metric) ws).
  rewrite <- (List.map_map Weather.getStandardizedCurrent (Weather.metricValue metric) ws').
  now rewrite H.
Qed.

Lemma compareAll_ext (ws ws' : list Weather.t) :
  List.map Weather.getStandardizedCurrent ws
  = List.map Weather.getStandardizedCurrent ws' ->
  ComparisonController.compareAll ws = ComparisonController.compareAll ws'.
Proof.
  intros H. unfold ComparisonController.compareAll.
  now rewrite !(compareMetric_ext ws ws' _ H).
Qed.

(** The standardized object of a valid record has a [current] block. *)
Lemma accepted_shape (w : Weather.t) (standardized : jsval) :
  accepted w standardized ->
  exists forecast,
    standardized
    = JObject [("location", Weather.getStandardizedLocation w);
               ("current", Weather.getStandardizedCurrent w);
               ("forecast", forecast);
               ("source", Weather.source w);
               ("timestamp", Weather.timestamp w)].
Proof.
  intros (_ & Hvalid & Hstd).
  unfold Weather.isValid, Weather.hasValidCurrent in Hvalid.
  apply andb_prop in Hvalid as [_ Hcur].
  apply andb_prop in Hcur as [Hcur _]. apply andb_prop in Hcur as [Hcur Htemp].
  unfold Weather.getStandardized in Hstd.
  rewrite Hcur, Htemp, (truthy_property_has_keys _ _ Htemp) in Hstd.
  cbn [negb andb] in Hstd.
  destruct (Weather.getStandardizedForecast w) as [forecast|]; [|discriminate].
  cbn [bind] in Hstd. apply Return_inj in Hstd. subst standardized. eauto.
Qed.

Lemma rewrap_stored (now' : string) (stored : list (string * Weather.t * jsval)) :
  (forall entry, In entry stored -> accepted (snd (fst entry)) (snd entry)) ->
  exists ws',
    traverse (fun entry => let* data := member (snd entry) "data" in
                           Weather.new now' data) (resultsOf stored)
    = Return ws'
    /\ List.map Weather.getStandardizedCurrent ws'
       = List.map Weather.getStandardizedCurrent (recordsOf stored).
Proof.
  induction stored as [|[[name w] standardized] rest IH]; intros H.
  - exists []. split; reflexivity.
  - destruct IH as (ws' & Htr & Hmap); [intros e He; apply H; now right|].
    destruct (H _ (or_introl eq_refl)) as ((now & data & Hnow & Hnew) & Hvalid & Hstd).
    cbn [fst snd] in *.
    destruct (standardized_again now now' data standardized w Hnow Hnew Hvalid Hstd)
      as (w' & Hnew' & _ & Hcur & _).
    exists (w' :: ws'). split.
    + cbn [resultsOf List.map traverse fst snd]. unfold resultEntry at 1.
      cbn [member get assoc String.eqb Ascii.eqb Bool.eqb bind].
      rewrite Hnew'. cbn [bind]. fold (resultsOf rest). rewrite Htr. reflexivity.
    + cbn [recordsOf List.map fst snd]. fold (recordsOf rest). now rewrite Hcur, Hmap.
Qed.

(** On the results that [compareCurrentWeather] stored, the detailed
    comparison is the comparison of the records the providers returned:
    wrapping the standardized objects in new records changes no metric
    value.  Neither [performDetailedComparison] nor
    [calculateAccuracyMetrics] throws on them. *)
Theorem stored_results_are_compared_as_records (now' : string)
    (stored : list (string * Weather.t * jsval)) :
  (forall entry, In entry stored -> accepted (snd (fst entry)) (snd entry)) ->
  ComparisonController.performDetailedComparison now' (resultsOf stored)
  = Return (if Nat.ltb (length stored) 2 then ComparisonController.DetailedNull
            else ComparisonController.compareAll (recordsOf stored))
  /\ exists metrics,
       ComparisonController.calculateAccuracyMetrics (resultsOf stored) = Return metrics.
Proof.
  intros H. split.
  - unfold ComparisonController.performDetailedComparison.
    unfold resultsOf at 1. rewrite length_map.
    destruct (Nat.ltb (length stored) 2); [reflexivity|].
    destruct (rewrap_stored now' stored H) as (ws' & Htr & Hmap).
    rewrite Htr. cbn [bind]. now rewrite (compareAll_ext _ _ Hmap).
  - unfold ComparisonController.calculateAccuracyMetrics.
    destruct (Nat.ltb (length (resultsOf stored)) 2); [eauto|].
    rewrite (traverse_map _ (fun entry => snd entry ~> "data"))
      by (intros [name entry] Hin; unfold resultsOf in Hin;
          apply in_map_iff in Hin as (e & He & _); inversion He; subst; reflexivity).
    cbn [bind].
    assert (Hshape : forall data,
      In data (List.map (fun entry => snd entry ~> "data") (resultsOf stored)) ->
      exists w forecast,
        data = JObject [("location", Weather.getStandardizedLocation w);
                        ("current", Weather.getStandardizedCurrent w);
                        ("forecast", forecast);
                        ("source", Weather.source w);
                        ("timestamp", Weather.timestamp w)]).
    { intros data Hin. apply in_map_iff in Hin as ([name entry] & <- & Hin).
      unfold resultsOf in Hin. apply in_map_iff in Hin as (e & He & Hin).
      inversion He; subst. destruct (accepted_shape _ _ (H e Hin)) as [forecast ->].
      eauto. }
    rewrite (traverse_map _ (fun data => data ~> "current" ~> "temperature" ~> "celsius"))
      by (intros data Hin; destruct (Hshape data Hin) as (w & forecast & ->);
          reflexivity).
    cbn [bind].
    rewrite (traverse_map _ (fun data => data ~> "current" ~> "humidity"))
      by (intros data Hin; destruct (Hshape data Hin) as (w & forecast & ->);
          reflexivity).
    cbn [bind].
    rewrite (traverse_map _ (fun data => data ~> "current" ~> "weather" ~> "main"))
      by (intros data Hin; destruct (Hshape data Hin) as (w & forecast & ->);
          reflexivity).
    cbn [bind].
    destruct (numbers _); [|eauto]. destruct (numbers _); [|eauto].
    destruct (strings _); [|eauto]. destruct (forallb _ _); eauto.
Qed.

Lemma stored_results_are_compared_as_records_witness :
  (forall entry, In entry twoStored -> accepted (snd (fst entry)) (snd entry))
  /\ ComparisonController.performDetailedComparison "2024-05-01T12:00:01.000Z"
       (resultsOf twoStored)
     = Return (ComparisonController.compareAll (recordsOf twoStored)).
Proof.
  assert (H : forall entry, In entry twoStored -> accepted (snd (fst entry)) (snd entry)).
  { intros entry [<-|[<-|[]]]; (split; [|split; reflexivity]);
      [exists "2024-05-01T12:00:00.000Z", (londonPayload "OpenWeatherMap")
      |exists "2024-05-01T12:00:00.000Z", (londonPayload "WeatherAPI")];
      (split; [discriminate | reflexivity]). }
  split; [exact H|].
  exact (proj1 (stored_results_are_compared_as_records "2024-05-01T12:00:01.000Z"
                  twoStored H)).
Defined.

(** ** The location cache of the AccuWeather service *)

Lemma getLocationKey_step (locationCache : gmap string jsval) (location : string)
    (outcome : AccuWeatherService.search) (duration : Z) :
  let r := AccuWeatherService.getLocationKey locationCache location outcome duration in
  (forall other cached, locationCache !! other = Some cached ->
                        fst (fst r) !! other = Some cached)
  /\ (forall entry, snd (fst r) = Return entry -> fst (fst r) !! location = Some entry)
  /\ (forall message, snd (fst r) = Throw message -> fst (fst r) = locationCache)
  /\ (snd r = [] <-> locationCache !! location <> None).
Proof.
  cbv zeta. unfold AccuWeatherService.getLocationKey.
  destruct (locationCache !! location) as [cached|] eqn:Hcached.
  { cbn [fst snd]. repeat split; try congruence; auto. }
  assert (Hfailed : forall message : string,
    let r := (locationCache,
              @Throw jsval ("AccuWeather location search error: " ++ message),
              [HttpGet; LogQuery "error" duration]) in
    (forall other cached, locationCache !! other = Some cached ->
                          fst (fst r) !! other = Some cached)
    /\ (forall entry, snd (fst r) = Return entry -> fst (fst r) !! location = Some entry)
    /\ (forall message, snd (fst r) = Throw message -> fst (fst r) = locationCache)
    /\ (snd r = [] <-> @None jsval <> None)).
  { intros message. cbn [fst snd]. repeat split; try discriminate; auto; congruence. }
  destruct outcome as [message|data]; [apply Hfailed|].
  destruct (truthy data && length_positive data); [|apply Hfailed].
  destruct (AccuWeatherService.locationEntry _) as [entry|message]; [|apply Hfailed].
  cbn [fst snd]. repeat split; try discriminate; try congruence.
  - intros other cached Hother.
    rewrite lookup_insert_ne; [exact Hother | congruence].
  - intros e [= <-]. apply lookup_insert_eq.
Qed.

(** Once a location is in the cache of the AccuWeather service it stays
    there with the same entry, whatever look-ups follow, and asking for it
    returns that entry without a request to the provider and without a
    log entry: an entry is never refreshed or evicted. *)
Theorem cached_location_is_kept (locationCache : gmap string jsval)
    (history : list (string * AccuWeatherService.search * Z))
    (location : string) (cached : jsval)
    (outcome : AccuWeatherService.search) (duration : Z) :
  locationCache !! location = Some cached ->
  let later := lookUp locationCache history in
  later !! location = Some cached
  /\ AccuWeatherService.getLocationKey later location outcome duration
     = (later, Return cached, []).
Proof.
  intros H. cbv zeta.
  assert (Hkept : lookUp locationCache history !! location = Some cached).
  { revert locationCache H.
    induction history as [|[[l o] d] rest IH]; intros locationCache H; [exact H|].
    cbn [lookUp]. apply IH.
    now apply (proj1 (getLocationKey_step locationCache l o d)). }
  split; [exact Hkept|].
  unfold AccuWeatherService.getLocationKey. now rewrite Hkept.
Qed.

Lemma cached_location_is_kept_witness :
  let london :=
    JObject [("Key", JString "328328"); ("LocalizedName", JString "London");
             ("Country", JObject [("LocalizedName", JString "United Kingdom")]);
             ("GeoPosition", JObject [("Latitude", JNumber (515 # 10));
                                      ("Longitude", JNumber (- (1 # 10)))])] in
  let first := lookUp ∅ [("London", AccuWeatherService.SearchReturns (JArray [london]), 80%Z)] in
  exists cached,
    first !! "London" = Some cached
    /\ lookUp first [("Leeds", AccuWeatherService.SearchFails "timeout", 10000%Z)]
       !! "London" = Some cached.
Proof.
  cbv zeta. eexists. split; [vm_compute; reflexivity|].
  refine (proj1 (cached_location_is_kept _
                   [("Leeds", AccuWeatherService.SearchFails "timeout", 10000%Z)]
                   "London" _ (AccuWeatherService.SearchFails "down") 0 _)).
  vm_compute. reflexivity.
Defined.

(** A look-up that throws leaves the cache as it was; a look-up that
    returns leaves the returned entry in the cache under the location
    asked for; and the provider is contacted exactly when the location is
    not in the cache. *)
Theorem location_lookup_and_cache (locationCache : gmap string jsval) (location : string)
    (outcome : AccuWeatherService.search) (duration : Z) :
  let r := AccuWeatherService.getLocationKey locationCache location outcome duration in
  (forall entry, snd (fst r) = Return entry -> fst (fst r) !! location = Some entry)
  /\ (forall message, snd (fst r) = Throw message -> fst (fst r) = locationCache)
  /\ (In HttpGet (snd r) <-> locationCache !! location = None).
Proof.
  destruct (getLocationKey_step locationCache location outcome duration)
    as (_ & Hret & Hthrow & Hevents).
  cbv zeta in *. split; [exact Hret|]. split; [exact Hthrow|].
  unfold AccuWeatherService.getLocationKey in *.
  destruct (locationCache !! location) as [cached|].
  { cbn [snd]. split; [intros [] | discriminate]. }
  split; [reflexivity|]. intros _.
  destruct outcome as [message|data]; [now left|].
  destruct (truthy data && length_positive data); [|now left].
  destruct (AccuWeatherService.locationEntry _); now left.
Qed.

(** ** The adapters against the canonical record *)

(** Whatever a provider sends, the record made from an adapter's output
    has a valid [current] block: its temperature in Celsius is a number.
    So [isValid] can reject an adapter's record only for its location. *)
Theorem adapter_records_have_a_valid_current (now : string) (toISOString : Q -> string)
    (openWeather : OpenWeatherService.CurrentData)
    (weatherApi : WeatherApiService.CurrentData)
    (accuWeather : AccuWeatherService.CurrentData) (locationData : jsval) :
  exists w1 w2 w3,
    Weather.new now (OpenWeatherService.transformCurrentWeatherData toISOString openWeather)
    = Return w1
    /\ Weather.new now (WeatherApiService.transformCurrentWeatherData now weatherApi)
       = Return w2
    /\ Weather.new now (AccuWeatherService.transformCurrentWeatherData accuWeather locationData)
       = Return w3
    /\ Weather.hasValidCurrent w1 = true
    /\ Weather.hasValidCurrent w2 = true
    /\ Weather.hasValidCurrent w3 = true
    /\ Weather.isValid w1 = Weather.hasValidLocation w1
    /\ Weather.isValid w2 = Weather.hasValidLocation w2
    /\ Weather.isValid w3 = Weather.hasValidLocation w3.
Proof.
  eexists _, _, _.
  split; [reflexivity|]. split; [reflexivity|]. split; [reflexivity|].
  assert (H1 : forall w, Weather.hasValidCurrent w = true ->
                         Weather.isValid w = Weather.hasValidLocation w).
  { intros w H. unfold Weather.isValid. rewrite H. apply andb_true_r. }
  repeat split; try apply H1; reflexivity.
Qed.

(** Two values the adapters write are not read by the canonical record:
    OpenWeatherMap gives the visibility in metres and miles, so the
    standardized [visibility.km] of its records is always [null];
    AccuWeather gives the cloud cover as [cloudCover], so the standardized
    [clouds] of its records is always [null].  WeatherAPI fills both. *)
Theorem values_the_canonical_record_does_not_read (now : string)
    (toISOString : Q -> string)
    (openWeather : OpenWeatherService.CurrentData)
    (weatherApi : WeatherApiService.CurrentData)
    (accuWeather : AccuWeatherService.CurrentData) (locationData : jsval) :
  exists w1 w2 w3,
    Weather.new now (OpenWeatherService.transformCurrentWeatherData toISOString openWeather)
    = Return w1
    /\ Weather.new now (WeatherApiService.transformCurrentWeatherData now weatherApi)
       = Return w2
    /\ Weather.new now (AccuWeatherService.transformCurrentWeatherData accuWeather locationData)
       = Return w3
    /\ at_path (Weather.getStandardizedCurrent w1) ["visibility"; "km"] = JNull
    /\ at_path (Weather.getStandardizedCurrent w3) ["clouds"] = JNull
    /\ at_path (Weather.getStandardizedCurrent w2) ["visibility"; "km"]
       = WeatherApiService.current weatherApi ~> "vis_km" ||| JNull
    /\ at_path (Weather.getStandardizedCurrent w2) ["clouds"]
       = WeatherApiService.current weatherApi ~> "cloud" ||| JNull.
Proof.
  eexists _, _, _.
  split; [reflexivity|]. split; [reflexivity|]. split; [reflexivity|].
  split; [|repeat split].
  cbn [at_path fold_left Weather.getStandardizedCurrent get assoc String.eqb Ascii.eqb
       Bool.eqb js_or truthy Weather.current
       OpenWeatherService.transformCurrentWeatherData].
  destruct (OpenWeatherService.visibility openWeather) as [meters|]; [|reflexivity].
  destruct (Qeq_bool meters 0); reflexivity.
Qed.

Lemma scales_agree (temp : Q) :
  Qabs (inject_Z (Math.round (temp * 9 / 5 + 32))
        - (inject_Z (Math.round temp) * 9 / 5 + 32)) <= 7 # 5.
Proof.
  pose proof (round_bounds temp) as H1.
  pose proof (round_bounds (temp * 9 / 5 + 32)) as H2.
  apply Qabs_Qle_condition.
  set (c := inject_Z (Math.round temp)) in *.
  set (f := inject_Z (Math.round (temp * 9 / 5 + 32))) in *.
  assert (E : forall x, x * 9 / 5 + 32 == (9 # 5) * x + 32) by (intros; field).
  rewrite (E c). rewrite (E temp) in H2. clearbody c f.
  destruct H1, H2. split; lra.
Qed.

(** The two temperature scales of an OpenWeatherMap record are rounded
    separately from the same reading: the Fahrenheit value is within 1.4
    degrees of the conversion of the Celsius value, for the temperature
    and for the feels-like temperature. *)
Theorem openweather_scales_agree (toISOString : Q -> string)
    (data : OpenWeatherService.CurrentData) :
  let temperature :=
    at_path (OpenWeatherService.transformCurrentWeatherData toISOString data)
            ["current"; "temperature"] in
  exists celsius fahrenheit feelsCelsius feelsFahrenheit,
    temperature ~> "celsius" = JNumber celsius
    /\ temperature ~> "fahrenheit" = JNumber fahrenheit
    /\ temperature ~> "feelsLike" ~> "celsius" = JNumber feelsCelsius
    /\ temperature ~> "feelsLike" ~> "fahrenheit" = JNumber feelsFahrenheit
    /\ Qabs (fahrenheit - (celsius * 9 / 5 + 32)) <= 7 # 5
    /\ Qabs (feelsFahrenheit - (feelsCelsius * 9 / 5 + 32)) <= 7 # 5.
Proof.
  cbv zeta. eexists _, _, _, _.
  split; [reflexivity|]. split; [reflexivity|].
  split; [reflexivity|]. split; [reflexivity|].
  split; apply scales_agree.
Qed.

(** ** CSV rows of the query log *)

Lemma chars_inj (a b : string) : chars a = chars b -> a = b.
Proof.
  intros H. rewrite <- (String.string_of_list_ascii_of_string a),
                    <- (String.string_of_list_ascii_of_string b).
  unfold chars in H. now rewrite H.
Qed.

Lemma chars_append (a b : string) : chars (a ++ b) = (chars a ++ chars b)%list.
Proof. induction a as [|c a IH]; [reflexivity|]. simpl. now rewrite IH. Qed.

(** The characters of an escaped value: either the value as it is, free
    of commas, quotes and line feeds, or the value between quotes with
    its quotes doubled. *)
Lemma escape_cases (value : option string) :
  (chars (QueryLog.escape value) = chars (textOf value)
   /\ existsb QueryLog.special (chars (textOf value)) = false)
  \/ (chars (QueryLog.escape value)
      = (QueryLog.quote :: QueryLog.doubleQuotes (chars (textOf value))
         ++ [QueryLog.quote])%list).
Proof.
  destruct value as [s|]; [|left; split; reflexivity].
  unfold QueryLog.escape. cbn [textOf].
  destruct (existsb QueryLog.special (chars s)) eqn:E.
  - right. apply chars_str.
  - left. split; reflexivity.
Qed.

Lemma raw_prefix (l1 l2 t1 t2 : list ascii) :
  existsb QueryLog.special l1 = false ->
  existsb QueryLog.special l2 = false ->
  afterField t1 -> afterField t2 ->
  (l1 ++ t1 = l2 ++ t2)%list -> l1 = l2 /\ t1 = t2.
Proof.
  assert (Hhead : forall c l t, existsb QueryLog.special (c :: l) = false ->
                                afterField t -> t <> (c :: l ++ t)%list
                                /\ forall x, t = (c :: x)%list -> False).
  { intros c l t Hraw Ht. simpl in Hraw. apply orb_false_elim in Hraw as [Hc _].
    unfold QueryLog.special in Hc. apply orb_false_elim in Hc as [Hc _].
    apply orb_false_elim in Hc as [Hc _]. apply Ascii.eqb_neq in Hc.
    split.
    - intros E. destruct Ht as [->|[rest ->]]; [discriminate|]. congruence.
    - intros x E. destruct Ht as [->|[rest ->]]; [discriminate|]. congruence. }
  revert l2. induction l1 as [|c l1 IH]; intros l2 H1 H2 Ht1 Ht2 E.
  - destruct l2 as [|c' l2]; [auto|]. exfalso.
    simpl in E. now apply (proj2 (Hhead c' l2 t1 H2 Ht1) (l2 ++ t2)%list).
  - destruct l2 as [|c' l2].
    + exfalso. simpl in E. symmetry in E.
      now apply (proj2 (Hhead c l1 t2 H1 Ht2) (l1 ++ t1)%list).
    + simpl in E. injection E as -> E.
      simpl in H1, H2. apply orb_false_elim in H1 as [_ H1], H2 as [_ H2].
      destruct (IH l2 H1 H2 Ht1 Ht2 E) as [-> ->]. auto.
Qed.

Lemma doubled_prefix (l1 l2 t1 t2 : list ascii) :
  afterField t1 -> afterField t2 ->
  (QueryLog.doubleQuotes l1 ++ QueryLog.quote :: t1
   = QueryLog.doubleQuotes l2 ++ QueryLog.quote :: t2)%list ->
  l1 = l2 /\ t1 = t2.
Proof.
  assert (Hend : forall c l t x, afterField t ->
            (QueryLog.quote :: t = QueryLog.doubleQuotes (c :: l) ++ x)%list -> False).
  { intros c l t x Ht E. simpl in E.
    destruct (Ascii.eqb c QueryLog.quote) eqn:Ec.
    - simpl in E. injection E as E.
      destruct Ht as [->|[rest ->]]; [discriminate|].
      injection E as E _. vm_compute in E. discriminate E.
    - simpl in E. injection E as E _. apply Ascii.eqb_neq in Ec. congruence. }
  revert l2. induction l1 as [|c l1 IH]; intros l2 Ht1 Ht2 E.
  - destruct l2 as [|c' l2].
    + simpl in E. injection E as E. auto.
    + exfalso. exact (Hend c' l2 t1 _ Ht1 E).
  - destruct l2 as [|c' l2].
    + exfalso. symmetry in E. exact (Hend c l1 t2 _ Ht2 E).
    + simpl in E.
      destruct (Ascii.eqb c QueryLog.quote) eqn:Ec;
        destruct (Ascii.eqb c' QueryLog.quote) eqn:Ec'; simpl in E.
      * apply Ascii.eqb_eq in Ec, Ec'. subst c c'. injection E as E.
        destruct (IH l2 Ht1 Ht2 E) as [-> ->]. auto.
      * injection E as E _. apply Ascii.eqb_neq in Ec'. congruence.
      * injection E as E _. apply Ascii.eqb_neq in Ec. congruence.
      * injection E as -> E. destruct (IH l2 Ht1 Ht2 E) as [-> ->]. auto.
Qed.

(** No escaped value goes on as another escaped value followed by a
    separator: the end of a field can be told from the row. *)
Lemma escape_prefix (a b : option string) (t1 t2 : list ascii) :
  afterField t1 -> afterField t2 ->
  (chars (QueryLog.escape a) ++ t1 = chars (QueryLog.escape b) ++ t2)%list ->
  textOf a = textOf b /\ t1 = t2.
Proof.
  intros Ht1 Ht2 E.
  assert (Hmixed : forall l x t, existsb QueryLog.special l = false -> afterField t ->
                     (l ++ t = QueryLog.quote :: x)%list -> False).
  { intros l x t Hraw Ht H. destruct l as [|c l].
    - simpl in H. destruct Ht as [->|[rest ->]]; [discriminate|].
      injection H as H _. vm_compute in H. discriminate H.
    - simpl in H. injection H as -> _. simpl in Hraw. discriminate Hraw. }
  destruct (escape_cases a) as [[Ea Ha]|Ea], (escape_cases b) as [[Eb Hb]|Eb];
    rewrite Ea, Eb in E.
  - destruct (raw_prefix _ _ _ _ Ha Hb Ht1 Ht2 E) as [H ->].
    split; [now apply chars_inj | reflexivity].
  - exfalso. simpl in E. exact (Hmixed _ _ _ Ha Ht1 E).
  - exfalso. simpl in E. symmetry in E. exact (Hmixed _ _ _ Hb Ht2 E).
  - simpl in E. injection E as E. rewrite <- !app_assoc in E. simpl in E.
    destruct (doubled_prefix _ _ _ _ Ht1 Ht2 E) as [H ->].
    split; [now apply chars_inj | reflexivity].
Qed.

Lemma chars_join (field : string) (next : string) (rest : list string) :
  chars (QueryLog.join (field :: next :: rest))
  = (chars field ++ QueryLog.comma :: chars (QueryLog.join (next :: rest)))%list.
Proof. cbn [QueryLog.join]. now rewrite chars_append. Qed.

(** A row of [toCsvRow] determines the text of each of its values: two
    lists of as many values that give the same row hold the same texts.
    ([null] and the empty string are both written as nothing.) *)
Theorem csv_row_determines_its_values (values values' : list (option string)) :
  length values = length values' ->
  QueryLog.toCsvRow values = QueryLog.toCsvRow values' ->
  List.map textOf values = List.map textOf values'.
Proof.
  unfold QueryLog.toCsvRow. revert values'.
  induction values as [|a rest IH]; intros [|b rest'] Hlen E; try discriminate Hlen.
  - reflexivity.
  - simpl in Hlen. injection Hlen as Hlen.
    destruct rest as [|a' rest], rest' as [|b' rest']; try discriminate Hlen.
    + cbn [List.map QueryLog.join] in E.
      destruct (escape_prefix a b [] [] (or_introl eq_refl) (or_introl eq_refl)) as [H _].
      { now rewrite E. }
      cbn [List.map]. now rewrite H.
    + apply (f_equal chars) in E. cbn [List.map] in E. rewrite !chars_join in E.
      destruct (escape_prefix a b _ _ (or_intror (ex_intro _ _ eq_refl))
                  (or_intror (ex_intro _ _ eq_refl)) E) as [H Htail].
      injection Htail as Htail. apply chars_inj in Htail.
      specialize (IH (b' :: rest') Hlen Htail).
      cbn [List.map] in IH |- *. now rewrite H, IH.
Qed.

Lemma csv_row_determines_its_values_witness :
  let values := [Some "2024-05-01T12:00:00.000Z"; Some "WeatherAPI"; Some "Leeds, UK";
                 Some "none"; Some "120"; Some "success"; None] in
  let values' := [Some "2024-05-01T12:00:00.000Z"; Some "WeatherAPI"; Some "Leeds, UK";
                  Some "none"; Some "120"; Some "success"; Some EmptyString] in
  QueryLog.toCsvRow values = QueryLog.toCsvRow values'
  /\ List.map textOf values = List.map textOf values'.
Proof.
  cbv zeta. split; [reflexivity|].
  apply csv_row_determines_its_values; reflexivity.
Defined.

(** ** Comparing two records *)



(** ** Daily entries of the OpenWeatherMap forecast *)

Section ForecastDays.

Import OpenWeatherService.Forecast.

Lemma entryOf_add_same (l : list Day) (item : Item.t) :
  entryOf (Item.day item) (add l item)
  = Some match entryOf (Item.day item) l with
         | Some entry => update entry item
         | None => create item
         end.
Proof.
  induction l as [|e l IH]; simpl.
  - now rewrite Z.eqb_refl.
  - destruct (Z.eqb (date e) (Item.day item)) eqn:E; simpl; rewrite E;
      [reflexivity | exact IH].
Qed.

Lemma entryOf_add_other (l : list Day) (item : Item.t) (d : Z) :
  d <> Item.day item -> entryOf d (add l item) = entryOf d l.
Proof.
  intros Hne. induction l as [|e l IH]; simpl.
  - destruct (Z.eqb (Item.day item) d) eqn:E; [|reflexivity].
    apply Z.eqb_eq in E. congruence.
  - destruct (Z.eqb (date e) (Item.day item)) eqn:E; simpl.
    + apply Z.eqb_eq in E.
      destruct (Z.eqb (date e) d) eqn:E'; [|reflexivity].
      apply Z.eqb_eq in E'. congruence.
    + destruct (Z.eqb (date e) d); [reflexivity | exact IH].
Qed.

Lemma add_dates (l : list Day) (item : Item.t) :
  List.map date (add l item)
  = if existsb (Z.eqb (Item.day item)) (List.map date l) then List.map date l
    else (List.map date l ++ [Item.day item])%list.
Proof.
  induction l as [|e l IH]; simpl; [reflexivity|].
  rewrite (Z.eqb_sym (Item.day item) (date e)).
  destruct (Z.eqb (date e) (Item.day item)); simpl; [reflexivity|].
  rewrite IH. now destruct (existsb _ _).
Qed.

Lemma itemsOf_snoc (d : Z) (items : list Item.t) (item : Item.t) :
  itemsOf d (items ++ [item])
  = (itemsOf d items ++ if Z.eqb (Item.day item) d then [item] else [])%list.
Proof.
  unfold itemsOf. rewrite List.filter_app. cbn [List.filter].
  now destruct (Z.eqb (Item.day item) d).
Qed.

Lemma dayOf_snoc (own : list Item.t) (item : Item.t) :
  dayOf (own ++ [item])
  = Some match dayOf own with
         | Some entry => update entry item
         | None => create item
         end.
Proof.
  destruct own as [|first others]; [reflexivity|].
  cbn [dayOf app]. now rewrite fold_left_app.
Qed.

(** Under each date, the entry of the items of that day. *)
Lemma transformForecastData_entries (items : list Item.t) (d : Z) :
  entryOf d (transformForecastData items) = dayOf (itemsOf d items).
Proof.
  unfold transformForecastData.
  induction items as [|item items IH] using rev_ind; [reflexivity|].
  rewrite fold_left_app, itemsOf_snoc. cbn [fold_left].
  destruct (Z.eqb (Item.day item) d) eqn:E.
  - apply Z.eqb_eq in E. subst d.
    now rewrite entryOf_add_same, dayOf_snoc, IH.
  - apply Z.eqb_neq in E.
    rewrite entryOf_add_other by congruence. now rewrite app_nil_r.
Qed.

Lemma transformForecastData_dates (items : list Item.t) :
  List.NoDup (List.map date (transformForecastData items))
  /\ forall d, In d (List.map date (transformForecastData items))
               <-> In d (List.map Item.day items).
Proof.
  unfold transformForecastData.
  induction items as [|item items [IHnd IHin]] using rev_ind.
  - split; [constructor | reflexivity].
  - rewrite fold_left_app. cbn [fold_left]. rewrite add_dates.
    destruct (existsb _ _) eqn:E.
    + apply existsb_exists in E as (d' & Hin & Hd'). apply Z.eqb_eq in Hd'. subst d'.
      split; [exact IHnd|]. intros d. rewrite IHin, List.map_app, in_app_iff.
      simpl. split; [auto|]. intros [H|[<-|[]]]; [exact H | now apply IHin].
    + assert (Hnot : ~ In (Item.day item) (List.map date (fold_left add items []))).
      { intros Hin. assert (Hex : existsb (Z.eqb (Item.day item))
                                    (List.map date (fold_left add items [])) = true).
        { apply existsb_exists. exists (Item.day item). split; [exact Hin|].
          apply Z.eqb_refl. }
        congruence. }
      split.
      * apply List.NoDup_app; [exact IHnd | repeat constructor; simpl; tauto|].
        intros x Hx [<-|[]]. contradiction.
      * intros d. rewrite List.map_app, !in_app_iff, IHin. reflexivity.
Qed.

Lemma entryOf_In (l : list Day) (entry : Day) :
  List.NoDup (List.map date l) -> In entry l -> entryOf (date entry) l = Some entry.
Proof.
  induction l as [|e l IH]; intros Hnd Hin; [destruct Hin|].
  simpl in Hnd. apply List.NoDup_cons_iff in Hnd as [Hnot Hnd].
  simpl. destruct Hin as [->|Hin].
  - now rewrite Z.eqb_refl.
  - destruct (Z.eqb (date e) (date entry)) eqn:E.
    + apply Z.eqb_eq in E. exfalso. apply Hnot. rewrite E. now apply in_map.
    + now apply IH.
Qed.

Lemma round_min (a b : Q) :
  Qmin (inject_Z (Math.round a)) (inject_Z (Math.round b))
  == inject_Z (Math.round (Qmin a b)).
Proof.
  destruct (Q.min_spec a b) as [[H E]|[H E]]; rewrite (round_comp _ _ E).
  - apply Q.min_l. rewrite <- Zle_Qle. apply round_monotone. lra.
  - apply Q.min_r. rewrite <- Zle_Qle. now apply round_monotone.
Qed.

Lemma round_max (a b : Q) :
  Qmax (inject_Z (Math.round a)) (inject_Z (Math.round b))
  == inject_Z (Math.round (Qmax a b)).
Proof.
  destruct (Q.max_spec a b) as [[H E]|[H E]]; rewrite (round_comp _ _ E).
  - apply Q.max_r. rewrite <- Zle_Qle. apply round_monotone. lra.
  - apply Q.max_l. rewrite <- Zle_Qle. now apply round_monotone.
Qed.

Lemma fold_min_compat (l : list Q) (a a' : Q) :
  a == a' -> fold_left Qmin l a == fold_left Qmin l a'.
Proof.
  revert a a'. induction l as [|x l IH]; intros a a' H; [exact H|].
  simpl. apply IH. now rewrite H.
Qed.

Lemma fold_max_compat (l : list Q) (a a' : Q) :
  a == a' -> fold_left Qmax l a == fold_left Qmax l a'.
Proof.
  revert a a'. induction l as [|x l IH]; intros a a' H; [exact H|].
  simpl. apply IH. now rewrite H.
Qed.

(** Rounding the readings and taking the lowest gives the rounded lowest
    reading; likewise for the highest. *)
Lemma round_fold_min (l : list Q) (x : Q) :
  fold_left Qmin (List.map (fun t => inject_Z (Math.round t)) l) (inject_Z (Math.round x))
  == inject_Z (Math.round (fold_left Qmin l x)).
Proof.
  revert x. induction l as [|t l IH]; intros x; [reflexivity|].
  simpl. rewrite (fold_min_compat _ _ _ (round_min x t)). apply IH.
Qed.

Lemma round_fold_max (l : list Q) (x : Q) :
  fold_left Qmax (List.map (fun t => inject_Z (Math.round t)) l) (inject_Z (Math.round x))
  == inject_Z (Math.round (fold_left Qmax l x)).
Proof.
  revert x. induction l as [|t l IH]; intros x; [reflexivity|].
  simpl. rewrite (fold_max_compat _ _ _ (round_max x t)). apply IH.
Qed.

Lemma fahrenheit_min (a b : Q) :
  Qmin (a * 9 / 5 + 32) (b * 9 / 5 + 32) == Qmin a b * 9 / 5 + 32.
Proof.
  assert (F : forall x, x * 9 / 5 + 32 == (9 # 5) * x + 32) by (intros; field).
  destruct (Q.min_spec a b) as [[H E]|[H E]]; rewrite E.
  - apply Q.min_l. rewrite !F. lra.
  - apply Q.min_r. rewrite !F. lra.
Qed.

Lemma fahrenheit_max (a b : Q) :
  Qmax (a * 9 / 5 + 32) (b * 9 / 5 + 32) == Qmax a b * 9 / 5 + 32.
Proof.
  assert (F : forall x, x * 9 / 5 + 32 == (9 # 5) * x + 32) by (intros; field).
  destruct (Q.max_spec a b) as [[H E]|[H E]]; rewrite E.
  - apply Q.max_r. rewrite !F. lra.
  - apply Q.max_l. rewrite !F. lra.
Qed.

Lemma fahrenheit_fold_min (l : list Q) (x : Q) :
  fold_left Qmin (List.map (fun t => t * 9 / 5 + 32) l) (x * 9 / 5 + 32)
  == fold_left Qmin l x * 9 / 5 + 32.
Proof.
  revert x. induction l as [|t l IH]; intros x; [reflexivity|].
  simpl. rewrite (fold_min_compat _ _ _ (fahrenheit_min x t)). apply IH.
Qed.

Lemma fahrenheit_fold_max (l : list Q) (x : Q) :
  fold_left Qmax (List.map (fun t => t * 9 / 5 + 32) l) (x * 9 / 5 + 32)
  == fold_left Qmax l x * 9 / 5 + 32.
Proof.
  revert x. induction l as [|t l IH]; intros x; [reflexivity|].
  simpl. rewrite (fold_max_compat _ _ _ (fahrenheit_max x t)). apply IH.
Qed.

(** What the updates of a day change and what they keep. *)
Lemma fold_update (others : list Item.t) (entry : Day) :
  let r := fold_left update others entry in
  date r = date entry
  /\ min (temperature r)
     = fold_left Qmin (List.map Item.temp others) (min (temperature entry))
  /\ max (temperature r)
     = fold_left Qmax (List.map Item.temp others) (max (temperature entry))
  /\ min (celsius r)
     = fold_left Qmin
         (List.map (fun t => inject_Z (Math.round t)) (List.map Item.temp_min others))
         (min (celsius entry))
  /\ max (celsius r)
     = fold_left Qmax
         (List.map (fun t => inject_Z (Math.round t)) (List.map Item.temp_max others))
         (max (celsius entry))
  /\ min (fahrenheit r)
     = fold_left Qmin
         (List.map (fun t => inject_Z (Math.round t))
            (List.map (fun t => t * 9 / 5 + 32) (List.map Item.temp_min others)))
         (min (fahrenheit entry))
  /\ max (fahrenheit r)
     = fold_left Qmax
         (List.map (fun t => inject_Z (Math.round t))
            (List.map (fun t => t * 9 / 5 + 32) (List.map Item.temp_max others)))
         (max (fahrenheit entry))
  /\ (weather r, humidity r, hPa r, inHg r, speed_mps r, speed_mph r, direction r,
      clouds r, precipitation r)
     = (weather entry, humidity entry, hPa entry, inHg entry, speed_mps entry,
        speed_mph entry, direction entry, clouds entry, precipitation entry).
Proof.
  revert entry. induction others as [|item others IH]; intros entry.
  - cbv zeta. repeat split.
  - cbv zeta in *. cbn [fold_left List.map].
    destruct (IH (update entry item)) as (H1 & H2 & H3 & H4 & H5 & H6 & H7 & H8).
    rewrite H1, H2, H3, H4, H5, H6, H7, H8. repeat split.
Qed.

(** The forecast has one entry for each day that has items.  The entry's
    temperature range is that of the readings of the day; its Celsius
    range is the lowest [temp_min] and the highest [temp_max] of the day,
    rounded; its Fahrenheit range is the conversion of the same two
    readings, rounded; everything else (weather, humidity, pressure, wind,
    clouds, precipitation) is that of the first item of the day. *)
Theorem forecast_days_and_extremes (items : list Item.t) :
  let forecast := transformForecastData items in
  List.NoDup (List.map date forecast)
  /\ (forall d, In d (List.map date forecast) <-> In d (List.map Item.day items))
  /\ forall entry, In entry forecast ->
       exists first others,
         itemsOf (date entry) items = first :: others
         /\ min (temperature entry)
            = Math.min (Item.temp first) (List.map Item.temp others)
         /\ max (temperature entry)
            = Math.max (Item.temp first) (List.map Item.temp others)
         /\ min (celsius entry)
            == inject_Z (Math.round
                 (Math.min (Item.temp_min first) (List.map Item.temp_min others)))
         /\ max (celsius entry)
            == inject_Z (Math.round
                 (Math.max (Item.temp_max first) (List.map Item.temp_max others)))
         /\ min (fahrenheit entry)
            == inject_Z (Math.round
                 (Math.min (Item.temp_min first) (List.map Item.temp_min others)
                  * 9 / 5 + 32))
         /\ max (fahrenheit entry)
            == inject_Z (Math.round
                 (Math.max (Item.temp_max first) (List.map Item.temp_max others)
                  * 9 / 5 + 32))
         /\ (weather entry, humidity entry, hPa entry, inHg entry, speed_mps entry,
             speed_mph entry, direction entry, clouds entry, precipitation entry)
            = (weather (create first), humidity (create first), hPa (create first),
               inHg (create first), speed_mps (create first), speed_mph (create first),
               direction (create first), clouds (create first),
               precipitation (create first)).
Proof.
  cbv zeta. destruct (transformForecastData_dates items) as [Hnd Hin].
  split; [exact Hnd|]. split; [exact Hin|].
  intros entry Hentry.
  pose proof (entryOf_In _ _ Hnd Hentry) as Hfind.
  rewrite transformForecastData_entries in Hfind.
  destruct (itemsOf (date entry) items) as [|first others]; [discriminate Hfind|].
  cbn [dayOf] in Hfind. apply (inj Some) in Hfind.
  exists first, others. split; [reflexivity|].
  destruct (fold_update others (create first)) as (_ & H2 & H3 & H4 & H5 & H6 & H7 & H8).
  cbv zeta in *. rewrite Hfind in *.
  split; [exact H2|]. split; [exact H3|].
  split; [rewrite H4; apply round_fold_min|].
  split; [rewrite H5; apply round_fold_max|].
  split.
  { rewrite H6. cbn [create fahrenheit min]. rewrite round_fold_min.
    unfold Math.min. apply inject_Z_injective, round_comp, fahrenheit_fold_min. }
  split; [|exact H8].
  rewrite H7. cbn [create fahrenheit max]. rewrite round_fold_max.
  unfold Math.max. apply inject_Z_injective, round_comp, fahrenheit_fold_max.
Qed.

Lemma StronglySorted_snoc {A : Type} (R : A -> A -> Prop) (l : list A) (x : A) :
  StronglySorted R (l ++ [x]) <-> StronglySorted R l /\ List.Forall (fun y => R y x) l.
Proof.
  induction l as [|a l IH]; simpl.
  - split; [intros _; split; constructor | intros _; repeat constructor].
  - split.
    + intros H. apply StronglySorted_inv in H as [Hs Hf].
      apply IH in Hs as [Hs Hx]. rewrite List.Forall_app in Hf. destruct Hf as [Hf Hax].
      split; [now constructor|]. constructor; [now inversion Hax | exact Hx].
    + intros [Hs Hf]. apply StronglySorted_inv in Hs as [Hs Ha].
      inversion Hf; subst. constructor; [apply IH; auto|].
      rewrite List.Forall_app. split; [exact Ha | now repeat constructor].
Qed.

(** When the provider lists the items in chronological order, the daily
    entries come out in chronological order, each day once. *)
Theorem chronological_items_give_chronological_days (items : list Item.t) :
  Sorted Z.le (List.map Item.day items) ->
  StronglySorted Z.lt (List.map date (transformForecastData items)).
Proof.
  intros Hsorted. apply Sorted_StronglySorted in Hsorted; [|intros x y z; lia].
  unfold transformForecastData.
  induction items as [|item items IH] using rev_ind; [constructor|].
  rewrite List.map_app in Hsorted. cbn [List.map] in Hsorted.
  apply StronglySorted_snoc in Hsorted as [Hprev Hle].
  specialize (IH Hprev).
  rewrite fold_left_app. cbn [fold_left]. rewrite add_dates.
  destruct (existsb _ _) eqn:E; [exact IH|].
  apply StronglySorted_snoc. split; [exact IH|].
  apply List.Forall_forall. intros d Hd.
  assert (Hin : In d (List.map Item.day items)).
  { now apply (proj2 (transformForecastData_dates items)). }
  rewrite List.Forall_forall in Hle. specialize (Hle d Hin).
  assert (Hne : d <> Item.day item).
  { intros ->. assert (Hex : existsb (Z.eqb (Item.day item))
                              (List.map date (fold_left add items [])) = true).
    { apply existsb_exists. exists (Item.day item). split; [exact Hd | apply Z.eqb_refl]. }
    congruence. }
  lia.
Qed.

End ForecastDays.

Lemma chronological_items_give_chronological_days_witness :
  Sorted Z.le (List.map OpenWeatherService.Forecast.Item.day threeItems)
  /\ StronglySorted Z.lt
       (List.map OpenWeatherService.Forecast.date
          (OpenWeatherService.Forecast.transformForecastData threeItems)).
Proof.
  assert (H : Sorted Z.le (List.map OpenWeatherService.Forecast.Item.day threeItems)).
  { cbn. repeat constructor; lia. }
  split; [exact H|].
  exact (chronological_items_give_chronological_days threeItems H).
Defined.

(** ** When standardization throws *)

Lemma standardizeDay_throws (day : jsval) :
  (exists message, Weather.standardizeDay day = Throw message) <-> nullish day = true.
Proof.
  unfold Weather.standardizeDay.
  destruct day; cbn [member bind nullish not_nullish negb];
    split; try discriminate; eauto; intros [message H]; discriminate H.
Qed.

Lemma mapM_standardizeDay (days : list jsval) :
  match Weather.mapM Weather.standardizeDay days with
  | Return standardized =>
      length standardized = length days /\ existsb nullish days = false
  | Throw _ => existsb nullish days = true
  end.
Proof.
  induction days as [|day rest IH]; [split; reflexivity|].
  cbn [Weather.mapM existsb].
  destruct (Weather.standardizeDay day) as [d|message] eqn:Ed; cbn [bind].
  - assert (Hday : nullish day = false).
    { destruct (nullish day) eqn:E; [|reflexivity].
      apply standardizeDay_throws in E as [m E]. congruence. }
    rewrite Hday. cbn [orb].
    destruct (Weather.mapM Weather.standardizeDay rest) as [ds|m]; cbn [bind].
    + destruct IH as [IH1 IH2]. cbn [length]. now rewrite IH1.
    + exact IH.
  - assert (Hday : nullish day = true) by (apply standardizeDay_throws; eauto).
    now rewrite Hday.
Qed.

(** [getStandardized] throws exactly when [forecast] is an array that
    holds [null] or [undefined]; otherwise the standardized forecast has
    as many days as the array, and none when [forecast] is not an
    array. *)
Theorem getStandardized_throws_on_missing_days (w : Weather.t) :
  match Weather.getStandardized w with
  | Throw _ =>
      exists days, Weather.forecast w = JArray days /\ existsb nullish days = true
  | Return standardized =>
      exists forecast,
        standardized ~> "forecast" = JArray forecast
        /\ match Weather.forecast w with
           | JArray days => length forecast = length days /\ existsb nullish days = false
           | _ => forecast = []
           end
  end.
Proof.
  assert (H : match Weather.getStandardizedForecast w with
              | Throw _ =>
                  exists days, Weather.forecast w = JArray days
                               /\ existsb nullish days = true
              | Return standardized =>
                  exists forecast,
                    standardized = JArray forecast
                    /\ match Weather.forecast w with
                       | JArray days =>
                           length forecast = length days
                           /\ existsb nullish days = false
                       | _ => forecast = []
                       end
              end).
  { unfold Weather.getStandardizedForecast.
    destruct (Weather.forecast w) as [| | | | |days|]; try (exists []; split; reflexivity).
    pose proof (mapM_standardizeDay days) as Hdays.
    destruct (Weather.mapM Weather.standardizeDay days) as [ds|m]; cbn [bind]; eauto. }
  unfold Weather.getStandardized.
  destruct (Weather.getStandardizedForecast w) as [f|m]; cbn [bind].
  - destruct H as (forecast & -> & H).
    repeat match goal with
    | |- context [if ?b then _ else _] => destruct b
    end; exists forecast; (split; [reflexivity | exact H]).
  - repeat match goal with
    | |- context [if ?b then _ else _] => destruct b
    end; exact H.
Qed.
